(** * FISHscale [spatial/boundaries.py]: border-strength maps

    A shallow embedding of [FISHscale/spatial/boundaries.py] and the
    properties of it that the specification states.

    Conventions of the embedding.
    - Python/NumPy [float64] values are idealised as exact rationals [Q];
      all statements about them are up to [Qeq] ([==]); rounding is not
      modelled.  Where the code
      produces a not-a-number or an infinity on purpose (a division by zero
      that is cleaned up with [nan_to_num], the re-masking of the texture
      worker) the special values are written out.
    - Python [int]s and NumPy [int64] counts are [Z]; the [int32] matrix of
      the counting worker wraps around, see [to_int32].
    - Exceptions are the [Raise] results of the [result] monad.
    - One- and two-dimensional arrays are lists and lists of rows; a 3-d
      stack is indexed (gene, grid point, angle).
    - Library routines whose numeric internals are not part of this
      repository (trigonometry, square root, the normalisation of the
      dataset object, the denoiser and texture descriptor of scikit-image)
      are the fields of type classes. *)

From Stdlib Require Import ZArith QArith Qround Lia Lqa.
From stdpp Require Import base tactics option list strings gmap.

Set Default Proof Using "Type".

(** ** Exceptions *)

Inductive exn : Set :=
  | ZeroDivisionError
  | ValueError
  | IndexError.

Inductive result (A : Type) : Type :=
  | Ok (a : A)
  | Raise (e : exn).
Arguments Ok {A} a.
Arguments Raise {A} e.

#[global] Instance result_ret : MRet result := fun _ a => Ok a.
#[global] Instance result_bind : MBind result := fun _ _ f m =>
  match m with Ok a => f a | Raise e => Raise e end.
#[global] Instance result_fmap : FMap result := fun _ _ f m =>
  match m with Ok a => Ok (f a) | Raise e => Raise e end.

Definition is_Ok {A} (m : result A) : Prop := ∃ a, m = Ok a.
Definition raises {A} (m : result A) : Prop := ∃ e, m = Raise e.

(** ** NumPy and [math] helpers used by the grid builder *)

(** Python's [a / b] on floats. *)
Definition py_div (a b : Q) : result Q :=
  if Qeq_bool b 0 then Raise ZeroDivisionError else Ok (a / b)%Q.

(** [math.ceil], of the exact quotient: the quotient of two floats is
    rounded and can lie across an integer from the exact one (0.9 / 0.3),
    and [math.ceil] raises on an infinite or not-a-number quotient, which
    the rationals do not have. *)
Definition math_ceil (x : Q) : Z := Qceiling x.

(** Overwrite the last cell of an array ([y[-1] = v]). *)
Definition set_last {A} (l : list A) (v : A) : list A :=
  <[pred (length l) := v]> l.

(** [np.linspace(start, stop, num)] with [endpoint=True]: [num] samples
    [start + k * step] where [step = (stop - start) / (num - 1)], the last
    one overwritten with [stop]; a single sample is [start]; a negative
    [num] is rejected. *)
Definition linspace (start stop : Q) (num : Z) : result (list Q) :=
  if (num <? 0)%Z then Raise ValueError
  else
    let div := (num - 1)%Z in
    let delta := (stop - start)%Q in
    let y := inject_Z <$> seqZ 0 num in
    let y := if (0 <? div)%Z
             then (λ k, k * (delta / inject_Z div))%Q <$> y
             else (λ k, k * delta)%Q <$> y in
    let y := (λ v, v + start)%Q <$> y in
    Ok (if (1 <? num)%Z then set_last y stop else y).

(** [np.meshgrid(xi, yi)]: both outputs have shape [(len yi, len xi)]. *)
Definition meshgrid (xi yi : list Q) : list (list Q) * list (list Q) :=
  ((λ _, xi) <$> yi, (λ y, (λ _, y) <$> xi) <$> yi).

(** [a.ravel()] of a 2-d array, row-major. *)
Definition ravel {A} (m : list (list A)) : list A := concat m.

(** [np.column_stack((a, b))] of two 1-d arrays of one length. *)
Definition column_stack (a b : list Q) : list (Q * Q) := zip a b.

(** [Xi.shape].  An array without rows is given no columns; such a grid
    has no valid point and [boundaries_make] raises before its shape
    shows in a result. *)
Definition shape2 {A} (m : list (list A)) : nat * nat :=
  (length m, match m with [] => 0%nat | r :: _ => length r end).

(** ** [Boundaries.square_grid] *)

Definition square_grid (bin_size x_extent y_extent x_min x_max y_min y_max : Q)
  : result (list (Q * Q) * list (list Q) * list (list Q)) :=
  qx ← py_div x_extent bin_size;
  let nx := math_ceil qx in
  let d_x := (inject_Z nx * bin_size - x_extent)%Q in
  xi ← linspace (x_min - (1#2) * d_x)%Q (x_max + (1#2) * d_x)%Q nx;
  qy ← py_div y_extent bin_size;
  let ny := math_ceil qy in
  let d_y := (inject_Z ny * bin_size - y_extent)%Q in
  yi ← linspace (y_min - (1#2) * d_y)%Q (y_max + (1#2) * d_y)%Q ny;
  let '(Xi, Yi) := meshgrid xi yi in
  let grid := column_stack (ravel Xi) (ravel Yi) in
  Ok (grid, Xi, Yi).


(** ** Generic array helpers *)

(** A monadic left fold: a [for] loop that threads its state and stops at
    the first exception. *)
Fixpoint foldM {A S} (f : S → A → result S) (s : S) (l : list A) : result S :=
  match l with
  | [] => Ok s
  | x :: l => s' ← f s x; foldM f s' l
  end.

(** [enumerate(l)]. *)
Definition enumerate {A} (l : list A) : list (nat * A) := imap pair l.

(** [a[i, j] = v] on a 2-d array; an index past the end raises. *)
Definition setitem2 {A} (a : list (list A)) (i j : nat) (v : A)
  : result (list (list A)) :=
  match a !! i with
  | Some row =>
      if decide (j < length row) then Ok (<[i := <[j := v]> row]> a)
      else Raise IndexError
  | None => Raise IndexError
  end.

(** [np.zeros((rows, cols))]: negative dimensions are not allowed. *)
Definition np_zeros2 {A} (zero : A) (rows : nat) (cols : Z) : result (list (list A)) :=
  if (cols <? 0)%Z then Raise ValueError
  else Ok (replicate rows (replicate (Z.to_nat cols) zero)).

(** The value stored by an assignment into an [int32] array. *)
Definition to_int32 (z : Z) : Z := ((z + 2 ^ 31) mod 2 ^ 32 - 2 ^ 31)%Z.

(** [b.sum()] of a boolean array. *)
Definition np_sum_bool (b : list bool) : Z := Z.of_nat (length (filter (λ x, x = true) b)).

(** ** [_worker_bisect] *)

Definition point : Type := Q * Q.
Definition line : Type := point * point.

Definition psub (a b : point) : point := ((a.1 - b.1)%Q, (a.2 - b.2)%Q).

(** [np.cross] of two 2-d vectors. *)
Definition np_cross (a b : point) : Q := (a.1 * b.2 - a.2 * b.1)%Q.

Definition Qltb (a b : Q) : bool := negb (Qle_bool b a).

(** The local function [isabove(p, line)], on an array [p] of points. *)
Definition isabove (p : list point) (l : line) : list bool :=
  (λ x, Qltb (np_cross (psub x l.1) (psub l.2 l.1)) 0) <$> p.

(** [KDTree(points)] of scikit-learn: an empty array is rejected with a
    [ValueError]; the index itself is represented by the points. *)
Definition KDTree (points : list point) : result (list point) :=
  match points with
  | [] => Raise ValueError
  | _ => Ok points
  end.

(** Euclidean distance at most [radius] (inclusive); no point is within a
    negative radius. *)
Definition within (radius : Q) (g p : point) : bool :=
  Qle_bool 0 radius &&
  Qle_bool ((p.1 - g.1) * (p.1 - g.1) + (p.2 - g.2) * (p.2 - g.2)) (radius * radius).

(** [tree.query_radius(grid, radius)]: for every grid point the indices of
    the points within the radius.  Like the constructor, the query rejects
    an empty array with a [ValueError]. *)
Definition query_radius (tree : list point) (grid : list point) (radius : Q)
  : result (list (list nat)) :=
  match grid with
  | [] => Raise ValueError
  | _ =>
      Ok ((λ g, filter (λ i, from_option (within radius g) false (tree !! i) = true)
                       (seq 0 (length tree))) <$> grid)
  end.

(** [points.iloc[i].to_numpy()] for an index array [i]. *)
Definition iloc (points : list point) (i : list nat) : list point :=
  omap (λ k, points !! k) i.

Definition _worker_bisect (points grid : list point) (radius : Q)
    (lines : list line) (n_angles : Z) : result (list (list Z) * list Z) :=
  tree ← KDTree points;
  index ← query_radius tree grid radius;
  let count := (λ i, Z.of_nat (length i)) <$> index in
  let coords := (λ i, iloc points i) <$> index in
  angle_counts ← np_zeros2 0%Z (length grid) n_angles;
  angle_counts ←
    foldM (λ angle_counts '(i, (c, g)),
             if decide (0 < length c) then
               let cc := (λ p, psub p g) <$> c in
               foldM (λ angle_counts '(j, l),
                        setitem2 angle_counts i j (to_int32 (np_sum_bool (isabove cc l))))
                     angle_counts (enumerate lines)
             else Ok angle_counts)
          angle_counts (enumerate (zip coords grid));
  Ok (angle_counts, count).

(** ** [_worker_angle] *)

Class FloatLib := {
  np_sqrt : Q → Q;
  np_cos : Q → Q;
  np_sin : Q → Q;
  np_deg2rad : Q → Q;
}.

(** [m[:, j]]. *)
Definition column {A} (m : list (list A)) (j : nat) : result (list A) :=
  mapM (λ row, match row !! j with Some x => Ok x | None => Raise IndexError end) m.

(** [scipy.spatial.distance.euclidean(u, v)]: the square root of the sum
    of the squared coordinate differences.  The difference [u - v] is
    NumPy's: vectors of one length are subtracted coordinate by
    coordinate, a vector of length one is broadcast against the other, and
    any other pair of lengths raises. *)
Definition euclidean `{FloatLib} (u v : list Q) : result Q :=
  if decide (length u = length v)
  then Ok (np_sqrt (foldr Qplus 0%Q (zip_with (λ a b, (a - b) * (a - b))%Q u v)))
  else match u, v with
       | [a], _ => Ok (np_sqrt (foldr Qplus 0%Q ((λ b, (a - b) * (a - b))%Q <$> v)))
       | _, [b] => Ok (np_sqrt (foldr Qplus 0%Q ((λ a, (a - b) * (a - b))%Q <$> u)))
       | _, _ => Raise ValueError
       end.

(** [np.zeros(n)]. *)
Definition np_zeros1 {A} (zero : A) (n : Z) : result (list A) :=
  if (n <? 0)%Z then Raise ValueError else Ok (replicate (Z.to_nat n) zero).

(** [a[j] = v] on a 1-d array. *)
Definition setitem1 {A} (a : list A) (j : nat) (v : A) : result (list A) :=
  if decide (j < length a) then Ok (<[j := v]> a) else Raise IndexError.

(** [a.max()]: the running maximum; the reduction of an empty array has no
    identity. *)
Fixpoint max_loop (m : Q) (a : list Q) : Q :=
  match a with
  | [] => m
  | y :: a => max_loop (if Qltb m y then y else m) a
  end.

Definition np_max (a : list Q) : result Q :=
  match a with
  | [] => Raise ValueError
  | x :: a => Ok (max_loop x a)
  end.

(** [a.argmax()]: NumPy scans from the left and moves to cell [i] only
    when it is not [<=] the running maximum [mp], so the first occurrence
    of the maximum is kept. *)
Fixpoint argmax_loop (mp : Q) (max_ind i : nat) (ip : list Q) : nat :=
  match ip with
  | [] => max_ind
  | y :: ip =>
      if Qltb mp y then argmax_loop y i (S i) ip
      else argmax_loop mp max_ind (S i) ip
  end.

Definition np_argmax (a : list Q) : result nat :=
  match a with
  | [] => Raise ValueError
  | x :: a => Ok (argmax_loop x 0 1 a)
  end.

Definition _worker_angle `{FloatLib} (n_angles : Z) (d1 d2 : list (list Q))
  : result (Q * nat) :=
  r ← np_zeros1 0%Q n_angles;
  dist ← np_zeros1 0%Q n_angles;
  dist ← foldM (λ dist j,
                  u ← column d1 j;
                  v ← column d2 j;
                  d ← euclidean u v;
                  setitem1 dist j d)
               dist (seq 0 (Z.to_nat n_angles));
  m ← np_max dist;
  k ← np_argmax dist;
  Ok (m, k).

(** ** The dataset object and [Boundaries.bisect] *)

(** What [boundaries_make] reads from [self]: the extent of the data, the
    gene names, the points of a gene and the normalisation of a count
    table. *)
Class Dataset := {
  gene : Type;
  norm_mode : Type;
  x_extent : Q;
  y_extent : Q;
  x_min : Q;
  x_max : Q;
  y_min : Q;
  y_max : Q;
  unique_genes : list gene;
  get_gene : gene → result (list point);
  normalize : list (list Z) → norm_mode → result (list (list Q));
}.

Definition padd (a b : point) : point := ((a.1 + b.1)%Q, (a.2 + b.2)%Q).

Definition bisect `{FloatLib} (r a : Q) (offset : option point) : line :=
  let a := np_deg2rad a in
  let p := ((np_cos a * r)%Q, (np_sin a * r)%Q) in
  let q := ((- p.1)%Q, (- p.2)%Q) in
  match offset with
  | Some o => (padd p o, padd q o)
  | None => (p, q)
  end.

(** ** Array operations of [boundaries_make] *)

(** [count_matrix.sum(axis=0)] of a (genes x grid points) matrix. *)
Definition sum_axis0 (first : list Z) (rest : list (list Z)) : list Z :=
  foldl (zip_with Z.add) first rest.

Fixpoint chunks {A} (rows cols : nat) (a : list A) : list (list A) :=
  match rows with
  | O => []
  | S rows => take cols a :: chunks rows cols (drop cols a)
  end.

(** [a.reshape(rows, cols)]. *)
Definition reshape {A} (a : list A) (rows cols : nat) : result (list (list A)) :=
  if decide (length a = (rows * cols)%nat) then Ok (chunks rows cols a)
  else Raise ValueError.

(** A cell of a boolean image; everything outside the image is [false]
    (the [border_value=0] of [binary_erosion]). *)
Definition get2 (m : list (list bool)) (r c : nat) : bool :=
  default false (row ← m !! r; row !! c).

(** One erosion with the structuring element that
    [scipy.ndimage.binary_erosion] generates when none is passed,
    [generate_binary_structure(2, 1)]: the cell and its four edge
    neighbours. *)
Definition erode_step (m : list (list bool)) : list (list bool) :=
  imap (λ r row,
    imap (λ c x,
      x && match r with O => false | S r' => get2 m r' c end
        && get2 m (S r) c
        && match c with O => false | S c' => get2 m r c' end
        && get2 m r (S c)) row) m.

Fixpoint erode_until_stable (fuel : nat) (m : list (list bool)) : list (list bool) :=
  match fuel with
  | O => m
  | S fuel =>
      let m' := erode_step m in
      if decide (m' = m) then m else erode_until_stable fuel m'
  end.

(** [binary_erosion(m, iterations=n)]: the erosion is repeated [n] times;
    for [n < 1] it is repeated until the result does not change any more
    (each changing step clears a cell, so the number of cells bounds the
    steps). *)
Definition binary_erosion (m : list (list bool)) (iterations : Z) : list (list bool) :=
  if (iterations <? 1)%Z then erode_until_stable (S (length (ravel m))) m
  else Nat.iter (Z.to_nat iterations) erode_step m.

(** [a[filt]] for a boolean index array [filt]. *)
Definition mask_select {A} (filt : list bool) (a : list A) : result (list A) :=
  if decide (length filt = length a)
  then Ok (snd <$> filter (λ bx, bx.1 = true) (zip filt a))
  else Raise IndexError.

(** [np.stack(arrays)]: needs at least one array. *)
Definition np_stack {A} (arrays : list A) : result (list A) :=
  match arrays with
  | [] => Raise ValueError
  | _ => Ok arrays
  end.

(** [np.repeat(m[:, :, np.newaxis], n, axis=2)]. *)
Definition repeat_axis2 {A} (m : list (list A)) (n : Z) : list (list (list A)) :=
  (λ row : list A, (λ x, replicate (Z.to_nat n) x) <$> row) <$> m.

(** Element-wise binary operations; operands of different shapes raise
    (the shapes that occur here are never broadcast). *)
Definition map2_checked {A B C} (f : A → B → result C) (a : list A) (b : list B)
  : result (list C) :=
  if decide (length a = length b) then mapM (λ xy, f xy.1 xy.2) (zip a b)
  else Raise ValueError.

Definition elementwise3 {A B C} (f : A → B → C)
  : list (list (list A)) → list (list (list B)) → result (list (list (list C))) :=
  map2_checked (map2_checked (map2_checked (λ x y, Ok (f x y)))).

(** Floating-point values with the special values written out. *)
Inductive xfloat : Type :=
  | Fin (q : Q)
  | PInf
  | NInf
  | NaN.

(** [a / b] on integer arrays: true division; NumPy does not raise on a
    zero divisor but yields not-a-number or an infinity. *)
Definition true_divide (a b : Z) : xfloat :=
  if (b =? 0)%Z then
    if (a =? 0)%Z then NaN else if (0 <? a)%Z then PInf else NInf
  else Fin (inject_Z a / inject_Z b)%Q.

(** The largest finite [float64]. *)
Definition float_max : Q := inject_Z (2 ^ 1024 - 2 ^ 971).

(** [np.nan_to_num]. *)
Definition nan_to_num (x : xfloat) : Q :=
  match x with
  | Fin q => q
  | NaN => 0
  | PInf => float_max
  | NInf => - float_max
  end.

(** [stack[:, i, :]]. *)
Definition slice_axis1 {A} (stack : list (list (list A))) (i : nat)
  : result (list (list A)) :=
  mapM (λ m, match m !! i with Some row => Ok row | None => Raise IndexError end) stack.

Definition count_true (mask : list (list bool)) : nat :=
  length (filter (λ b, b = true) (ravel mask)).

Definition same_shape {A B} (a : list (list A)) (b : list (list B)) : Prop :=
  Forall2 (λ ra rb, length ra = length rb) a b.

#[global] Instance same_shape_dec {A B} (a : list (list A)) (b : list (list B)) :
  Decision (same_shape a b).
Proof. unfold same_shape. apply _. Defined.

(** Row-major scatter of [vals] into the cells of [a] where [mask] holds;
    returns the new row and the values not yet used. *)
Fixpoint scatter1 {A} (a : list A) (mask : list bool) (vals : list A) : list A * list A :=
  match a, mask with
  | x :: a, b :: mask =>
      match b, vals with
      | true, v :: vals => let '(a', rest) := scatter1 a mask vals in (v :: a', rest)
      | _, _ => let '(a', rest) := scatter1 a mask vals in (x :: a', rest)
      end
  | _, _ => (a, vals)
  end.

Fixpoint scatter2 {A} (img : list (list A)) (mask : list (list bool)) (vals : list A)
  : list (list A) :=
  match img, mask with
  | row :: img, mrow :: mask =>
      let '(row', rest) := scatter1 row mrow vals in row' :: scatter2 img mask rest
  | _, _ => img
  end.

(** [img[mask] = vals] for a 2-d boolean [mask] and a 1-d array [vals]:
    the mask has the shape of the image and there is one value per true
    cell (a single value is broadcast). *)
Definition mask_assign2 {A} (img : list (list A)) (mask : list (list bool)) (vals : list A)
  : result (list (list A)) :=
  if decide (same_shape img mask) then
    let vals := match vals with
                | [v] => replicate (count_true mask) v
                | _ => vals
                end in
    if decide (length vals = count_true mask) then Ok (scatter2 img mask vals)
    else Raise ValueError
  else Raise IndexError.

(** ** [Boundaries.boundaries_make] *)

(** [np.linspace(0, 180 - (180 / n_angles), n_angles)]. *)
Definition angles (n_angles : Z) : result (list Q) :=
  step ← py_div 180 (inject_Z n_angles);
  linspace 0 (180 - step) n_angles.

(** Lines 236-242: the grid points that have molecules, with the contour
    removed.  Without genes [count_matrix] is the empty 1-d array: its
    sum is a scalar, which reshapes to a 1 x 1 grid only, and the column
    filter of line 246 then fails on the 1-d array. *)
Definition validity_mask (count_matrix : list (list Z)) (shape : nat * nat)
    (radius bin_size : Q) : result (list (list bool)) :=
  match count_matrix with
  | [] => if decide ((shape.1 * shape.2)%nat = 1%nat) then Raise IndexError
          else Raise ValueError
  | first :: rest =>
      let filt := (λ s, bool_decide (0 < s)%Z) <$> sum_axis0 first rest in
      filt_grid ← reshape filt shape.1 shape.2;
      q ← py_div radius bin_size;
      Ok (binary_erosion filt_grid (math_ceil q))
  end.

(** Lines 255-261: the normalised counts times the fraction of the counts
    in each half of the circle. *)
Definition normalized_stacks (cm_norm : list (list Q)) (n_angles : Z)
    (stack stack_other cm_repeat : list (list (list Z)))
  : result (list (list (list Q)) * list (list (list Q))) :=
  let cm_norm := repeat_axis2 cm_norm n_angles in
  frac ← elementwise3 (λ a b, nan_to_num (true_divide a b)) stack cm_repeat;
  stack' ← elementwise3 Qmult cm_norm frac;
  frac_other ← elementwise3 (λ a b, nan_to_num (true_divide a b)) stack_other cm_repeat;
  stack_other' ← elementwise3 Qmult cm_norm frac_other;
  Ok (stack', stack_other').

Definition as_float (a : list (list (list Z))) : list (list (list Q)) :=
  (λ m : list (list Z), (λ row : list Z, inject_Z <$> row) <$> m) <$> a.

(** [m.shape[1]] of a matrix with at least one row. *)
Definition ncols {A} (m : list (list A)) : nat :=
  match m with [] => 0%nat | row :: _ => length row end.

(** The six values that [boundaries_make] returns. *)
Record borders := {
  results : list (Q * Q);
  image : list (list Q);
  grid : list point;
  grid_filt : list point;
  filt_grid : list (list bool);
  shape : nat * nat;
}.

(** [n_jobs] only sets the number of worker processes and is left out:
    the scheduler returns the results of the tasks in submission order.
    [np.nan_to_num(results2)] of line 275 is the identity on rationals.
    An empty [results2] is a 1-d array, on which the column index of
    line 279 fails. *)
Definition boundaries_make `{FloatLib} `{Dataset} (bin_size radius : Q) (n_angles : Z)
    (normalize_counts : bool) (normalization_mode : norm_mode)
    (gene_selection : option (list gene)) : result borders :=
  '(grid, Xi, Yi) ← square_grid bin_size x_extent y_extent x_min x_max y_min y_max;
  let shape := shape2 Xi in
  angs ← angles n_angles;
  let lines := (λ a, bisect radius a None) <$> angs in
  let genes := match gene_selection with
               | None => unique_genes
               | Some selection => selection
               end in
  points ← mapM get_gene genes;
  results ← mapM (λ p, _worker_bisect p grid radius lines n_angles) points;
  let count_matrix := snd <$> results in
  let results_angle_counts := fst <$> results in
  filt_grid ← validity_mask count_matrix shape radius bin_size;
  let filt := ravel filt_grid in
  results_angle_counts ← mapM (mask_select filt) results_angle_counts;
  count_matrix ← mapM (mask_select filt) count_matrix;
  grid_filt ← mask_select filt grid;
  stack ← np_stack results_angle_counts;
  let cm_repeat := repeat_axis2 count_matrix n_angles in
  stack_other ← elementwise3 Z.sub cm_repeat stack;
  '(stack, stack_other) ←
    (if normalize_counts then
       cm_norm ← normalize count_matrix normalization_mode;
       normalized_stacks cm_norm n_angles stack stack_other cm_repeat
     else Ok (as_float stack, as_float stack_other));
  results2 ← mapM (λ i,
                     d1 ← slice_axis1 stack i;
                     d2 ← slice_axis1 stack_other i;
                     _worker_angle n_angles d1 d2)
                  (seq 0 (ncols count_matrix));
  angle_used ← angles n_angles;
  results2 ← match results2 with
             | [] => Raise IndexError
             | _ => mapM (λ dk : Q * nat,
                            match angle_used !! dk.2 with
                            | Some a => Ok (dk.1, a)
                            | None => Raise IndexError
                            end) results2
             end;
  let image := replicate shape.1 (replicate shape.2 0%Q) in
  image ← mask_assign2 image filt_grid (fst <$> results2);
  Ok {| results := results2; image := image; grid := grid;
        grid_filt := grid_filt; filt_grid := filt_grid; shape := shape |}.

(** ** [Boundaries._LBP_worker] *)

(** The scikit-image routines of the texture worker.  The descriptor can
    yield not-a-number (it does so where the local variance is zero).
    [estimate_sigma] returns one number for a 2-d image, of which
    [np.mean] is that number. *)
Class TextureLib := {
  estimate_sigma : list (list Q) → Q;
  denoise_nl_means : list (list Q) → Q → Q → Z → Z → list (list Q);
  local_binary_pattern : list (list Q) → Z → Q → list (list xfloat);
}.

(** [img[mask] = v] for a 2-d boolean [mask] and a scalar [v]. *)
Definition mask_fill2 {A} (img : list (list A)) (mask : list (list bool)) (v : A)
  : result (list (list A)) :=
  if decide (same_shape img mask)
  then Ok (zip_with (zip_with (λ x (b : bool), if b then v else x)) img mask)
  else Raise IndexError.

(** [~mask]. *)
Definition invert (mask : list (list bool)) : list (list bool) :=
  (λ row : list bool, negb <$> row) <$> mask.

Definition is_nan (x : xfloat) : bool :=
  match x with NaN => true | _ => false end.

(** [np.isnan(a)]. *)
Definition np_isnan (a : list (list xfloat)) : list (list bool) :=
  (λ row : list xfloat, is_nan <$> row) <$> a.

Definition _LBP_worker `{TextureLib} (img : list (list Q)) (mask : list (list bool))
    (h_factor patch_size patch_distance n_points : Z) (radius : Q)
  : result (list (list xfloat)) :=
  let sigma_est := estimate_sigma img in
  let denoise := denoise_nl_means img (inject_Z h_factor * sigma_est)%Q sigma_est
                                  patch_size patch_distance in
  denoise ← mask_fill2 denoise (invert mask) 0%Q;
  let lbp := local_binary_pattern denoise n_points radius in
  lbp ← mask_fill2 lbp (np_isnan lbp) (Fin 0);
  lbp ← mask_fill2 lbp (invert mask) NaN;
  Ok lbp.

(** ** Notions that the properties are stated with *)

(** [m] is the maximum of the array [a] and [k] the first index where it
    occurs. *)
Definition first_max (a : list Q) (m : Q) (k : nat) : Prop :=
  a !! k = Some m ∧
  (∀ j y, a !! j = Some y → (y <= m)%Q) ∧
  (∀ j y, (j < k)%nat → a !! j = Some y → (y < m)%Q).

(** The Euclidean distance, across the genes (the rows), between column
    [j] of the above counts [d1] and column [j] of the below counts [d2]. *)
Definition angle_distance `{FloatLib} (d1 d2 : list (list Q)) (j : nat) : Q :=
  np_sqrt (foldr Qplus 0%Q
             (zip_with (λ r1 r2 : list Q,
                          (default 0 (r1 !! j) - default 0 (r2 !! j)) *
                          (default 0 (r1 !! j) - default 0 (r2 !! j)))%Q d1 d2)).

(** The points of a gene within the radius of the grid point [g]. *)
Definition in_radius (points : list point) (g : point) (radius : Q) : list point :=
  filter (λ p, within radius g p = true) points.

(** The number of those points that lie above the line [l] through the
    grid point. *)
Definition count_above (points : list point) (g : point) (radius : Q) (l : line) : Z :=
  np_sum_bool (isabove ((λ p, psub p g) <$> in_radius points g radius) l).

(** Row [i] of the above-count matrix as the two loops of [_worker_bisect]
    leave it: untouched zeros when no point is in the radius, otherwise
    one stored count per line, provided the row has a cell for every
    line. *)
Definition angle_counts_row (points : list point) (radius : Q) (lines : list line)
    (n_angles : Z) (g : point) : result (list Z) :=
  if decide (0 < length (in_radius points g radius))%nat then
    if decide (length lines ≤ Z.to_nat n_angles)%nat
    then Ok (((λ l, to_int32 (count_above points g radius l)) <$> lines)
             ++ replicate (Z.to_nat n_angles - length lines) 0%Z)
    else Raise IndexError
  else Ok (replicate (Z.to_nat n_angles) 0%Z).

(** A cell of a boolean image at integer coordinates; [false] outside. *)
Definition getZ (m : list (list bool)) (r c : Z) : bool :=
  if ((r <? 0) || (c <? 0))%Z then false else get2 m (Z.to_nat r) (Z.to_nat c).

(** The total count of grid point [k] over all genes. *)
Definition column_total (count_matrix : list (list Z)) (k : nat) : Z :=
  foldr Z.add 0%Z ((λ row : list Z, default 0%Z (row !! k)) <$> count_matrix).



(** Cells of 2-d and 3-d arrays. *)
Definition lookup2 {A} (m : list (list A)) (g i : nat) : option A :=
  m !! g ≫= λ row, row !! i.

Definition lookup3 {A} (a : list (list (list A))) (g i j : nat) : option A :=
  a !! g ≫= λ m, m !! i ≫= λ row, row !! j.

(** Where a gene has no point around a grid point, no point is above any
    line there (the rows of the counting worker have this property). *)
Definition zero_where_empty (count_matrix : list (list Z))
    (stack : list (list (list Z))) : Prop :=
  Forall2 (Forall2 (λ (total : Z) (row : list Z),
                      total = 0%Z → Forall (λ above, above = 0%Z) row))
          count_matrix stack.

(** The fraction [part / total] with 0 where [total] is 0. *)
Definition safe_fraction (part total : Z) : Q :=
  if decide (total = 0%Z) then 0%Q else (inject_Z part / inject_Z total)%Q.

(** Number of set cells of a boolean row. *)
Definition ntrue (m : list bool) : nat := length (filter (λ b, b = true) m).

(** Number of set cells of a mask that come before cell [(r, c)] in
    row-major order: the index of the result row that belongs to the cell. *)
Definition rank (mask : list (list bool)) (r c : nat) : nat :=
  (count_true (take r mask) + ntrue (take c (default [] (mask !! r))))%nat.

(** The total counts per gene (rows) and grid point (columns): for each
    point set the number of its points within the radius of each grid
    point. *)
Definition counts_in_radius (points : list (list point)) (grid : list point)
    (radius : Q) : list (list Z) :=
  (λ p, (λ g, Z.of_nat (length (in_radius p g radius))) <$> grid) <$> points.

(** The genes that a run works on. *)
Definition selected_genes `{Dataset} (gene_selection : option (list gene)) : list gene :=
  match gene_selection with
  | None => unique_genes
  | Some selection => selection
  end.

(** ** Small concrete instances

    Rational stand-ins for the numeric library routines and a nine-point
    dataset, used to run the definitions on concrete inputs. *)

(** Six Newton steps towards the square root. *)
Definition Qsqrt_newton (x : Q) : Q :=
  Nat.iter 6 (λ y, Qred ((y + x / y) / 2))%Q (Qred ((x + 1) / 2))%Q.

(** Truncated Taylor series for the trigonometric functions, 355/113 for
    pi. *)
Definition approx_float : FloatLib := {|
  np_sqrt := λ x, if Qle_bool x 0 then 0%Q else Qsqrt_newton x;
  np_deg2rad := λ a, Qred (a * (355 # 113) / 180)%Q;
  np_cos := λ x, Qred (1 - x * x / 2 + x * x * x * x / 24
                       - x * x * x * x * x * x / 720)%Q;
  np_sin := λ x, Qred (x - x * x * x / 6 + x * x * x * x * x / 120
                       - x * x * x * x * x * x * x / 5040)%Q;
|}.

(** Gene 0 has a molecule on each of the nine grid points of a 3 x 3
    extent and two more above the centre; gene 1 is known but has no
    molecule. *)
Definition example_points : list point :=
  [(0, 0); (1.5, 0); (3, 0); (0, 1.5); (1.5, 1.5); (3, 1.5);
   (0, 3); (1.5, 3); (3, 3); (1.5, 2); (1.2, 2.1)]%Q.

Definition example_dataset : Dataset := {|
  gene := nat;
  norm_mode := unit;
  x_extent := 3; y_extent := 3;
  x_min := 0; x_max := 3; y_min := 0; y_max := 3;
  unique_genes := [0%nat];
  get_gene := λ g, match g with
                   | 0%nat => Ok example_points
                   | 1%nat => Ok []
                   | _ => Raise ValueError
                   end;
  normalize := λ m _, Ok ((λ row : list Z, inject_Z <$> row) <$> m);
|}.

(** A texture library whose denoiser is the identity and whose descriptor
    is not-a-number on zero pixels. *)
Definition example_texture : TextureLib := {|
  estimate_sigma := λ _, 1%Q;
  denoise_nl_means := λ img _ _ _ _, img;
  local_binary_pattern := λ img _ _,
    (λ row : list Q, (λ x, if Qeq_bool x 0 then NaN else Fin x) <$> row) <$> img;
|}.

(** ** [Boundaries.boundaries_LBP_make] *)

(** [squarebin.shape[-1]] of a (rows x columns x genes) array with at
    least one pixel. *)
Definition n_channels {A} (a : list (list (list A))) : nat :=
  match a with
  | (cell :: _) :: _ => length cell
  | _ => 0%nat
  end.

(** [squarebin[:, :, i]]. *)
Definition channel {A} (a : list (list (list A))) (i : nat) : result (list (list A)) :=
  mapM (mapM (λ cell : list A,
                match cell !! i with Some x => Ok x | None => Raise IndexError end)) a.

(** [np.stack(arrays, axis=2)] of 2-d arrays: at least one array, all of
    one shape; cell [(r, c)] of the result lists the cells [(r, c)] of the
    arrays, in their order. *)
Definition stack_axis2 {A} (arrays : list (list (list A)))
  : result (list (list (list A))) :=
  match arrays with
  | [] => Raise ValueError
  | first :: rest =>
      if decide (Forall (λ a, same_shape a first) rest)
      then Ok (imap (λ r row, imap (λ c (_ : A), omap (λ a, lookup2 a r c) arrays) row)
                    first)
      else Raise ValueError
  end.

Definition boundaries_LBP_make `{TextureLib} (squarebin : list (list (list Q)))
    (mask : list (list bool)) (h_factor patch_size patch_distance n_points : Z)
    (radius : Q) : result (list (list (list xfloat))) :=
  let n_genes := n_channels squarebin in
  LBP_results ← mapM (λ i,
                        img ← channel squarebin i;
                        _LBP_worker img mask h_factor patch_size patch_distance
                                    n_points radius)
                     (seq 0 n_genes);
  stack_axis2 LBP_results.

(** ** [Boundaries_Multi] *)

(** A member of [self.datasets], as the multi-dataset methods use it: a
    name and the two bound methods that they call. *)
Record dataset_object (G M : Type) := {
  dataset_name : string;
  d_boundaries_make :
    Q → Q → Z → bool → M → option (list G) → result borders;
  d_boundaries_LBP_make :
    list (list (list Q)) → list (list bool) → Z → Z → Z → Z → Q →
    result (list (list (list xfloat)));
}.
Arguments dataset_name {G M} _.
Arguments d_boundaries_make {G M} _.
Arguments d_boundaries_LBP_make {G M} _.

(** The dictionary of the six named values of a dataset is the record
    [borders]; the outer dictionary is keyed by the dataset names.  The
    empty entry that the loop stores before the call is overwritten when
    the call returns and lost with the dictionary when it raises. *)
Definition boundaries_make_multi {G M} (datasets : list (dataset_object G M))
    (bin_size radius : Q) (n_angles : Z) (normalize_counts : bool)
    (normalization_mode : M) (gene_selection : option (list G))
  : result (gmap string borders) :=
  foldM (λ (results : gmap string borders) d,
           r ← d_boundaries_make d bin_size radius n_angles normalize_counts
                                 normalization_mode gene_selection;
           Ok (<[dataset_name d := r]> results))
        ∅ datasets.

(** [zip(a, b, c)]: stops with the shortest argument. *)
Definition zip3 {A B C} (a : list A) (b : list B) (c : list C) : list (A * B * C) :=
  zip (zip a b) c.

Definition boundaries_LBP_make_multi {G M} (datasets : list (dataset_object G M))
    (squarebin : list (list (list (list Q)))) (masks : list (list (list bool)))
    (h_factor patch_size patch_distance n_points : Z) (radius : Q)
  : result (list (list (list (list xfloat)))) :=
  mapM (λ '(dd, img, mask),
          d_boundaries_LBP_make dd img mask h_factor patch_size patch_distance
                                n_points radius)
       (zip3 datasets squarebin masks).

(** The dataset objects of single datasets. *)
Definition as_dataset_object `{FloatLib} `{TextureLib} (name : string) (D : Dataset)
  : dataset_object (@gene D) (@norm_mode D) := {|
  dataset_name := name;
  d_boundaries_make := @boundaries_make _ D;
  d_boundaries_LBP_make := boundaries_LBP_make;
|}.

(** ** Further concrete instances *)

(** A 2 x 2 image with two channels. *)
Definition example_image3 : list (list (list Q)) :=
  [[[1; 5]; [0; 6]]; [[2; 7]; [3; 0]]]%Q.

(** ** Further notions that the properties are stated with *)

(** A rectangular 2-d array of [rows] rows and [cols] columns. *)
Definition has_shape {A} (m : list (list A)) (rows cols : nat) : Prop :=
  length m = rows ∧ Forall (λ row, length row = cols) m.

(** A 2 x 2 mask with one pixel outside. *)
Definition example_mask : list (list bool) := [[true; true]; [false; true]].

(** Two dataset objects over the nine-point dataset. *)
Definition example_datasets
  : list (dataset_object (@gene example_dataset) (@norm_mode example_dataset)) :=
  [@as_dataset_object approx_float example_texture "first"%string example_dataset;
   @as_dataset_object approx_float example_texture "second"%string example_dataset].

(** * Auxiliary lemmas *)

(** ** The grid builder *)

Lemma linspace_length start stop num l :
  linspace start stop num = Ok l → length l = Z.to_nat num ∧ (0 ≤ num)%Z.
Proof.
  unfold linspace. destruct (Z.ltb_spec num 0); [discriminate|].
  intros [= <-]. split; [|done].
  destruct (1 <? num)%Z, (0 <? num - 1)%Z; unfold set_last;
    rewrite ?length_insert, !length_fmap, length_seqZ; done.
Qed.

Lemma linspace_lookup start stop num l (k : nat) v :
  linspace start stop num = Ok l → (2 ≤ num)%Z → l !! k = Some v →
  (v == start + inject_Z (Z.of_nat k) * ((stop - start) / inject_Z (num - 1)))%Q.
Proof.
  unfold linspace. destruct (Z.ltb_spec num 0); [discriminate|].
  intros [= <-] Hnum.
  destruct (Z.ltb_spec 1 num); [|lia]. destruct (Z.ltb_spec 0 (num - 1)); [|lia].
  unfold set_last. rewrite !length_fmap, length_seqZ.
  assert (inject_Z (num - 1) > 0)%Q as Hpos.
  { change 0%Q with (inject_Z 0). rewrite <- Zlt_Qlt. lia. }
  destruct (decide (k = pred (Z.to_nat num))) as [->|Hk].
  - rewrite list_lookup_insert_eq by (rewrite !length_fmap, length_seqZ; lia).
    intros [= <-].
    replace (Z.of_nat (pred (Z.to_nat num))) with (num - 1)%Z by lia.
    field. lra.
  - rewrite list_lookup_insert_ne by done.
    rewrite !list_lookup_fmap. intros Hv.
    destruct (seqZ 0 num !! k) as [z|] eqn:Hz; [|discriminate].
    apply lookup_seqZ in Hz as [-> _]. simpl in Hv.
    injection Hv as <-. rewrite Z.add_0_l. ring.
Qed.

(** Consecutive samples of [linspace] are [(stop - start) / (num - 1)]
    apart: [num] samples leave [num - 1] intervals. *)
Lemma linspace_step start stop num l (k : nat) a b :
  linspace start stop num = Ok l →
  l !! k = Some a → l !! S k = Some b →
  (b - a == (stop - start) / inject_Z (num - 1))%Q ∧ (2 ≤ num)%Z.
Proof.
  intros Hl Ha Hb.
  destruct (linspace_length _ _ _ _ Hl) as [Hlen _].
  apply lookup_lt_Some in Hb as Hlt.
  assert (2 ≤ num)%Z as Hnum by lia. split; [|done].
  rewrite (linspace_lookup _ _ _ _ _ _ Hl Hnum Ha).
  rewrite (linspace_lookup _ _ _ _ _ _ Hl Hnum Hb).
  rewrite Nat2Z.inj_succ. unfold Z.succ. rewrite inject_Z_plus.
  assert (inject_Z (num - 1) > 0)%Q.
  { change 0%Q with (inject_Z 0). rewrite <- Zlt_Qlt. lia. }
  field. lra.
Qed.

Lemma py_div_Ok a b q : py_div a b = Ok q → ¬ (b == 0)%Q ∧ q = (a / b)%Q.
Proof.
  unfold py_div. destruct (Qeq_bool b 0) eqn:Hb; [discriminate|].
  intros [= <-]. split; [|done]. by apply Qeq_bool_neq.
Qed.

Lemma square_grid_inv bin_size x_extent y_extent x_min x_max y_min y_max grid Xi Yi :
  square_grid bin_size x_extent y_extent x_min x_max y_min y_max = Ok (grid, Xi, Yi) →
  let nx := math_ceil (x_extent / bin_size) in
  let ny := math_ceil (y_extent / bin_size) in
  let d_x := (inject_Z nx * bin_size - x_extent)%Q in
  let d_y := (inject_Z ny * bin_size - y_extent)%Q in
  ¬ (bin_size == 0)%Q ∧
  ∃ xi yi,
    linspace (x_min - (1#2) * d_x)%Q (x_max + (1#2) * d_x)%Q nx = Ok xi ∧
    linspace (y_min - (1#2) * d_y)%Q (y_max + (1#2) * d_y)%Q ny = Ok yi ∧
    Xi = ((λ _, xi) <$> yi) ∧
    Yi = ((λ y, (λ _, y) <$> xi) <$> yi) ∧
    grid = column_stack (ravel Xi) (ravel Yi).
Proof.
  unfold square_grid. intros H.
  destruct (py_div x_extent bin_size) as [qx|] eqn:Hqx; [|discriminate].
  apply py_div_Ok in Hqx as [Hb ->]. simpl in H.
  destruct (linspace _ _ (math_ceil (x_extent / bin_size))) as [xi|] eqn:Hxi;
    [|discriminate]. simpl in H.
  destruct (py_div y_extent bin_size) as [qy|] eqn:Hqy; [|discriminate].
  apply py_div_Ok in Hqy as [_ ->]. simpl in H.
  destruct (linspace _ _ (math_ceil (y_extent / bin_size))) as [yi|] eqn:Hyi;
    [|discriminate]. simpl in H.
  injection H as <- <- <-. split; [done|]. by exists xi, yi.
Qed.

Lemma stretched_step (n : Z) (bin lo hi ext : Q) :
  (2 ≤ n)%Z → (0 < bin)%Q → (ext == hi - lo)%Q →
  let d := (inject_Z n * bin - ext)%Q in
  let step := ((hi + (1#2) * d - (lo - (1#2) * d)) / inject_Z (n - 1))%Q in
  (step == inject_Z n * bin / inject_Z (n - 1))%Q ∧ (bin < step)%Q.
Proof.
  intros Hn Hbin Hext d step.
  assert (0 < inject_Z (n - 1))%Q as Hpos.
  { change 0%Q with (inject_Z 0). rewrite <- Zlt_Qlt. lia. }
  assert (inject_Z n == inject_Z (n - 1) + 1)%Q as Hn1.
  { replace n with (n - 1 + 1)%Z at 1 by lia. by rewrite inject_Z_plus. }
  assert (step == inject_Z n * bin / inject_Z (n - 1))%Q as Hstep.
  { unfold step, d. rewrite Hext. field. lra. }
  split; [done|]. rewrite Hstep.
  assert (inject_Z n * bin / inject_Z (n - 1) == bin + bin / inject_Z (n - 1))%Q
    as -> by (rewrite Hn1; field; lra).
  assert (0 < bin / inject_Z (n - 1))%Q; [|lra].
  apply Qlt_shift_div_l; lra.
Qed.

(** ** The result monad and loops *)

Lemma bind_Ok {A B} (m : result A) (f : A → result B) b :
  m ≫= f = Ok b ↔ ∃ a, m = Ok a ∧ f a = Ok b.
Proof.
  destruct m as [a|e]; simpl; split.
  - eauto.
  - by intros (? & [= <-] & ?).
  - done.
  - by intros (? & ? & ?).
Qed.

Lemma Ok_bind {A B} (a : A) (f : A → result B) : Ok a ≫= f = f a.
Proof. done. Qed.

Lemma foldM_cons {A S} (f : S → A → result S) s x l :
  foldM f s (x :: l) = f s x ≫= λ s', foldM f s' l.
Proof. done. Qed.

Lemma setitem1_Ok {A} (a : list A) j v :
  (j < length a)%nat → setitem1 a j v = Ok (<[j := v]> a).
Proof. intros. unfold setitem1. by rewrite decide_True. Qed.

Lemma foldM_ext {A S} (f g : S → A → result S) s l :
  (∀ s x, x ∈ l → f s x = g s x) → foldM f s l = foldM g s l.
Proof.
  revert s. induction l as [|x l IH]; intros s Hfg; [done|]. simpl.
  rewrite Hfg by left. destruct (g s x); [|done]. simpl.
  apply IH. intros. apply Hfg. by right.
Qed.

Lemma mapM_Ok_fmap {A B} (f : A → result B) (g : A → B) (l : list A) :
  (∀ x, x ∈ l → f x = Ok (g x)) → mapM f l = Ok (g <$> l).
Proof.
  induction l as [|x l IH]; intros Hf; [done|]. simpl.
  rewrite Hf by left. simpl. rewrite IH; [done|].
  intros. apply Hf. by right.
Qed.

(** A loop that stores [f j] in cell [j] for [j] in [start, start + len). *)
Lemma foldM_fill {A} (F : nat → result A) (f : nat → A) (n len : nat) :
  ∀ start (a : list A),
    length a = n → (start + len ≤ n)%nat →
    (∀ j, (start ≤ j < start + len)%nat → F j = Ok (f j)) →
    ∃ a', foldM (λ a j, d ← F j; setitem1 a j d) a (seq start len) = Ok a' ∧
          length a' = n ∧
          ∀ j, a' !! j = if decide (start ≤ j < start + len)%nat
                         then Some (f j) else a !! j.
Proof.
  induction len as [|len IH]; intros start a Hlen Hle HF.
  - exists a. simpl. split_and!; [done..|].
    intros j. case_decide; [lia|done].
  - rewrite <- cons_seq, foldM_cons, HF, Ok_bind, setitem1_Ok, Ok_bind by lia.
    destruct (IH (S start) (<[start := f start]> a)) as (a' & Hfold & Hlen' & Hlook).
    { by rewrite length_insert. }
    { lia. }
    { intros. apply HF. lia. }
    exists a'. split_and!; [done..|].
    intros j. rewrite Hlook.
    destruct (decide (j = start)) as [->|Hne].
    + rewrite decide_False by lia. rewrite decide_True by lia.
      apply list_lookup_insert_eq. lia.
    + rewrite list_lookup_insert_ne by done.
      repeat case_decide; try done; lia.
Qed.

(** ** [_worker_angle]: maximum and first index of the maximum *)

Lemma Qltb_true a b : Qltb a b = true ↔ (a < b)%Q.
Proof.
  unfold Qltb. rewrite negb_true_iff. split.
  - intros Hf. apply Qnot_le_lt. intros Hle.
    apply Qle_bool_iff in Hle. congruence.
  - intros Hlt. destruct (Qle_bool b a) eqn:E; [|done].
    apply Qle_bool_iff in E. by apply Qle_not_lt in E.
Qed.

Lemma Qltb_false a b : Qltb a b = false ↔ (b <= a)%Q.
Proof.
  unfold Qltb. rewrite negb_false_iff. apply Qle_bool_iff.
Qed.

Lemma max_argmax_loop (ip pre : list Q) :
  ∀ mp max_ind,
    first_max pre mp max_ind →
    first_max (pre ++ ip) (max_loop mp ip) (argmax_loop mp max_ind (length pre) ip).
Proof.
  revert pre. induction ip as [|y ip IH]; intros pre mp max_ind Hpre.
  - simpl. by rewrite app_nil_r.
  - simpl. rewrite (cons_middle y pre ip), app_assoc.
    replace (S (length pre)) with (length (pre ++ [y]))
      by (rewrite length_app; simpl; lia).
    destruct Hpre as (Hk & Hle & Hlt).
    apply lookup_lt_Some in Hk as Hklt.
    destruct (Qltb mp y) eqn:Hcmp; apply IH.
    + apply Qltb_true in Hcmp. split_and!.
      * rewrite lookup_app_r by lia. by rewrite Nat.sub_diag.
      * intros j z Hz. apply lookup_app_Some in Hz as [Hz|[_ Hz]].
        -- apply Hle in Hz. lra.
        -- apply list_lookup_singleton_Some in Hz as [_ <-]. lra.
      * intros j z Hj Hz.
        rewrite lookup_app_l in Hz by lia. apply Hle in Hz. lra.
    + apply Qltb_false in Hcmp. split_and!.
      * by rewrite lookup_app_l.
      * intros j z Hz. apply lookup_app_Some in Hz as [Hz|[_ Hz]].
        -- by eapply Hle.
        -- by apply list_lookup_singleton_Some in Hz as [_ <-].
      * intros j z Hj Hz. rewrite lookup_app_l in Hz by lia. by eapply Hlt.
Qed.

Lemma np_max_argmax (a : list Q) :
  a ≠ [] → ∃ m k, np_max a = Ok m ∧ np_argmax a = Ok k ∧ first_max a m k.
Proof.
  destruct a as [|x a]; [done|]. intros _.
  exists (max_loop x a), (argmax_loop x 0 1 a). split_and!; [done..|].
  apply (max_argmax_loop a [x] x 0%nat). split_and!.
  - done.
  - intros j y Hy. apply list_lookup_singleton_Some in Hy as [_ <-]. lra.
  - intros j y Hj. lia.
Qed.

Lemma column_Ok (d : list (list Q)) (j : nat) :
  Forall (λ row, j < length row)%nat d →
  column d j = Ok ((λ row : list Q, default 0%Q (row !! j)) <$> d).
Proof.
  intros Hd. unfold column. apply mapM_Ok_fmap. intros row Hrow.
  rewrite Forall_forall in Hd. apply Hd in Hrow.
  destruct (lookup_lt_is_Some_2 _ _ Hrow) as [x ->]. done.
Qed.

Lemma worker_angle_column_distance `{FloatLib} (d1 d2 : list (list Q)) (j : nat) :
  length d1 = length d2 →
  Forall (λ row, j < length row)%nat d1 →
  Forall (λ row, j < length row)%nat d2 →
  (column d1 j ≫= λ u, column d2 j ≫= λ v, euclidean u v)
  = Ok (angle_distance d1 d2 j).
Proof.
  intros Hlen H1 H2. rewrite !column_Ok, !Ok_bind by done.
  unfold euclidean. rewrite decide_True by (by rewrite !length_fmap).
  unfold angle_distance. by rewrite zip_with_fmap_l, zip_with_fmap_r.
Qed.

(** ** [_worker_bisect]: the loops as a map over the grid points *)

Lemma iloc_query_radius (points : list point) (g : point) (radius : Q) :
  ∀ pre,
    (λ k, (pre ++ points) !! k) <$>
      filter (λ i, from_option (within radius g) false ((pre ++ points) !! i) = true)
             (seq (length pre) (length points))
    = Some <$> in_radius points g radius.
Proof.
  unfold in_radius. induction points as [|p points IH]; intros pre; [done|].
  simpl. rewrite filter_cons, (filter_cons _ p).
  rewrite list_lookup_middle by done. simpl.
  specialize (IH (pre ++ [p])).
  rewrite <- app_assoc, length_app in IH. simpl in IH.
  rewrite Nat.add_1_r in IH.
  destruct (decide (within radius g p = true)).
  - rewrite !fmap_cons, list_lookup_middle by done. by rewrite IH.
  - done.
Qed.

Lemma omap_fmap_Some {A B} (f : A → option B) (l : list A) (l' : list B) :
  f <$> l = Some <$> l' → omap f l = l' ∧ length l = length l'.
Proof.
  revert l'. induction l as [|x l IH]; intros [|y l'] Heq; try done.
  rewrite !fmap_cons in Heq. injection Heq as Hx Hl.
  destruct (IH _ Hl) as [IH1 IH2]. cbn. rewrite Hx, IH1, IH2. done.
Qed.

Lemma query_radius_Ok (points grid : list point) (radius : Q) index :
  query_radius points grid radius = Ok index →
  grid ≠ [] ∧
  index = (λ g, filter (λ i, from_option (within radius g) false (points !! i) = true)
                       (seq 0 (length points))) <$> grid.
Proof. unfold query_radius. destruct grid; [done|]. by intros [= <-]. Qed.

Lemma query_radius_is_Ok (points grid : list point) (radius : Q) :
  grid ≠ [] → is_Ok (query_radius points grid radius).
Proof. unfold query_radius. destruct grid; [done|]. by eexists. Qed.

Lemma query_radius_coords (points grid : list point) (radius : Q) index :
  query_radius points grid radius = Ok index →
  (λ i, iloc points i) <$> index = (λ g, in_radius points g radius) <$> grid.
Proof.
  intros [_ ->]%query_radius_Ok. rewrite <- list_fmap_compose.
  apply list_fmap_ext. intros _ g _. simpl. unfold iloc.
  by destruct (omap_fmap_Some _ _ _ (iloc_query_radius points g radius [])).
Qed.

Lemma query_radius_count (points grid : list point) (radius : Q) index :
  query_radius points grid radius = Ok index →
  (λ i : list nat, Z.of_nat (length i)) <$> index
  = (λ g, Z.of_nat (length (in_radius points g radius))) <$> grid.
Proof.
  intros [_ ->]%query_radius_Ok. rewrite <- list_fmap_compose.
  apply list_fmap_ext. intros _ g _. simpl.
  destruct (omap_fmap_Some _ _ _ (iloc_query_radius points g radius [])) as [_ Hlen].
  f_equal. exact Hlen.
Qed.

Lemma setitem2_Ok {A} (a : list (list A)) i j v row :
  a !! i = Some row → (j < length row)%nat →
  setitem2 a i j v = Ok (<[i := <[j := v]> row]> a).
Proof. intros Hi Hj. unfold setitem2. by rewrite Hi, decide_True. Qed.

Lemma setitem2_IndexError {A} (a : list (list A)) i j v row :
  a !! i = Some row → (length row ≤ j)%nat →
  setitem2 a i j v = Raise IndexError.
Proof. intros Hi Hj. unfold setitem2. rewrite Hi, decide_False; [done|lia]. Qed.

Lemma insert_middle {A} (l1 l2 : list A) (x y : A) :
  <[length l1 := x]> (l1 ++ y :: l2) = l1 ++ x :: l2.
Proof.
  replace (length l1) with (length l1 + 0)%nat by lia.
  by rewrite insert_app_r.
Qed.

(** The inner loop over the lines, started on a row whose first cells are
    already written. *)
Lemma fill_row_loop {A} (F : line → A) (zero : A) (i : nat) (lines : list line) :
  ∀ (written : list A) (m : nat) (a : list (list A)),
    a !! i = Some (written ++ replicate m zero) →
    foldM (λ a '(j, l), setitem2 a i j (F l)) a
          (imap (λ j l, (length written + j, l)%nat) lines)
    = if decide (length lines ≤ m)%nat
      then Ok (<[i := written ++ (F <$> lines) ++ replicate (m - length lines) zero]> a)
      else Raise IndexError.
Proof.
  induction lines as [|l lines IH]; intros written m a Ha.
  - rewrite decide_True by (simpl; lia). simpl. rewrite Nat.sub_0_r.
    by rewrite list_insert_id.
  - rewrite imap_cons, foldM_cons. rewrite Nat.add_0_r.
    destruct m as [|m].
    + rewrite (setitem2_IndexError _ _ _ _ _ Ha)
        by (rewrite length_app; simpl; lia).
      rewrite decide_False by (simpl; lia). done.
    + rewrite (setitem2_Ok _ _ _ _ _ Ha) by (rewrite length_app; simpl; lia).
      rewrite Ok_bind. simpl replicate.
      rewrite insert_middle.
      rewrite (imap_ext _ (λ j l', (length (written ++ [F l]) + j, l')%nat)).
      2:{ intros j l' _. simpl. rewrite length_app. simpl. f_equal. lia. }
      rewrite (IH (written ++ [F l]) m).
      2:{ rewrite list_lookup_insert_eq by (by eapply lookup_lt_Some).
          by rewrite (cons_middle (F l)), app_assoc. }
      destruct (decide (length lines ≤ m)%nat).
      * rewrite decide_True by (simpl; lia). rewrite list_insert_insert_eq.
        simpl. by rewrite <- app_assoc.
      * rewrite decide_False by (simpl; lia). done.
Qed.

Lemma fill_row_enumerate {A} (F : line → A) (zero : A) (i : nat) (lines : list line)
    (m : nat) (a : list (list A)) :
  a !! i = Some (replicate m zero) →
  foldM (λ a '(j, l), setitem2 a i j (F l)) a (enumerate lines)
  = if decide (length lines ≤ m)%nat
    then Ok (<[i := (F <$> lines) ++ replicate (m - length lines) zero]> a)
    else Raise IndexError.
Proof. exact (fill_row_loop F zero i lines [] m a). Qed.

Lemma mapM_cons {A B} (f : A → result B) x l :
  mapM f (x :: l) = f x ≫= λ y, mapM f l ≫= λ k, Ok (y :: k).
Proof. done. Qed.

Lemma mapM_fmap {A B C} (f : B → result C) (g : A → B) (l : list A) :
  mapM f (g <$> l) = mapM (λ x, f (g x)) l.
Proof.
  induction l as [|x l IH]; [done|].
  rewrite fmap_cons, !mapM_cons, IH. done.
Qed.

Lemma mapM_ext {A B} (f g : A → result B) (l : list A) :
  (∀ x, x ∈ l → f x = g x) → mapM f l = mapM g l.
Proof.
  induction l as [|x l IH]; intros Hfg; [done|].
  rewrite !mapM_cons, Hfg, IH; [done| |by left].
  intros. apply Hfg. by right.
Qed.

(** The outer loop over the grid points, started when the rows [done] are
    final and the remaining rows are still zero. *)
Lemma fill_rows_loop (lines : list line) (n : nat) (F : list point → point → line → Z)
    (rest : list (list point * point)) :
  ∀ done : list (list Z),
    foldM (λ a '(i, (c, g)),
             if decide (0 < length c)%nat then
               let cc := (λ p, psub p g) <$> c in
               foldM (λ a '(j, l), setitem2 a i j (F cc g l)) a (enumerate lines)
             else Ok a)
          (done ++ replicate (length rest) (replicate n 0%Z))
          (imap (λ j cg, (length done + j, cg)%nat) rest)
    = mapM (λ '(c, g),
              if decide (0 < length c)%nat then
                if decide (length lines ≤ n)%nat
                then Ok ((F ((λ p, psub p g) <$> c) g <$> lines)
                         ++ replicate (n - length lines) 0%Z)
                else Raise IndexError
              else Ok (replicate n 0%Z)) rest
      ≫= λ rows, Ok (done ++ rows).
Proof.
  induction rest as [|[c g] rest IH]; intros done.
  - simpl. by rewrite !app_nil_r.
  - rewrite imap_cons, foldM_cons, mapM_cons, Nat.add_0_r.
    cbn [length replicate].
    assert (∀ row,
      foldM (λ a '(i, (c, g)),
               if decide (0 < length c)%nat then
                 let cc := (λ p, psub p g) <$> c in
                 foldM (λ a '(j, l), setitem2 a i j (F cc g l)) a (enumerate lines)
               else Ok a)
            (done ++ row :: replicate (length rest) (replicate n 0%Z))
            (imap ((λ j cg, (length done + j, cg)%nat) ∘ S) rest)
      = mapM (λ '(c, g),
                if decide (0 < length c)%nat then
                  if decide (length lines ≤ n)%nat
                  then Ok ((F ((λ p, psub p g) <$> c) g <$> lines)
                           ++ replicate (n - length lines) 0%Z)
                  else Raise IndexError
                else Ok (replicate n 0%Z)) rest
        ≫= λ rows, Ok (done ++ row :: rows)) as Hnext.
    { intros row. specialize (IH (done ++ [row])).
      rewrite <- app_assoc in IH. cbn [app] in IH.
      rewrite (imap_ext _ (λ j cg, (length (done ++ [row]) + j, cg)%nat)).
      2:{ intros j cg _. simpl. rewrite length_app. simpl. f_equal. lia. }
      etrans; [exact IH|]. destruct (mapM _ rest); [|done]. simpl.
      by rewrite <- app_assoc. }
    destruct (decide (0 < length c)%nat).
    + cbv zeta.
      rewrite (fill_row_enumerate (F ((λ p, psub p g) <$> c) g) 0%Z (length done)
                 lines n) by (by rewrite list_lookup_middle).
      destruct (decide (length lines ≤ n)%nat); [|done].
      rewrite !Ok_bind, insert_middle.
      etrans; [apply Hnext|]. by destruct (mapM _ rest).
    + rewrite !Ok_bind.
      etrans; [apply Hnext|]. by destruct (mapM _ rest).
Qed.

Lemma zip_fmap_diag {A B} (f : A → B) (l : list A) :
  zip (f <$> l) l = (λ x, (f x, x)) <$> l.
Proof. induction l as [|x l IH]; [done|]. simpl. f_equal. exact IH. Qed.

(** The spatial index and the query reject empty arrays. *)
Lemma worker_bisect_empty points grid radius lines n_angles :
  points = [] ∨ grid = [] →
  _worker_bisect points grid radius lines n_angles = Raise ValueError.
Proof.
  unfold _worker_bisect. destruct points as [|p points]; [done|].
  by intros [?| ->].
Qed.

(** The counting worker on a non-empty point set and a non-empty grid:
    the total counts are the numbers of points in the radius, and the
    above-count matrix is built row by row as [angle_counts_row] says. *)
Lemma worker_bisect_unfold points grid radius lines n_angles :
  points ≠ [] → grid ≠ [] →
  _worker_bisect points grid radius lines n_angles =
    if (n_angles <? 0)%Z then Raise ValueError
    else mapM (angle_counts_row points radius lines n_angles) grid ≫= λ rows,
         Ok (rows, (λ g, Z.of_nat (length (in_radius points g radius))) <$> grid).
Proof.
  intros Hne Hgrid. unfold _worker_bisect, np_zeros2.
  assert (KDTree points = Ok points) as -> by (by destruct points).
  rewrite Ok_bind.
  destruct (query_radius_is_Ok points grid radius Hgrid) as [index Hindex].
  rewrite Hindex, Ok_bind.
  destruct (n_angles <? 0)%Z; [done|]. rewrite Ok_bind.
  rewrite (query_radius_coords _ _ _ _ Hindex), (query_radius_count _ _ _ _ Hindex),
    zip_fmap_diag.
  pose proof (fill_rows_loop lines (Z.to_nat n_angles)
    (λ cc _ l, to_int32 (np_sum_bool (isabove cc l)))
    ((λ g, (in_radius points g radius, g)) <$> grid) []) as Hloop.
  rewrite length_fmap in Hloop. simpl in Hloop.
  unfold enumerate at 2. etrans.
  { apply (f_equal (λ m, m ≫= _)). exact Hloop. }
  rewrite mapM_fmap.
  rewrite (mapM_ext _ (angle_counts_row points radius lines n_angles)).
  2:{ intros g _. unfold angle_counts_row, count_above. done. }
  by destruct (mapM _ grid).
Qed.

(** What a returning worker went through. *)
Lemma worker_bisect_Ok points grid radius lines n_angles angle_counts count :
  _worker_bisect points grid radius lines n_angles = Ok (angle_counts, count) →
  points ≠ [] ∧ grid ≠ [] ∧ (0 ≤ n_angles)%Z ∧
  mapM (angle_counts_row points radius lines n_angles) grid = Ok angle_counts ∧
  count = (λ g, Z.of_nat (length (in_radius points g radius))) <$> grid.
Proof.
  intros Hw.
  destruct (decide (points = [])) as [->|Hne].
  { by rewrite worker_bisect_empty in Hw by by left. }
  destruct (decide (grid = [])) as [->|Hgrid].
  { by rewrite worker_bisect_empty in Hw by by right. }
  rewrite worker_bisect_unfold in Hw by done.
  destruct (Z.ltb_spec n_angles 0); [done|].
  apply bind_Ok in Hw as (rows & Hrows & [= <- <-]).
  done.
Qed.

Lemma mapM_Ok_lookup {A B} (f : A → result B) (l : list A) (k : list B) :
  mapM f l = Ok k →
  length k = length l ∧
  ∀ i y, k !! i = Some y → ∃ x, l !! i = Some x ∧ f x = Ok y.
Proof.
  revert k. induction l as [|x l IH]; intros k.
  - intros [= <-]. split; [done|]. intros i y Hy. done.
  - rewrite mapM_cons. intros Hk.
    apply bind_Ok in Hk as (y & Hy & Hk).
    apply bind_Ok in Hk as (k' & Hk' & [= <-]).
    destruct (IH _ Hk') as [Hlen Hlook]. split; [simpl; by rewrite Hlen|].
    intros [|i] z Hz.
    + injection Hz as <-. by exists x.
    + by apply Hlook.
Qed.

Lemma mapM_is_Ok {A B} (f : A → result B) (l : list A) :
  (∀ x, x ∈ l → is_Ok (f x)) → is_Ok (mapM f l).
Proof.
  induction l as [|x l IH]; intros Hf; [by eexists|].
  rewrite mapM_cons. destruct (Hf x) as [y ->]; [by left|].
  destruct IH as [k ->]; [intros; apply Hf; by right|]. by eexists.
Qed.

Lemma mapM_raises {A B} (f : A → result B) (l : list A) x :
  x ∈ l → raises (f x) → raises (mapM f l).
Proof.
  intros Hx [e He]. induction l as [|y l IH]; [by apply elem_of_nil in Hx|].
  rewrite mapM_cons. apply elem_of_cons in Hx as [<-|Hx].
  - rewrite He. by eexists.
  - destruct (f y); [|by eexists]. simpl.
    destruct (IH Hx) as [e' ->]. by eexists.
Qed.

Lemma query_radius_lookup points grid radius index i idx :
  query_radius points grid radius = Ok index →
  index !! i = Some idx →
  ∃ g, grid !! i = Some g ∧ length idx = length (in_radius points g radius).
Proof.
  intros [_ ->]%query_radius_Ok. rewrite list_lookup_fmap. intros Hi.
  destruct (grid !! i) as [g|]; [|done]. injection Hi as <-.
  exists g. split; [done|].
  by destruct (omap_fmap_Some _ _ _ (iloc_query_radius points g radius [])).
Qed.

Lemma to_int32_small z : (0 ≤ z < 2 ^ 31)%Z → to_int32 z = z.
Proof. intros Hz. unfold to_int32. rewrite Z.mod_small; lia. Qed.

Lemma count_above_bounds points g radius l :
  (0 ≤ count_above points g radius l ≤ Z.of_nat (length (in_radius points g radius)))%Z ∧
  (length (in_radius points g radius) ≤ length points)%nat.
Proof.
  unfold count_above, np_sum_bool, isabove. split; [split; [lia|]|].
  - apply inj_le. etrans; [apply length_filter|].
    by rewrite !length_fmap.
  - apply length_filter.
Qed.

Lemma filter_replicate_True {A} (P : A → Prop) `{!∀ x, Decision (P x)} (n : nat) (x : A) :
  P x → filter P (replicate n x) = replicate n x.
Proof.
  intros HP. induction n as [|n IH]; [done|].
  simpl. rewrite filter_cons, decide_True by done. by rewrite IH.
Qed.

(** The worker on [n] copies of one point that lies within the radius of
    the only grid point and above the only line. *)
Lemma worker_bisect_replicate (n : nat) (p g : point) (radius : Q) (l : line) :
  (0 < n)%nat →
  within radius g p = true →
  isabove [psub p g] l = [true] →
  _worker_bisect (replicate n p) [g] radius [l] 1
  = Ok ([[to_int32 (Z.of_nat n)]], [Z.of_nat n]).
Proof.
  intros Hn Hin Habove.
  rewrite worker_bisect_unfold; [|destruct n; [lia|done]|done].
  change (1 <? 0)%Z with false. cbv iota.
  assert (in_radius (replicate n p) g radius = replicate n p) as Hrad.
  { unfold in_radius. by apply filter_replicate_True. }
  assert (angle_counts_row (replicate n p) radius [l] 1 g
          = Ok [to_int32 (Z.of_nat n)]) as Hrow.
  { unfold angle_counts_row, count_above. rewrite Hrad.
    rewrite length_replicate, decide_True by done.
    rewrite decide_True by (change (Z.to_nat 1) with 1%nat; simpl; lia).
    unfold isabove in *. rewrite fmap_replicate.
    injection Habove as Habove. simpl. rewrite fmap_replicate.
    simpl in Habove. rewrite Habove.
    unfold np_sum_bool. rewrite filter_replicate_True by done.
    rewrite length_replicate. done. }
  rewrite mapM_cons, Hrow, Ok_bind. cbn [mapM mret result_ret].
  rewrite !Ok_bind. cbn [fmap list_fmap]. rewrite Hrad, length_replicate.
  done.
Qed.

(** ** The validity mask *)

Lemma get2_erode_step m r c :
  get2 (erode_step m) r c =
    get2 m r c
    && match r with O => false | S r' => get2 m r' c end
    && get2 m (S r) c
    && match c with O => false | S c' => get2 m r c' end
    && get2 m r (S c).
Proof.
  unfold erode_step. unfold get2 at 1.
  rewrite list_lookup_imap.
  assert (get2 m r c = default false (m !! r ≫= λ row, row !! c)) as -> by done.
  destruct (m !! r) as [row|]; [|done]. simpl.
  rewrite list_lookup_imap.
  destruct (row !! c) as [x|]; [|done]. done.
Qed.

Lemma getZ_nonneg m r c :
  (0 ≤ r)%Z → (0 ≤ c)%Z → getZ m r c = get2 m (Z.to_nat r) (Z.to_nat c).
Proof.
  intros Hr Hc. unfold getZ.
  destruct (Z.ltb_spec r 0); [lia|]. destruct (Z.ltb_spec c 0); [lia|]. done.
Qed.

Lemma getZ_neg m r c : (r < 0 ∨ c < 0)%Z → getZ m r c = false.
Proof.
  intros Hrc. unfold getZ.
  destruct (Z.ltb_spec r 0); [done|]. destruct (Z.ltb_spec c 0); [done|]. lia.
Qed.

(** One erosion step keeps a cell when the cell and its four edge
    neighbours are set. *)
Lemma getZ_erode_step m r c :
  getZ (erode_step m) r c =
    getZ m r c && getZ m (r - 1) c && getZ m (r + 1) c
    && getZ m r (c - 1) && getZ m r (c + 1).
Proof.
  destruct (decide (r < 0 ∨ c < 0)%Z) as [Hneg|Hpos].
  { by rewrite !(getZ_neg _ r c) by done. }
  rewrite (getZ_nonneg (erode_step m)), (getZ_nonneg m r c) by lia.
  rewrite get2_erode_step.
  rewrite (getZ_nonneg m (r + 1) c), (getZ_nonneg m r (c + 1)) by lia.
  replace (Z.to_nat (r + 1)) with (S (Z.to_nat r)) by lia.
  replace (Z.to_nat (c + 1)) with (S (Z.to_nat c)) by lia.
  assert (match Z.to_nat r with
          | O => false
          | S r' => get2 m r' (Z.to_nat c)
          end = getZ m (r - 1) c) as ->.
  { destruct (decide (r = 0%Z)) as [->|Hr].
    - by rewrite getZ_neg by lia.
    - rewrite getZ_nonneg by lia.
      replace (Z.to_nat r) with (S (Z.to_nat (r - 1))) by lia. done. }
  assert (match Z.to_nat c with
          | O => false
          | S c' => get2 m (Z.to_nat r) c'
          end = getZ m r (c - 1)) as ->.
  { destruct (decide (c = 0%Z)) as [->|Hc].
    - by rewrite getZ_neg by lia.
    - rewrite getZ_nonneg by lia.
      replace (Z.to_nat c) with (S (Z.to_nat (c - 1))) by lia. done. }
  done.
Qed.

(** [n] erosion steps keep exactly the cells whose whole diamond of
    radius [n] (city-block distance) is set. *)
Lemma getZ_iter_erode_step (n : nat) m :
  ∀ r c,
    getZ (Nat.iter n erode_step m) r c = true ↔
    ∀ dr dc, (Z.abs dr + Z.abs dc ≤ Z.of_nat n)%Z → getZ m (r + dr) (c + dc) = true.
Proof.
  induction n as [|n IH]; intros r c.
  - simpl. split.
    + intros H dr dc Hd.
      replace dr with 0%Z by lia. replace dc with 0%Z by lia.
      by rewrite !Z.add_0_r.
    + intros H. specialize (H 0 0)%Z. rewrite !Z.add_0_r in H. apply H. lia.
  - change (Nat.iter (S n) erode_step m) with (erode_step (Nat.iter n erode_step m)).
    rewrite getZ_erode_step, !andb_true_iff, !IH. split.
    + intros ((((H0 & Hu) & Hd) & Hl) & Hr) dr dc Hle.
      destruct (decide (Z.abs dr + Z.abs dc ≤ Z.of_nat n)%Z); [by apply H0|].
      destruct (Z.lt_trichotomy dr 0) as [Hdr|[Hdr|Hdr]].
      * specialize (Hu (dr + 1) dc)%Z.
        replace (r - 1 + (dr + 1))%Z with (r + dr)%Z in Hu by lia. apply Hu. lia.
      * destruct (decide (dc < 0)%Z).
        -- specialize (Hl dr (dc + 1))%Z.
           replace (c - 1 + (dc + 1))%Z with (c + dc)%Z in Hl by lia. apply Hl. lia.
        -- specialize (Hr dr (dc - 1))%Z.
           replace (c + 1 + (dc - 1))%Z with (c + dc)%Z in Hr by lia. apply Hr. lia.
      * specialize (Hd (dr - 1) dc)%Z.
        replace (r + 1 + (dr - 1))%Z with (r + dr)%Z in Hd by lia. apply Hd. lia.
    + intros H. split_and!; intros dr dc Hle.
      * apply H. lia.
      * replace (r - 1 + dr)%Z with (r + (dr - 1))%Z by lia. apply H. lia.
      * replace (r + 1 + dr)%Z with (r + (dr + 1))%Z by lia. apply H. lia.
      * replace (c - 1 + dc)%Z with (c + (dc - 1))%Z by lia. apply H. lia.
      * replace (c + 1 + dc)%Z with (c + (dc + 1))%Z by lia. apply H. lia.
Qed.

Lemma chunks_lookup {A} (rows cols : nat) :
  ∀ (a : list A) (r c : nat),
    (chunks rows cols a !! r) ≫= (λ row, row !! c)
    = if decide (r < rows ∧ c < cols)%nat then a !! (r * cols + c)%nat else None.
Proof.
  induction rows as [|rows IH]; intros a r c.
  - rewrite decide_False by lia. done.
  - cbn [chunks]. destruct r as [|r].
    + cbn [lookup list_lookup mbind option_bind]. rewrite lookup_take.
      destruct (decide (c < cols)%nat).
      * rewrite decide_True by lia. done.
      * rewrite decide_False by lia. done.
    + change ((take cols a :: chunks rows cols (drop cols a)) !! S r)
        with (chunks rows cols (drop cols a) !! r).
      rewrite IH, lookup_drop.
      destruct (decide (r < rows ∧ c < cols)%nat).
      * rewrite decide_True by lia. f_equal. lia.
      * rewrite decide_False by lia. done.
Qed.

Lemma sum_axis0_lookup (L : nat) (rest : list (list Z)) :
  ∀ (acc : list Z) (k : nat),
    length acc = L → Forall (λ row, length row = L) rest → (k < L)%nat →
    foldl (zip_with Z.add) acc rest !! k
    = Some (default 0 (acc !! k) + column_total rest k)%Z.
Proof.
  induction rest as [|row rest IH]; intros acc k Hacc Hrest Hk.
  - simpl. destruct (lookup_lt_is_Some_2 acc k) as [x ->]; [lia|].
    simpl. f_equal. unfold column_total. simpl. lia.
  - apply Forall_cons in Hrest as [Hrow Hrest]. simpl.
    rewrite IH; [|by rewrite length_zip_with; lia|done|done].
    rewrite lookup_zip_with.
    destruct (lookup_lt_is_Some_2 acc k) as [x ->]; [lia|].
    destruct (lookup_lt_is_Some_2 row k) as [y Hy]; [lia|].
    rewrite Hy. simpl. unfold column_total. simpl. rewrite Hy. simpl.
    f_equal. symmetry. apply Z.add_assoc.
Qed.

Lemma column_total_cons row rest k :
  column_total (row :: rest) k = (default 0 (row !! k) + column_total rest k)%Z.
Proof. done. Qed.

Lemma column_total_nonneg count_matrix k :
  Forall (λ row, Forall (λ x, 0 ≤ x)%Z row) count_matrix →
  (0 ≤ column_total count_matrix k)%Z.
Proof.
  induction 1 as [|row rest Hrow _ IH]; [done|].
  rewrite column_total_cons.
  destruct (row !! k) as [x|] eqn:Hx; simpl; [|lia].
  rewrite Forall_forall in Hrow.
  assert (0 ≤ x)%Z; [|lia]. apply Hrow. by eapply list_elem_of_lookup_2.
Qed.

Lemma getZ_chunks (rows cols : nat) (a : list bool) (r c : Z) :
  getZ (chunks rows cols a) r c = true ↔
  (0 ≤ r < Z.of_nat rows)%Z ∧ (0 ≤ c < Z.of_nat cols)%Z ∧
  a !! Z.to_nat (r * Z.of_nat cols + c) = Some true.
Proof.
  destruct (decide (r < 0 ∨ c < 0)%Z) as [Hneg|Hpos].
  { rewrite getZ_neg by done. split; [done|lia]. }
  rewrite getZ_nonneg by lia. unfold get2. rewrite chunks_lookup.
  destruct (decide (Z.to_nat r < rows ∧ Z.to_nat c < cols)%nat) as [Hin|Hout].
  - replace (Z.to_nat r * cols + Z.to_nat c)%nat
      with (Z.to_nat (r * Z.of_nat cols + c)) by nia.
    destruct (a !! _) as [[]|]; simpl.
    + split; [intros _; split_and!; (lia || done)|done].
    + split; [done|intros (_ & _ & [=])].
    + split; [done|intros (_ & _ & [=])].
  - simpl. split; [done|lia].
Qed.

(** For a (genes x grid points) matrix of counts and at least one erosion
    step, a cell of the validity mask is set exactly when every cell
    within city-block distance [ceil(radius / bin_size)] of it lies inside
    the grid and has a nonzero total count. *)
Lemma validity_mask_eroded_cells count_matrix (rows cols : nat) radius bin_size mask :
  Forall (λ row, length row = (rows * cols)%nat ∧ Forall (λ x, 0 ≤ x)%Z row)
         count_matrix →
  (1 ≤ math_ceil (radius / bin_size))%Z →
  validity_mask count_matrix (rows, cols) radius bin_size = Ok mask →
  ∀ r c : Z,
    getZ mask r c = true ↔
    ∀ dr dc : Z,
      (Z.abs dr + Z.abs dc ≤ math_ceil (radius / bin_size))%Z →
      (0 ≤ r + dr < Z.of_nat rows)%Z ∧ (0 ≤ c + dc < Z.of_nat cols)%Z ∧
      column_total count_matrix
        (Z.to_nat ((r + dr) * Z.of_nat cols + (c + dc))) ≠ 0%Z.
Proof.
  intros Hcm Hn Hmask.
  assert (Forall (λ row, Forall (λ x, 0 ≤ x)%Z row) count_matrix) as Hnonneg.
  { eapply Forall_impl; [exact Hcm|]. by intros row [_ ?]. }
  unfold validity_mask in Hmask.
  destruct count_matrix as [|first rest].
  { simpl in Hmask. by destruct (decide _). }
  apply Forall_cons in Hcm as [[Hfirst _] Hrest].
  assert (Forall (λ row, length row = (rows * cols)%nat) rest) as Hrest'.
  { eapply Forall_impl; [exact Hrest|]. by intros row [? _]. }
  apply bind_Ok in Hmask as (filt_grid & Hreshape & Hmask).
  apply bind_Ok in Hmask as (q & Hq & [= <-]).
  apply py_div_Ok in Hq as [_ ->].
  unfold reshape in Hreshape. simpl in Hreshape.
  destruct (decide _) as [Hlen|]; [|done]. injection Hreshape as <-.
  unfold binary_erosion.
  destruct (Z.ltb_spec (math_ceil (radius / bin_size)) 1); [lia|].
  intros r c. rewrite getZ_iter_erode_step.
  rewrite Z2Nat.id by lia.
  apply forall_proper; intros dr. apply forall_proper; intros dc.
  apply forall_proper; intros Hd.
  rewrite getZ_chunks.
  set (k := Z.to_nat ((r + dr) * Z.of_nat cols + (c + dc))).
  assert ((0 ≤ r + dr < Z.of_nat rows)%Z → (0 ≤ c + dc < Z.of_nat cols)%Z →
          ((λ s, bool_decide (0 < s)%Z) <$> sum_axis0 first rest) !! k = Some true ↔
          column_total (first :: rest) k ≠ 0%Z) as Hcell.
  { intros Hr Hc.
    assert (k < rows * cols)%nat as Hk by (unfold k; nia).
    rewrite list_lookup_fmap. unfold sum_axis0.
    rewrite (sum_axis0_lookup (rows * cols) rest first k Hfirst Hrest' Hk).
    rewrite <- column_total_cons. simpl.
    pose proof (column_total_nonneg (first :: rest) k Hnonneg).
    split.
    - intros [= Hb]. apply bool_decide_eq_true in Hb. lia.
    - intros Hne. f_equal. apply bool_decide_eq_true. lia. }
  split; intros (Hr & Hc & Hk); (split; [done|split; [done|]]); by apply Hcell.
Qed.

(** ** Element-wise operations and the normalisation step *)

Lemma map2_checked_Ok {A B C} (f : A → B → result C) a b c :
  map2_checked f a b = Ok c →
  length a = length b ∧ length c = length a ∧
  ∀ i x y, a !! i = Some x → b !! i = Some y →
           ∃ z, c !! i = Some z ∧ f x y = Ok z.
Proof.
  unfold map2_checked. destruct (decide _) as [Hlen|]; [|done]. intros Hc.
  destruct (mapM_Ok_lookup _ _ _ Hc) as [Hlenc Hlook].
  rewrite length_zip_with in Hlenc.
  split; [done|]. split; [lia|].
  intros i x y Hx Hy.
  destruct (lookup_lt_is_Some_2 c i) as [z Hz].
  { apply lookup_lt_Some in Hx. lia. }
  destruct (Hlook _ _ Hz) as ([x' y'] & Hxy & Hf).
  apply lookup_zip_with_Some in Hxy as (x'' & y'' & [= -> ->] & Hx' & Hy').
  rewrite Hx in Hx'. rewrite Hy in Hy'. injection Hx' as <-. injection Hy' as <-.
  by exists z.
Qed.

Lemma repeat_axis2_lookup {A} (m : list (list A)) (n : Z) g i j x :
  lookup3 (repeat_axis2 m n) g i j = Some x → lookup2 m g i = Some x.
Proof.
  unfold repeat_axis2, lookup3, lookup2. rewrite list_lookup_fmap.
  destruct (m !! g) as [row|]; [|done]. simpl. rewrite list_lookup_fmap.
  destruct (row !! i) as [y|]; [|done]. simpl.
  by intros [-> _]%lookup_replicate.
Qed.

Lemma zero_where_empty_lookup count_matrix stack g i j above :
  zero_where_empty count_matrix stack →
  lookup2 count_matrix g i = Some 0%Z → lookup3 stack g i j = Some above →
  above = 0%Z.
Proof.
  unfold zero_where_empty, lookup2, lookup3. intros Hz Hc Hs.
  destruct (count_matrix !! g) as [crow|] eqn:Hcrow; [|done].
  destruct (stack !! g) as [sm|] eqn:Hsm; [|done]. simpl in Hc, Hs.
  destruct (sm !! i) as [srow|] eqn:Hsrow; [|done]. simpl in Hs.
  pose proof (Forall2_lookup_lr _ _ _ _ _ _ Hz Hcrow Hsm) as Hz'.
  pose proof (Forall2_lookup_lr _ _ _ _ _ _ Hz' Hc Hsrow) as Hrow.
  specialize (Hrow eq_refl). rewrite Forall_forall in Hrow.
  apply Hrow. by eapply list_elem_of_lookup_2.
Qed.

Lemma nan_to_num_true_divide part total :
  (total = 0%Z → part = 0%Z) →
  nan_to_num (true_divide part total) = safe_fraction part total.
Proof.
  intros Hz. unfold true_divide, safe_fraction.
  destruct (Z.eqb_spec total 0) as [->|Hne].
  - rewrite Hz by done. by rewrite decide_True.
  - by rewrite decide_False.
Qed.

Lemma worker_bisect_zero_rows points grid radius lines n_angles angle_counts count :
  _worker_bisect points grid radius lines n_angles = Ok (angle_counts, count) →
  Forall2 (λ (total : Z) (row : list Z),
             total = 0%Z → Forall (λ above, above = 0%Z) row) count angle_counts.
Proof.
  intros Hw. apply worker_bisect_Ok in Hw as (_ & _ & _ & Hrows & ->).
  destruct (mapM_Ok_lookup _ _ _ Hrows) as [Hlen Hlook].
  apply Forall2_same_length_lookup_2; [by rewrite length_fmap|].
  intros i total row Htotal Hrow Hzero.
  destruct (Hlook _ _ Hrow) as (g & Hg & Hrowg).
  rewrite list_lookup_fmap, Hg in Htotal. injection Htotal as <-.
  unfold angle_counts_row in Hrowg.
  rewrite decide_False in Hrowg by lia. injection Hrowg as <-.
  apply Forall_forall. by intros x [-> _]%elem_of_replicate.
Qed.

Lemma mask_select_Forall2 {A B} (P : A → B → Prop) (filt : list bool) a a' b b' :
  mask_select filt a = Ok a' → mask_select filt b = Ok b' →
  Forall2 P a b → Forall2 P a' b'.
Proof.
  unfold mask_select.
  destruct (decide (length filt = length a)) as [Ha|]; [|done].
  destruct (decide (length filt = length b)) as [Hb|]; [|done].
  intros [= <-] [= <-] HP. clear Ha Hb.
  revert filt. induction HP as [|x y a b Hxy _ IH]; intros [|f filt]; try constructor.
  simpl. rewrite !filter_cons. simpl.
  destruct (decide (f = true)); simpl; [constructor; [done|]|]; apply IH.
Qed.

(** The filtered counts of lines 236-250 are zero where the filtered
    totals are zero. *)
Lemma filtered_counts_zero_where_empty (points : list (list point)) grid radius lines
    n_angles res filt results_angle_counts count_matrix stack :
  mapM (λ p, _worker_bisect p grid radius lines n_angles) points = Ok res →
  mapM (mask_select filt) (fst <$> res) = Ok results_angle_counts →
  mapM (mask_select filt) (snd <$> res) = Ok count_matrix →
  np_stack results_angle_counts = Ok stack →
  zero_where_empty count_matrix stack.
Proof.
  intros Hres Hrac Hcm Hstack.
  assert (stack = results_angle_counts) as ->.
  { unfold np_stack in Hstack. destruct results_angle_counts; [done|].
    by injection Hstack. }
  clear Hstack. unfold zero_where_empty.
  revert res results_angle_counts count_matrix Hres Hrac Hcm.
  induction points as [|p points IH]; intros res rac cm Hres Hrac Hcm.
  - injection Hres as <-. injection Hrac as <-. injection Hcm as <-. constructor.
  - rewrite mapM_cons in Hres.
    apply bind_Ok in Hres as ([ac count] & Hw & Hres).
    apply bind_Ok in Hres as (res' & Hres' & [= <-]).
    change (mapM (mask_select filt) (ac :: (fst <$> res')) = Ok rac) in Hrac.
    change (mapM (mask_select filt) (count :: (snd <$> res')) = Ok cm) in Hcm.
    rewrite mapM_cons in Hrac. rewrite mapM_cons in Hcm.
    apply bind_Ok in Hrac as (ac' & Hac' & Hrac).
    apply bind_Ok in Hrac as (rac' & Hrac' & [= <-]).
    apply bind_Ok in Hcm as (count' & Hcount' & Hcm).
    apply bind_Ok in Hcm as (cm' & Hcm' & [= <-]).
    constructor; [|by eapply IH].
    eapply mask_select_Forall2; [exact Hcount'|exact Hac'|].
    by eapply worker_bisect_zero_rows.
Qed.

(** ** Scattering the results into the image *)

Lemma ntrue_cons b m : ntrue (b :: m) = ((if b then 1 else 0) + ntrue m)%nat.
Proof. unfold ntrue. rewrite filter_cons. by destruct b. Qed.

Lemma count_true_cons row m : count_true (row :: m) = (ntrue row + count_true m)%nat.
Proof. unfold count_true, ntrue, ravel. simpl. by rewrite filter_app, length_app. Qed.

Lemma scatter1_spec {A} (a : list A) :
  ∀ mask vals,
    length a = length mask → (ntrue mask ≤ length vals)%nat →
    (scatter1 a mask vals).2 = drop (ntrue mask) vals ∧
    length (scatter1 a mask vals).1 = length a ∧
    ∀ c x, (scatter1 a mask vals).1 !! c = Some x →
           (mask !! c = Some true ∧ vals !! ntrue (take c mask) = Some x) ∨
           (mask !! c = Some false ∧ a !! c = Some x).
Proof.
  induction a as [|y a IH]; intros mask vals Hlen Hn.
  - destruct mask; [|done]. simpl. split_and!; [done|done|]. by intros c x.
  - destruct mask as [|b mask]; [done|]. injection Hlen as Hlen.
    rewrite ntrue_cons in Hn |- *.
    destruct b, vals as [|v vals]; simpl in Hn; [lia| | |].
    + specialize (IH mask vals Hlen ltac:(lia)). simpl.
      destruct (scatter1 a mask vals) as [a' rest].
      destruct IH as (Hrest & Hlen' & Hlook). simpl in *.
      split_and!; [done|by rewrite Hlen'|].
      intros [|c] x Hx.
      * left. simpl in *. done.
      * destruct (Hlook c x Hx) as [[Hm Hv]|[Hm Ha]]; [left|right; done].
        split; [done|].
        change (take (S c) (true :: mask)) with (true :: take c mask).
        by rewrite ntrue_cons.
    + specialize (IH mask [] Hlen ltac:(simpl; lia)). simpl.
      destruct (scatter1 a mask []) as [a' rest].
      destruct IH as (Hrest & Hlen' & Hlook). simpl in *.
      split_and!; [done|by rewrite Hlen'|].
      intros [|c] x Hx.
      * right. simpl in *. done.
      * destruct (Hlook c x Hx) as [[Hm Hv]|[Hm Ha]]; [left|right; done].
        split; [done|].
        change (take (S c) (false :: mask)) with (false :: take c mask).
        by rewrite ntrue_cons.
    + specialize (IH mask (v :: vals) Hlen ltac:(simpl; lia)). simpl.
      destruct (scatter1 a mask (v :: vals)) as [a' rest].
      destruct IH as (Hrest & Hlen' & Hlook). simpl in *.
      split_and!; [done|by rewrite Hlen'|].
      intros [|c] x Hx.
      * right. simpl in *. done.
      * destruct (Hlook c x Hx) as [[Hm Hv]|[Hm Ha]]; [left|right; done].
        split; [done|].
        change (take (S c) (false :: mask)) with (false :: take c mask).
        by rewrite ntrue_cons.
Qed.

Lemma scatter2_spec {A} (img : list (list A)) :
  ∀ mask vals,
    same_shape img mask → (count_true mask ≤ length vals)%nat →
    ∀ r c x,
      lookup2 (scatter2 img mask vals) r c = Some x →
      (get2 mask r c = true ∧ vals !! rank mask r c = Some x) ∨
      (get2 mask r c = false ∧ lookup2 img r c = Some x).
Proof.
  induction img as [|row img IH]; intros mask vals Hshape Hn r c x Hx.
  - by destruct r.
  - destruct mask as [|mrow mask]; [by apply Forall2_cons_nil_inv in Hshape|].
    apply Forall2_cons in Hshape as [Hrow Hshape].
    rewrite count_true_cons in Hn.
    destruct (scatter1_spec row mrow vals Hrow ltac:(lia)) as (Hrest & _ & Hlook).
    simpl in Hx. destruct (scatter1 row mrow vals) as [row' rest]. simpl in *.
    destruct r as [|r].
    + unfold lookup2 in Hx. simpl in Hx.
      destruct (Hlook c x Hx) as [[Hm Hv]|[Hm Ha]]; [left|right].
      * unfold get2, rank. simpl. rewrite Hm. done.
      * unfold get2, lookup2. simpl. rewrite Hm. done.
    + assert (count_true mask ≤ length rest)%nat as Hn'.
      { rewrite Hrest, length_drop. lia. }
      destruct (IH mask rest Hshape Hn' r c x Hx) as [[Hm Hv]|[Hm Ha]];
        [left|right; done].
      split; [done|]. unfold rank in *. simpl.
      rewrite count_true_cons. rewrite Hrest, lookup_drop in Hv.
      by rewrite <- Nat.add_assoc.
Qed.

Lemma mask_select_length {A} (filt : list bool) (a b : list A) :
  mask_select filt a = Ok b → length b = ntrue filt.
Proof.
  unfold mask_select. destruct (decide _) as [Hlen|]; [|done].
  intros [= <-]. rewrite length_fmap. unfold ntrue.
  revert a Hlen. induction filt as [|x filt IH]; intros [|y a] Hlen; try done.
  injection Hlen as Hlen. simpl. rewrite !filter_cons. simpl.
  destruct (decide (x = true)); simpl; by rewrite IH.
Qed.

Lemma mapM_length {A B} (f : A → result B) (l : list A) (k : list B) :
  mapM f l = Ok k → length k = length l.
Proof. intros Hk. by destruct (mapM_Ok_lookup _ _ _ Hk). Qed.

Lemma validity_mask_Ok_nonempty count_matrix shape radius bin_size mask :
  validity_mask count_matrix shape radius bin_size = Ok mask → count_matrix ≠ [].
Proof.
  intros Hm ->. unfold validity_mask in Hm. by destruct (decide _).
Qed.

Lemma mapM_mask_select_ncols {A} (filt : list bool) (m m' : list (list A)) :
  m ≠ [] → mapM (mask_select filt) m = Ok m' → ncols m' = ntrue filt.
Proof.
  intros Hne Hm. destruct m as [|row m]; [done|].
  rewrite mapM_cons in Hm.
  apply bind_Ok in Hm as (row' & Hrow & Hm).
  apply bind_Ok in Hm as (k & _ & [= <-]). simpl.
  by eapply mask_select_length.
Qed.

(** The fields of the returned record that the raster step determines. *)
Lemma boundaries_make_raster `{FloatLib} `{Dataset} bin_size radius n_angles
    normalize_counts normalization_mode gene_selection b :
  boundaries_make bin_size radius n_angles normalize_counts normalization_mode
                  gene_selection = Ok b →
  mask_assign2 (replicate (shape b).1 (replicate (shape b).2 0%Q)) (filt_grid b)
               (fst <$> results b) = Ok (image b) ∧
  length (results b) = count_true (filt_grid b).
Proof.
  unfold boundaries_make. intros Hb.
  apply bind_Ok in Hb as ([[grid0 Xi] Yi] & _ & Hb).
  apply bind_Ok in Hb as (angs & _ & Hb).
  apply bind_Ok in Hb as (points & _ & Hb).
  apply bind_Ok in Hb as (res & Hres & Hb).
  apply bind_Ok in Hb as (mask & Hmask & Hb).
  apply bind_Ok in Hb as (rac & _ & Hb).
  apply bind_Ok in Hb as (cm & Hcm & Hb).
  apply bind_Ok in Hb as (gf & _ & Hb).
  apply bind_Ok in Hb as (stack & _ & Hb).
  apply bind_Ok in Hb as (stack_other & _ & Hb).
  apply bind_Ok in Hb as ([st st_o] & _ & Hb).
  apply bind_Ok in Hb as (results2 & Hr2 & Hb).
  apply bind_Ok in Hb as (angle_used & _ & Hb).
  apply bind_Ok in Hb as (results2' & Hr2' & Hb).
  apply bind_Ok in Hb as (img & Himg & [= <-]). simpl.
  split; [done|].
  apply validity_mask_Ok_nonempty in Hmask.
  apply mapM_mask_select_ncols in Hcm; [|done].
  apply mapM_length in Hr2. rewrite length_seq, Hcm in Hr2.
  destruct results2 as [|x results2]; [done|].
  apply mapM_length in Hr2'. rewrite Hr2', Hr2. done.
Qed.

(** The cells of the returned image: a set cell holds the distance of its
    result row (in row-major order) and every other cell is 0. *)
Lemma boundaries_make_image_cells `{FloatLib} `{Dataset} bin_size radius
    n_angles normalize_counts normalization_mode gene_selection b :
  boundaries_make bin_size radius n_angles normalize_counts normalization_mode
                  gene_selection = Ok b →
  ∀ r c v,
    lookup2 (image b) r c = Some v →
    (get2 (filt_grid b) r c = true ∧
     (fst <$> results b) !! rank (filt_grid b) r c = Some v) ∨
    (get2 (filt_grid b) r c = false ∧ v = 0%Q).
Proof.
  intros Hb. apply boundaries_make_raster in Hb as [Himg Hlen].
  intros r c v Hv. unfold mask_assign2 in Himg.
  destruct (decide (same_shape _ _)) as [Hshape|]; [|done].
  assert (match fst <$> results b with
          | [x] => replicate (count_true (filt_grid b)) x
          | _ => fst <$> results b
          end = fst <$> results b) as Hvals.
  { destruct (results b) as [|x [|y l]] eqn:Hr; [done| |done].
    simpl in Hlen. by rewrite <- Hlen. }
  rewrite Hvals in Himg.
  destruct (decide (length _ = _)) as [Hlen'|]; [|done].
  injection Himg as Himg. rewrite <- Himg in Hv.
  destruct (scatter2_spec _ _ _ Hshape ltac:(by rewrite Hlen') r c v Hv) as [?|[Hm Hz]];
    [by left|right].
  split; [done|]. unfold lookup2 in Hz.
  destruct (replicate _ _ !! r) as [row|] eqn:Hrow; [|done].
  apply lookup_replicate in Hrow as [-> _]. simpl in Hz.
  by apply lookup_replicate in Hz as [-> _].
Qed.

(** ** [boundaries_make]: what a successful run went through *)

Lemma length_concat_const {A B} (l : list B) (row : list A) :
  length (concat ((λ _, row) <$> l)) = (length l * length row)%nat.
Proof.
  induction l as [|x l IH]; [done|].
  rewrite fmap_cons. cbn [concat length]. rewrite length_app, IH. lia.
Qed.

Lemma length_concat_rows {A B} (f : B → A) (l : list B) (xi : list A) :
  length (concat ((λ y, (λ _, f y) <$> xi) <$> l)) = (length l * length xi)%nat.
Proof.
  induction l as [|x l IH]; [done|].
  rewrite fmap_cons. cbn [concat length].
  rewrite length_app, IH, length_fmap. lia.
Qed.

Lemma square_grid_length bin_size xe ye xmin xmax ymin ymax grid Xi Yi :
  square_grid bin_size xe ye xmin xmax ymin ymax = Ok (grid, Xi, Yi) →
  length grid = ((shape2 Xi).1 * (shape2 Xi).2)%nat.
Proof.
  intros Hg.
  destruct (square_grid_inv _ _ _ _ _ _ _ _ _ _ Hg)
    as (_ & xi & yi & _ & _ & -> & -> & ->).
  unfold column_stack, ravel. rewrite length_zip_with.
  rewrite length_concat_const, (length_concat_rows (λ y, y)).
  unfold shape2. rewrite length_fmap.
  destruct yi as [|y yi]; simpl; lia.
Qed.

Lemma worker_bisect_count points grid radius lines n_angles angle_counts count :
  _worker_bisect points grid radius lines n_angles = Ok (angle_counts, count) →
  count = (λ g, Z.of_nat (length (in_radius points g radius))) <$> grid.
Proof.
  intros Hw. by apply worker_bisect_Ok in Hw as (_ & _ & _ & _ & ->).
Qed.

Lemma mapM_fmap_Ok {A B C} (f : A → result B) (g : B → C) (h : A → C) l k :
  mapM f l = Ok k → (∀ x y, f x = Ok y → g y = h x) → g <$> k = h <$> l.
Proof.
  revert k. induction l as [|x l IH]; intros k Hk Hgh.
  - by injection Hk as <-.
  - rewrite mapM_cons in Hk.
    apply bind_Ok in Hk as (y & Hy & Hk).
    apply bind_Ok in Hk as (k' & Hk' & [= <-]).
    rewrite !fmap_cons. f_equal; [by apply Hgh|by apply IH].
Qed.

(** What a successful run went through. *)
Lemma boundaries_make_inv `{FloatLib} `{Dataset} bin_size radius n_angles
    normalize_counts normalization_mode gene_selection b :
  boundaries_make bin_size radius n_angles normalize_counts normalization_mode
                  gene_selection = Ok b →
  ∃ Xi Yi points,
    square_grid bin_size x_extent y_extent x_min x_max y_min y_max
      = Ok (grid b, Xi, Yi) ∧
    shape b = shape2 Xi ∧
    mapM get_gene (selected_genes gene_selection) = Ok points ∧
    validity_mask (counts_in_radius points (grid b) radius) (shape b) radius bin_size
      = Ok (filt_grid b) ∧
    mask_select (ravel (filt_grid b)) (grid b) = Ok (grid_filt b).
Proof.
  unfold boundaries_make. intros Hb.
  apply bind_Ok in Hb as ([[grid0 Xi] Yi] & Hgrid & Hb).
  apply bind_Ok in Hb as (angs & _ & Hb).
  apply bind_Ok in Hb as (points & Hpoints & Hb).
  apply bind_Ok in Hb as (res & Hres & Hb).
  apply bind_Ok in Hb as (mask & Hmask & Hb).
  apply bind_Ok in Hb as (rac & _ & Hb).
  apply bind_Ok in Hb as (cm & _ & Hb).
  apply bind_Ok in Hb as (gf & Hgf & Hb).
  apply bind_Ok in Hb as (stack & _ & Hb).
  apply bind_Ok in Hb as (stack_other & _ & Hb).
  apply bind_Ok in Hb as ([st st_o] & _ & Hb).
  apply bind_Ok in Hb as (results2 & _ & Hb).
  apply bind_Ok in Hb as (angle_used & _ & Hb).
  apply bind_Ok in Hb as (results2' & _ & Hb).
  apply bind_Ok in Hb as (img & _ & [= <-]). simpl.
  exists Xi, Yi, points. split_and!; [done..| |done].
  unfold counts_in_radius.
  rewrite <- (mapM_fmap_Ok _ snd _ _ _ Hres); [done|].
  intros p [ac count] Hw. simpl. by eapply worker_bisect_count.
Qed.

Lemma counts_in_radius_wf points grid radius (n : nat) :
  length grid = n →
  Forall (λ row, length row = n ∧ Forall (λ x, 0 ≤ x)%Z row)
         (counts_in_radius points grid radius).
Proof.
  intros Hn. unfold counts_in_radius. apply Forall_fmap, Forall_true.
  intros p. simpl. split; [by rewrite length_fmap|].
  apply Forall_fmap, Forall_true. intros g. simpl. lia.
Qed.

(** ** The texture worker *)

Lemma same_shape_alt {A B} (a : list (list A)) (b : list (list B)) :
  same_shape a b ↔ length <$> a = length <$> b.
Proof.
  unfold same_shape. split.
  - induction 1 as [|ra rb a b Hr _ IH]; [done|].
    rewrite !fmap_cons. by f_equal.
  - revert b. induction a as [|ra a IH]; intros [|rb b] Heq;
      try done; try (by constructor).
    injection Heq as Hr Heq. constructor; [done|by apply IH].
Qed.

Lemma same_shape_invert mask : same_shape (invert mask) mask.
Proof.
  apply same_shape_alt. unfold invert. rewrite <- list_fmap_compose.
  apply list_fmap_ext. intros _ row _. simpl. by rewrite length_fmap.
Qed.

Lemma same_shape_isnan a : same_shape (np_isnan a) a.
Proof.
  apply same_shape_alt. unfold np_isnan. rewrite <- list_fmap_compose.
  apply list_fmap_ext. intros _ row _. simpl. by rewrite length_fmap.
Qed.

Lemma same_shape_lookup2 {A B} (a : list (list A)) (b : list (list B)) r c y :
  same_shape a b → lookup2 b r c = Some y → ∃ x, lookup2 a r c = Some x.
Proof.
  unfold same_shape, lookup2. intros Hs Hy.
  destruct (b !! r) as [rb|] eqn:Hrb; [|done]. simpl in Hy.
  destruct (Forall2_lookup_r _ _ _ _ _ Hs Hrb) as (ra & -> & Hlen). simpl.
  apply lookup_lt_is_Some_2. rewrite Hlen. by eapply lookup_lt_Some.
Qed.

Lemma lookup2_zip_with {A B C} (f : A → B → C) a b r c :
  lookup2 (zip_with (zip_with f) a b) r c
  = match lookup2 a r c, lookup2 b r c with
    | Some x, Some y => Some (f x y)
    | _, _ => None
    end.
Proof.
  unfold lookup2. rewrite lookup_zip_with.
  destruct (a !! r) as [ra|]; [|done]. simpl.
  destruct (b !! r) as [rb|]; simpl; [|by destruct (ra !! c)].
  rewrite lookup_zip_with.
  destruct (ra !! c); [|done]. simpl. by destruct (rb !! c).
Qed.

Lemma mask_fill2_Ok {A} (img : list (list A)) (mask : list (list bool)) (v : A) :
  same_shape img mask →
  mask_fill2 img mask v
  = Ok (zip_with (zip_with (λ x (b : bool), if b then v else x)) img mask).
Proof. intros Hs. unfold mask_fill2. by rewrite decide_True. Qed.

Lemma mask_fill2_shape {A} (img : list (list A)) (mask : list (list bool)) (v : A) :
  same_shape img mask →
  same_shape (zip_with (zip_with (λ x (b : bool), if b then v else x)) img mask) mask.
Proof.
  unfold same_shape. induction 1 as [|ri rm img mask Hr _ IH]; simpl.
  - constructor.
  - constructor; [|done]. rewrite length_zip_with. lia.
Qed.

Lemma lookup2_invert mask r c :
  lookup2 (invert mask) r c = negb <$> lookup2 mask r c.
Proof.
  unfold lookup2, invert. rewrite list_lookup_fmap.
  destruct (mask !! r) as [row|]; [|done]. simpl. by rewrite list_lookup_fmap.
Qed.

Lemma lookup2_isnan a r c :
  lookup2 (np_isnan a) r c = is_nan <$> lookup2 a r c.
Proof.
  unfold lookup2, np_isnan. rewrite list_lookup_fmap.
  destruct (a !! r) as [row|]; [|done]. simpl. by rewrite list_lookup_fmap.
Qed.

(** ** The grid: layout *)

Lemma concat_lookup_uniform {A} (n : nat) (l : list (list A)) :
  Forall (λ row, length row = n) l →
  ∀ r c, (c < n)%nat → concat l !! (r * n + c)%nat = l !! r ≫= λ row, row !! c.
Proof.
  induction 1 as [|row l Hrow Hl IH]; intros r c Hc.
  - by destruct r.
  - simpl. destruct r as [|r].
    + simpl. rewrite lookup_app_l by lia. done.
    + rewrite lookup_app_r by (rewrite Hrow; simpl; lia).
      replace (S r * n + c - length row)%nat with (r * n + c)%nat
        by (rewrite Hrow; simpl; lia).
      by apply IH.
Qed.


(** ** The tested angles *)

Lemma py_div_raises a b : raises (py_div a b) ↔ (b == 0)%Q.
Proof.
  unfold py_div. destruct (Qeq_bool b 0) eqn:Hb.
  - apply Qeq_bool_iff in Hb. split; [done|]. intros _. by eexists.
  - apply Qeq_bool_neq in Hb. split; [|done]. by intros [e ?].
Qed.

Lemma inject_Z_pos (n : Z) : (0 < n)%Z → (0 < inject_Z n)%Q.
Proof. intros Hn. change 0%Q with (inject_Z 0). by rewrite <- Zlt_Qlt. Qed.

Lemma angles_lookup (n_angles : Z) l :
  angles n_angles = Ok l →
  (1 ≤ n_angles)%Z ∧ length l = Z.to_nat n_angles ∧
  ∀ (k : nat) a, l !! k = Some a →
    (a == inject_Z (Z.of_nat k) * 180 / inject_Z n_angles)%Q.
Proof.
  unfold angles. intros Hl.
  apply bind_Ok in Hl as (step & Hstep & Hl).
  apply py_div_Ok in Hstep as [Hz ->].
  assert (n_angles ≠ 0)%Z as Hne by (by intros ->).
  destruct (linspace_length _ _ _ _ Hl) as [Hlen Hn].
  split; [lia|]. split; [done|]. intros k a Ha.
  assert (0 < inject_Z n_angles)%Q as Hpos by (apply inject_Z_pos; lia).
  destruct (decide (n_angles = 1%Z)) as [->|Hn1].
  - unfold linspace in Hl. simpl in Hl. injection Hl as <-.
    destruct k as [|k]; [|done]. injection Ha as <-. reflexivity.
  - assert (2 ≤ n_angles)%Z as Hn2 by lia.
    rewrite (linspace_lookup _ _ _ _ _ _ Hl Hn2 Ha).
    assert (0 < inject_Z (n_angles - 1))%Q as Hpos1 by (apply inject_Z_pos; lia).
    assert (inject_Z (n_angles - 1) == inject_Z n_angles - 1)%Q as Hm.
    { unfold Z.sub. rewrite inject_Z_plus. reflexivity. }
    rewrite Hm in Hpos1 |- *. field. split; lra.
Qed.

Lemma angles_is_Ok (n_angles : Z) : (1 ≤ n_angles)%Z → is_Ok (angles n_angles).
Proof.
  intros Hn. unfold angles, py_div.
  destruct (Qeq_bool (inject_Z n_angles) 0) eqn:Hz.
  { apply Qeq_bool_iff in Hz. change 0%Q with (inject_Z 0) in Hz.
    apply (proj1 (inject_Z_injective _ _)) in Hz. lia. }
  rewrite Ok_bind. unfold linspace.
  destruct (Z.ltb_spec n_angles 0); [lia|]. by eexists.
Qed.

(** ** [_worker_bisect]: empty queries and failures *)

Lemma to_int32_count_above_empty points g radius l :
  in_radius points g radius = [] → to_int32 (count_above points g radius l) = 0%Z.
Proof. intros Hr. unfold count_above. rewrite Hr. reflexivity. Qed.

Lemma mapM_raises_iff {A B} (f : A → result B) (l : list A) :
  raises (mapM f l) ↔ ∃ x, x ∈ l ∧ raises (f x).
Proof.
  split; [|intros (x & Hx & Hr); by eapply mapM_raises].
  induction l as [|x l IH]; [by intros [e ?]|].
  rewrite mapM_cons. destruct (f x) as [y|e] eqn:Hfx.
  - rewrite Ok_bind. destruct (mapM f l) as [k|e']; [by intros [e' ?]|].
    intros _. destruct IH as (x' & Hx' & Hr); [by eexists|].
    exists x'. split; [by right|done].
  - intros _. exists x. split; [by left|]. rewrite Hfx. by eexists.
Qed.

Lemma within_negative radius g p : (radius < 0)%Q → within radius g p = false.
Proof.
  intros Hr. unfold within.
  destruct (Qle_bool 0 radius) eqn:E; [|done].
  apply Qle_bool_iff in E. lra.
Qed.

Lemma fmap_const_replicate {A B} (l : list A) (y : B) :
  (λ _, y) <$> l = replicate (length l) y.
Proof. induction l as [|x l IH]; [done|]. simpl. by rewrite <- IH. Qed.

Lemma in_radius_negative points g radius :
  (radius < 0)%Q → in_radius points g radius = [].
Proof.
  intros Hr. unfold in_radius.
  induction points as [|p points IH]; [done|].
  rewrite filter_cons, decide_False; [done|].
  by rewrite within_negative.
Qed.

(** ** [_worker_angle]: equal distances *)

Lemma worker_angle_first_max `{FloatLib} (n_angles : Z) (d1 d2 : list (list Q)) :
  (0 < n_angles)%Z →
  length d1 = length d2 →
  Forall (λ row, length row = Z.to_nat n_angles) d1 →
  Forall (λ row, length row = Z.to_nat n_angles) d2 →
  ∃ m k,
    _worker_angle n_angles d1 d2 = Ok (m, k) ∧
    first_max (angle_distance d1 d2 <$> seq 0 (Z.to_nat n_angles)) m k.
Proof.
  intros Hn Hlen H1 H2. unfold _worker_angle, np_zeros1.
  destruct (Z.ltb_spec n_angles 0); [lia|]. rewrite !Ok_bind.
  set (n := Z.to_nat n_angles).
  rewrite (foldM_ext _
    (λ dist j, d ← (column d1 j ≫= λ u, column d2 j ≫= λ v, euclidean u v);
               setitem1 dist j d)).
  2:{ intros s j _. destruct (column d1 j); [|done]. simpl.
      destruct (column d2 j); [|done]. done. }
  destruct (foldM_fill
    (λ j, column d1 j ≫= λ u, column d2 j ≫= λ v, euclidean u v)
    (angle_distance d1 d2) n n 0%nat (replicate n 0%Q))
    as (dist & -> & Hdlen & Hdist).
  { apply length_replicate. }
  { lia. }
  { intros j Hj. apply worker_angle_column_distance; [done| |].
    - eapply Forall_impl; [exact H1|]. simpl. intros row ->. fold n. lia.
    - eapply Forall_impl; [exact H2|]. simpl. intros row ->. fold n. lia. }
  rewrite Ok_bind.
  assert (dist = angle_distance d1 d2 <$> seq 0 n) as ->.
  { apply list_eq. intros j. rewrite Hdist, list_lookup_fmap.
    destruct (decide (0 ≤ j < 0 + n)%nat) as [Hj|Hj].
    - rewrite lookup_seq_lt by lia. done.
    - rewrite lookup_seq_ge by lia. simpl.
      apply lookup_ge_None. rewrite length_replicate. lia. }
  destruct (np_max_argmax (angle_distance d1 d2 <$> seq 0 n)) as (m & k & -> & -> & Hmax).
  { intros Hnil. apply (f_equal length) in Hnil.
    rewrite length_fmap, length_seq in Hnil. simpl in Hnil. lia. }
  rewrite !Ok_bind. by exists m, k.
Qed.

Lemma sum_squares_zero (d : list (list Q)) (j : nat) :
  (foldr Qplus 0
     (zip_with (λ r1 r2 : list Q,
                  (default 0 (r1 !! j) - default 0 (r2 !! j)) *
                  (default 0 (r1 !! j) - default 0 (r2 !! j))) d d) == 0)%Q.
Proof.
  induction d as [|row d IH]; [reflexivity|]. simpl. rewrite IH. ring.
Qed.

(** ** [boundaries_make]: the results *)

Lemma result_cases {A} (m : result A) : is_Ok m ∨ raises m.
Proof. destruct m; [left|right]; by eexists. Qed.

Lemma not_Ok_raises {A} (m : result A) : (∀ a, m ≠ Ok a) → raises m.
Proof. intros Hm. destruct m as [a|e]; [by destruct (Hm a)|by eexists]. Qed.

(** The result rows, their angles and the valid grid points of a run. *)
Lemma boundaries_make_results `{FloatLib} `{Dataset} bin_size radius n_angles
    normalize_counts normalization_mode gene_selection b :
  boundaries_make bin_size radius n_angles normalize_counts normalization_mode
                  gene_selection = Ok b →
  results b ≠ [] ∧
  length (grid_filt b) = count_true (filt_grid b) ∧
  ∃ angle_used,
    angles n_angles = Ok angle_used ∧
    ∀ k da, results b !! k = Some da → ∃ j, angle_used !! j = Some da.2.
Proof.
  unfold boundaries_make. intros Hb.
  apply bind_Ok in Hb as ([[grid0 Xi] Yi] & _ & Hb).
  apply bind_Ok in Hb as (angs & _ & Hb).
  apply bind_Ok in Hb as (points & _ & Hb).
  apply bind_Ok in Hb as (res & _ & Hb).
  apply bind_Ok in Hb as (mask & _ & Hb).
  apply bind_Ok in Hb as (rac & _ & Hb).
  apply bind_Ok in Hb as (cm & _ & Hb).
  apply bind_Ok in Hb as (gf & Hgf & Hb).
  apply bind_Ok in Hb as (stack & _ & Hb).
  apply bind_Ok in Hb as (stack_other & _ & Hb).
  apply bind_Ok in Hb as ([st st_o] & _ & Hb).
  apply bind_Ok in Hb as (results2 & _ & Hb).
  apply bind_Ok in Hb as (angle_used & Hangles & Hb).
  apply bind_Ok in Hb as (results2' & Hr2' & Hb).
  apply bind_Ok in Hb as (img & _ & [= <-]). simpl.
  destruct results2 as [|x results2]; [done|].
  destruct (mapM_Ok_lookup _ _ _ Hr2') as [Hlen Hlook].
  split_and!.
  - intros ->. done.
  - by apply mask_select_length in Hgf.
  - exists angle_used. split; [done|]. intros k da Hda.
    destruct (Hlook _ _ Hda) as ([d j] & _ & Hj). simpl in Hj.
    destruct (angle_used !! j) as [a|] eqn:Ha; [|done].
    injection Hj as <-. by exists j.
Qed.

Lemma count_true_pos (m : list (list bool)) :
  (0 < count_true m)%nat → ∃ r c, get2 m r c = true.
Proof.
  induction m as [|row m IH]; [unfold count_true; simpl; lia|].
  rewrite count_true_cons. intros Hpos.
  destruct (decide (0 < ntrue row)%nat) as [Hrow|Hrow].
  - assert (∃ c, row !! c = Some true) as [c Hc].
    { clear -Hrow. induction row as [|b row IH]; [unfold ntrue in Hrow; simpl in Hrow; lia|].
      rewrite ntrue_cons in Hrow. destruct b; [by exists 0%nat|].
      destruct IH as [c Hc]; [simpl in Hrow; lia|]. by exists (S c). }
    exists 0%nat, c. unfold get2. simpl. by rewrite Hc.
  - destruct IH as (r & c & Hrc); [lia|]. by exists (S r), c.
Qed.

Lemma count_true_zero (m : list (list bool)) :
  (∀ r c, get2 m r c = false) → count_true m = 0%nat.
Proof.
  intros Hm. destruct (decide (0 < count_true m)%nat) as [Hpos|]; [|lia].
  destruct (count_true_pos m Hpos) as (r & c & Hrc). rewrite Hm in Hrc. done.
Qed.

(** ** The erosion repeated until nothing changes *)

Lemma iter_erode_step_fixed m (n : nat) :
  erode_step m = m → Nat.iter n erode_step m = m.
Proof. intros Hm. induction n as [|n IH]; [done|]. simpl. by rewrite IH. Qed.

(** A mask that one erosion leaves unchanged has no set cell: the cells
    outside the image count as empty. *)
Lemma erode_step_fixed_empty m :
  erode_step m = m → ∀ r c, getZ m r c = false.
Proof.
  intros Hm r c. destruct (getZ m r c) eqn:Hrc; [|done].
  destruct (decide (r < 0)%Z) as [Hneg|Hpos].
  { rewrite getZ_neg in Hrc by lia. done. }
  rewrite <- (iter_erode_step_fixed m (Z.to_nat (r + 1)) Hm) in Hrc.
  pose proof (proj1 (getZ_iter_erode_step _ _ _ _) Hrc (- (r + 1))%Z 0%Z) as Hout.
  rewrite getZ_neg in Hout by lia. symmetry. apply Hout. lia.
Qed.

Lemma erode_until_stable_cases (fuel : nat) :
  ∀ m, erode_step (erode_until_stable fuel m) = erode_until_stable fuel m ∨
       erode_until_stable fuel m = Nat.iter fuel erode_step m.
Proof.
  induction fuel as [|fuel IH]; intros m; [by right|].
  simpl. destruct (decide (erode_step m = m)) as [Hm|Hm]; [by left|].
  destruct (IH (erode_step m)) as [Hfix|Hiter]; [by left|].
  right. rewrite Hiter. by rewrite <- Nat.iter_succ_r.
Qed.

Lemma length_row_ravel {A} (m : list (list A)) r row :
  m !! r = Some row → (length row ≤ length (ravel m))%nat.
Proof.
  unfold ravel. revert r. induction m as [|x m IH]; intros r Hr; [done|].
  simpl. rewrite length_app. destruct r as [|r].
  - injection Hr as ->. lia.
  - specialize (IH r Hr). lia.
Qed.

Lemma getZ_true_bound m r c :
  getZ m r c = true → (0 ≤ c < Z.of_nat (length (ravel m)))%Z.
Proof.
  intros Hrc. destruct (decide (r < 0 ∨ c < 0)%Z) as [Hneg|Hpos].
  { by rewrite getZ_neg in Hrc. }
  rewrite getZ_nonneg in Hrc by lia. unfold get2 in Hrc.
  destruct (m !! Z.to_nat r) as [row|] eqn:Hrow; [|done]. simpl in Hrc.
  destruct (row !! Z.to_nat c) as [x|] eqn:Hc; [|done].
  apply lookup_lt_Some in Hc. apply length_row_ravel in Hrow. lia.
Qed.

(** Repeated until nothing changes, the erosion clears the whole mask. *)
Lemma binary_erosion_until_stable m iterations :
  (iterations < 1)%Z → ∀ r c, getZ (binary_erosion m iterations) r c = false.
Proof.
  intros Hit r c. unfold binary_erosion.
  destruct (Z.ltb_spec iterations 1) as [_|]; [|lia].
  destruct (erode_until_stable_cases (S (length (ravel m))) m) as [Hfix|Hiter].
  { by apply erode_step_fixed_empty. }
  rewrite Hiter.
  destruct (getZ (Nat.iter _ erode_step m) r c) eqn:Hrc; [|done].
  pose proof (proj1 (getZ_iter_erode_step _ _ _ _) Hrc) as Hall.
  pose proof (Hall 0%Z 0%Z ltac:(lia)) as Hhere.
  rewrite !Z.add_0_r in Hhere. apply getZ_true_bound in Hhere.
  pose proof (Hall 0%Z (- (c + 1))%Z ltac:(lia)) as Hout.
  rewrite getZ_neg in Hout by lia. done.
Qed.

Lemma get2_getZ m (r c : nat) : get2 m r c = getZ m (Z.of_nat r) (Z.of_nat c).
Proof. rewrite getZ_nonneg by lia. by rewrite !Nat2Z.id. Qed.

(** A run that returns has eroded the mask at least once: repeated until
    nothing changes, the erosion leaves no valid grid point. *)
Lemma boundaries_make_Ok_ceil `{FloatLib} `{Dataset} bin_size radius
    n_angles normalize_counts normalization_mode gene_selection b :
  boundaries_make bin_size radius n_angles normalize_counts normalization_mode
                  gene_selection = Ok b →
  (1 ≤ math_ceil (radius / bin_size))%Z.
Proof.
  intros Hb.
  destruct (decide (1 ≤ math_ceil (radius / bin_size))%Z) as [|Hit]; [done|].
  exfalso.
  destruct (boundaries_make_results _ _ _ _ _ _ _ Hb) as (Hne & _ & _).
  destruct (boundaries_make_raster _ _ _ _ _ _ _ Hb) as [_ Hlen].
  destruct (boundaries_make_inv _ _ _ _ _ _ _ Hb)
    as (Xi & Yi & points & _ & _ & _ & Hmask & _).
  unfold validity_mask in Hmask.
  destruct (counts_in_radius points (grid b) radius) as [|first rest].
  { by destruct (decide _). }
  apply bind_Ok in Hmask as (fg & _ & Hmask).
  apply bind_Ok in Hmask as (q & Hq & [= Hfg]).
  apply py_div_Ok in Hq as [_ ->].
  rewrite <- Hfg in Hlen.
  rewrite count_true_zero in Hlen.
  - by destruct (results b).
  - intros r c. rewrite get2_getZ. apply binary_erosion_until_stable. lia.
Qed.

(** ** [boundaries_make]: shapes *)

Lemma scatter1_length {A} (a : list A) :
  ∀ mask vals, length (scatter1 a mask vals).1 = length a.
Proof.
  induction a as [|x a IH]; intros mask vals; [done|].
  destruct mask as [|b mask]; [done|]. simpl.
  destruct b, vals as [|v vals];
    match goal with
    | |- context [scatter1 a mask ?vs] =>
        specialize (IH mask vs); destruct (scatter1 a mask vs); simpl in *; lia
    end.
Qed.

Lemma scatter2_shape {A} (img : list (list A)) :
  ∀ mask vals, same_shape (scatter2 img mask vals) img.
Proof.
  induction img as [|row img IH]; intros mask vals; [constructor|].
  destruct mask as [|mrow mask].
  { apply same_shape_alt. done. }
  simpl. destruct (scatter1 row mrow vals) as [row' rest] eqn:Hs.
  constructor; [|apply IH].
  by rewrite <- (scatter1_length row mrow vals), Hs.
Qed.

Lemma has_shape_replicate {A} (x : A) rows cols :
  has_shape (replicate rows (replicate cols x)) rows cols.
Proof.
  split; [by rewrite length_replicate|].
  apply Forall_replicate. by rewrite length_replicate.
Qed.

Lemma has_shape_same_shape {A B} (a : list (list A)) (b : list (list B)) rows cols :
  same_shape a b → has_shape a rows cols → has_shape b rows cols.
Proof.
  intros Hs [Hlen Hrows]. split.
  - by rewrite <- (Forall2_length _ _ _ Hs).
  - clear Hlen. induction Hs as [|ra rb a b Hr _ IH]; [done|].
    apply Forall_cons in Hrows as [Hra Hrows].
    constructor; [congruence|by apply IH].
Qed.

Lemma same_shape_sym {A B} (a : list (list A)) (b : list (list B)) :
  same_shape a b → same_shape b a.
Proof. rewrite !same_shape_alt. done. Qed.

(** The mask and the image that a run returns have the returned shape. *)
Lemma boundaries_make_has_shape `{FloatLib} `{Dataset} bin_size radius n_angles
    normalize_counts normalization_mode gene_selection b :
  boundaries_make bin_size radius n_angles normalize_counts normalization_mode
                  gene_selection = Ok b →
  has_shape (filt_grid b) (shape b).1 (shape b).2 ∧
  has_shape (image b) (shape b).1 (shape b).2.
Proof.
  intros Hb.
  destruct (boundaries_make_raster _ _ _ _ _ _ _ Hb) as [Himg _].
  unfold mask_assign2 in Himg.
  destruct (decide (same_shape _ (filt_grid b))) as [Hs|]; [|done].
  destruct (decide (length _ = count_true (filt_grid b))); [|done].
  injection Himg as Himg.
  pose proof (has_shape_replicate 0%Q (shape b).1 (shape b).2) as Hzeros.
  split.
  - by eapply has_shape_same_shape.
  - rewrite <- Himg. eapply has_shape_same_shape; [|exact Hzeros].
    apply same_shape_sym, scatter2_shape.
Qed.

Lemma has_shape_lookup2 {A} (m : list (list A)) rows cols r c :
  has_shape m rows cols → (r < rows)%nat → (c < cols)%nat →
  is_Some (lookup2 m r c).
Proof.
  intros [Hlen Hrows] Hr Hc. unfold lookup2.
  destruct (lookup_lt_is_Some_2 m r) as [row Hrow]; [lia|].
  rewrite Hrow. simpl. apply lookup_lt_is_Some_2.
  rewrite Forall_forall in Hrows.
  rewrite (Hrows row); [done|]. by eapply list_elem_of_lookup_2.
Qed.

(** ** [_LBP_worker]: the masked assignments *)

Lemma mask_fill2_inv {A} (img : list (list A)) (mask : list (list bool)) (v : A) out :
  mask_fill2 img mask v = Ok out →
  same_shape img mask ∧
  out = zip_with (zip_with (λ x (b : bool), if b then v else x)) img mask.
Proof. unfold mask_fill2. destruct (decide _); [|done]. by intros [= <-]. Qed.

Lemma same_shape_trans {A B C} (a : list (list A)) (b : list (list B))
    (c : list (list C)) :
  same_shape a b → same_shape b c → same_shape a c.
Proof. rewrite !same_shape_alt. congruence. Qed.

(** What the worker returns: an image of the shape of the mask that is
    not-a-number exactly outside the mask. *)
Lemma LBP_worker_inv `{TextureLib} img mask h_factor patch_size patch_distance
    n_points radius out :
  _LBP_worker img mask h_factor patch_size patch_distance n_points radius = Ok out →
  same_shape out mask ∧
  ∀ r c (b : bool),
    lookup2 mask r c = Some b →
    ∃ x, lookup2 out r c = Some x ∧ is_nan x = negb b.
Proof.
  unfold _LBP_worker. intros Hw.
  apply bind_Ok in Hw as (denoise0 & _ & Hw).
  apply bind_Ok in Hw as (lbp1 & Hclean & Hw).
  apply bind_Ok in Hw as (lbp2 & Hfill & [= <-]).
  apply mask_fill2_inv in Hfill as [Hs ->].
  apply mask_fill2_inv in Hclean as [_ Hclean].
  assert (same_shape lbp1 mask) as Hs'.
  { eapply same_shape_trans; [exact Hs|apply same_shape_invert]. }
  split.
  { eapply same_shape_trans; [by apply mask_fill2_shape|apply same_shape_invert]. }
  intros r c b Hb.
  destruct (same_shape_lookup2 lbp1 mask r c b Hs' Hb) as [y Hy].
  rewrite lookup2_zip_with, lookup2_invert, Hb, Hy. simpl.
  eexists. split; [done|]. destruct b; simpl; [|done].
  rewrite Hclean, lookup2_zip_with, lookup2_isnan in Hy.
  destruct (lookup2 (local_binary_pattern _ _ _) r c) as [z|]; [|done].
  simpl in Hy. injection Hy as <-. by destruct z.
Qed.

(** ** [boundaries_LBP_make]: stacking the channels *)

Lemma mapM_Forall2 {A B} (f : A → result B) (l : list A) (k : list B) :
  Forall2 (λ x y, f x = Ok y) l k → mapM f l = Ok k.
Proof.
  induction 1 as [|x y l k Hxy _ IH]; [done|].
  by rewrite mapM_cons, Hxy, Ok_bind, IH, Ok_bind.
Qed.

Lemma omap_total {A B} (f : A → option B) (P : B → Prop) (l : list A) :
  Forall (λ a, ∃ y, f a = Some y ∧ P y) l →
  length (omap f l) = length l ∧
  Forall P (omap f l) ∧
  ∀ g a, l !! g = Some a → omap f l !! g = f a.
Proof.
  induction 1 as [|a l (y & Hy & HP) _ (IHlen & IHP & IHlook)]; [done|].
  change (omap f (a :: l))
    with (match f a with Some y => y :: omap f l | None => omap f l end).
  rewrite Hy. split; [by rewrite !length_cons, IHlen|].
  split; [by constructor|].
  intros [|g] a' Ha'; [by injection Ha' as <-|by apply IHlook].
Qed.

Lemma lookup2_imap {A B} (F : nat → nat → B) (first : list (list A)) r c :
  lookup2 (imap (λ r row, imap (λ c (_ : A), F r c) row) first) r c
  = (λ _, F r c) <$> lookup2 first r c.
Proof.
  unfold lookup2. rewrite list_lookup_imap.
  destruct (first !! r) as [row|]; [|done]. simpl.
  by rewrite list_lookup_imap.
Qed.

(** What a successful run went through: one worker result per channel,
    in the order of the channels, stacked along the last axis. *)
Lemma boundaries_LBP_make_inv `{TextureLib} squarebin mask h_factor patch_size
    patch_distance n_points radius out :
  boundaries_LBP_make squarebin mask h_factor patch_size patch_distance n_points
                      radius = Ok out →
  ∃ first rest,
    length (first :: rest) = n_channels squarebin ∧
    (∀ g a, (first :: rest) !! g = Some a →
       ∃ img, channel squarebin g = Ok img ∧
              _LBP_worker img mask h_factor patch_size patch_distance n_points radius
              = Ok a) ∧
    out = imap (λ r row,
                  imap (λ c (_ : xfloat), omap (λ a, lookup2 a r c) (first :: rest)) row)
               first.
Proof.
  unfold boundaries_LBP_make. intros Hout.
  apply bind_Ok in Hout as (arrays & Harrays & Hout).
  destruct (mapM_Ok_lookup _ _ _ Harrays) as [Hlen Hlook].
  rewrite length_seq in Hlen.
  unfold stack_axis2 in Hout. destruct arrays as [|first rest]; [done|].
  destruct (decide _); [|done]. injection Hout as <-.
  exists first, rest. split; [done|]. split; [|done].
  intros g a Ha. destruct (Hlook _ _ Ha) as (i & Hi & Hw).
  apply lookup_seq in Hi as [-> _]. simpl in Hw.
  apply bind_Ok in Hw as (img & Himg & Hw). by exists img.
Qed.

(** ** [Boundaries_Multi]: the loops over the datasets *)

Lemma foldM_insert_cons {D} (name : D → string) (call : D → result borders)
    (acc : gmap string borders) d ds :
  foldM (λ results d, r ← call d; Ok (<[name d := r]> results)) acc (d :: ds)
  = r ← call d;
    foldM (λ results d, r ← call d; Ok (<[name d := r]> results))
          (<[name d := r]> acc) ds.
Proof. rewrite foldM_cons. by destruct (call d). Qed.

(** The loop over the datasets, started with the dictionary [acc]. *)
Lemma boundaries_make_multi_loop {G M} (datasets : list (dataset_object G M)) bin_size
    radius n_angles normalize_counts normalization_mode gene_selection :
  let call := λ d : dataset_object G M,
                d_boundaries_make d bin_size radius n_angles normalize_counts
                                  normalization_mode gene_selection in
  let step := λ (results : gmap string borders) (d : dataset_object G M),
                r ← call d; Ok (<[dataset_name d := r]> results) in
  ∀ acc results,
    foldM step acc datasets = Ok results →
    (∀ name, (∀ d, d ∈ datasets → dataset_name d ≠ name) →
             results !! name = acc !! name) ∧
    (∀ d, d ∈ datasets → is_Some (results !! dataset_name d)) ∧
    (∀ name, is_Some (results !! name) →
             is_Some (acc !! name) ∨ ∃ d, d ∈ datasets ∧ dataset_name d = name) ∧
    (∀ i d, datasets !! i = Some d →
            (∀ j d', (i < j)%nat → datasets !! j = Some d' →
                     dataset_name d' ≠ dataset_name d) →
            ∃ r, call d = Ok r ∧ results !! dataset_name d = Some r).
Proof.
  intros call step.
  induction datasets as [|d0 datasets IH]; intros acc results Hrun.
  { injection Hrun as <-. split; [done|]. split; [by intros d Hd%elem_of_nil|].
    split; [by left|]. by intros i d Hd. }
  unfold step in Hrun. rewrite (foldM_insert_cons dataset_name call) in Hrun.
  apply bind_Ok in Hrun as (r0 & Hr0 & Hrun).
  destruct (IH _ _ Hrun) as (Hother & Hnamed & Hkeys & Hlast).
  assert (∀ name, (∀ d, d ∈ d0 :: datasets → dataset_name d ≠ name) →
                  results !! name = acc !! name) as Hother'.
  { intros name Hname. rewrite Hother.
    - apply lookup_insert_ne. apply Hname. by left.
    - intros d Hd. apply Hname. by right. }
  split; [done|]. split; [|split].
  - intros d Hd. apply elem_of_cons in Hd as [->|Hd]; [|by apply Hnamed].
    destruct (decide (Exists (λ d', dataset_name d' = dataset_name d0) datasets))
      as [Hex|Hno].
    + apply Exists_exists in Hex as (d' & Hd' & Heq). rewrite <- Heq.
      by apply Hnamed.
    + rewrite Hother.
      * rewrite lookup_insert_eq. by eexists.
      * intros d Hd Heq. apply Hno, Exists_exists. by exists d.
  - intros name Hsome. destruct (Hkeys name Hsome) as [Hacc|(d & Hd & Heq)].
    + destruct (decide (dataset_name d0 = name)) as [Heq|Hne].
      * right. exists d0. split; [by left|done].
      * left. by rewrite lookup_insert_ne in Hacc.
    + right. exists d. split; [by right|done].
  - intros [|i] d Hd Hlater.
    + injection Hd as <-. exists r0. split; [done|].
      rewrite Hother.
      * by rewrite lookup_insert_eq.
      * intros d' Hd'. apply list_elem_of_lookup in Hd' as [j Hj].
        apply (Hlater (S j)); [lia|done].
    + apply (Hlast i); [done|]. intros j d' Hij Hj.
      apply (Hlater (S j)); [lia|done].
Qed.

Lemma lookup_zip3 {A B C} (a : list A) (b : list B) (c : list C) i x y z :
  zip3 a b c !! i = Some (x, y, z) ↔
  a !! i = Some x ∧ b !! i = Some y ∧ c !! i = Some z.
Proof.
  unfold zip3. rewrite !lookup_zip_with.
  destruct (a !! i) as [x'|]; simpl; [|split; [done|by intros [? _]]].
  destruct (b !! i) as [y'|]; simpl; [|split; [done|by intros (_ & ? & _)]].
  destruct (c !! i) as [z'|]; simpl; [|split; [done|by intros (_ & _ & ?)]].
  split; [by intros [= -> -> ->]|by intros ([= ->] & [= ->] & [= ->])].
Qed.

Lemma length_zip3 {A B C} (a : list A) (b : list B) (c : list C) :
  length (zip3 a b c) = ((length a `min` length b) `min` length c)%nat.
Proof. unfold zip3. by rewrite !length_zip_with. Qed.

(** ** The rational square root of the examples *)

Lemma Qsqrt_newton_proper x y : (x == y)%Q → Qsqrt_newton x = Qsqrt_newton y.
Proof.
  intros Hxy. unfold Qsqrt_newton. generalize 6%nat. intros n.
  induction n as [|n IH]; simpl.
  - apply Qred_complete. by rewrite Hxy.
  - rewrite IH. apply Qred_complete. by rewrite Hxy.
Qed.

Lemma approx_sqrt_proper x y :
  (x == y)%Q → (@np_sqrt approx_float x == @np_sqrt approx_float y)%Q.
Proof.
  intros Hxy. simpl. rewrite (Qsqrt_newton_proper x y Hxy).
  destruct (Qle_bool x 0) eqn:Hx, (Qle_bool y 0) eqn:Hy; try reflexivity.
  - apply Qle_bool_iff in Hx. rewrite Hxy in Hx. apply Qle_bool_iff in Hx.
    congruence.
  - apply Qle_bool_iff in Hy. rewrite <- Hxy in Hy. apply Qle_bool_iff in Hy.
    congruence.
Qed.

(** ** Element-wise operations: the cells of the result *)

Lemma map2_checked_lookup {A B C} (f : A → B → result C) a b c :
  map2_checked f a b = Ok c →
  ∀ i, (is_Some (a !! i) ↔ is_Some (b !! i)) ∧
       (is_Some (c !! i) ↔ is_Some (a !! i)) ∧
       ∀ x y, a !! i = Some x → b !! i = Some y →
              ∃ z, c !! i = Some z ∧ f x y = Ok z.
Proof.
  intros Hc i. destruct (map2_checked_Ok _ _ _ _ Hc) as (Hab & Hca & Hcells).
  split; [by rewrite !lookup_lt_is_Some, Hab|].
  split; [by rewrite !lookup_lt_is_Some, Hca|].
  apply Hcells.
Qed.

Lemma elementwise3_lookup {A B C} (f : A → B → C) a b c :
  elementwise3 f a b = Ok c →
  ∀ g i j,
    (is_Some (lookup3 a g i j) ↔ is_Some (lookup3 b g i j)) ∧
    lookup3 c g i j = match lookup3 a g i j, lookup3 b g i j with
                      | Some x, Some y => Some (f x y)
                      | _, _ => None
                      end.
Proof.
  unfold elementwise3, lookup3. intros Hc g i j.
  destruct (map2_checked_lookup _ _ _ _ Hc g) as (Hab1 & Hca1 & Hc1).
  destruct (a !! g) as [am|] eqn:Ham; simpl.
  2:{ destruct (b !! g) as [bm|]; [destruct Hab1 as [_ Hab1]; by destruct Hab1|].
      simpl. split; [done|].
      destruct (c !! g) as [cm|]; [destruct Hca1 as [Hca1 _]; by destruct Hca1|].
      done. }
  destruct (b !! g) as [bm|] eqn:Hbm; [|destruct Hab1 as [Hab1 _]; by destruct Hab1].
  simpl. destruct (Hc1 _ _ eq_refl eq_refl) as (cm & -> & Hm). simpl.
  destruct (map2_checked_lookup _ _ _ _ Hm i) as (Hab2 & Hca2 & Hc2).
  destruct (am !! i) as [ar|] eqn:Har; simpl.
  2:{ destruct (bm !! i) as [br|]; [destruct Hab2 as [_ Hab2]; by destruct Hab2|].
      simpl. split; [done|].
      destruct (cm !! i) as [cr|]; [destruct Hca2 as [Hca2 _]; by destruct Hca2|].
      done. }
  destruct (bm !! i) as [br|] eqn:Hbr; [|destruct Hab2 as [Hab2 _]; by destruct Hab2].
  simpl. destruct (Hc2 _ _ eq_refl eq_refl) as (cr & -> & Hr). simpl.
  destruct (map2_checked_lookup _ _ _ _ Hr j) as (Hab3 & Hca3 & Hc3).
  split; [done|].
  destruct (ar !! j) as [x|] eqn:Hx.
  2:{ destruct (cr !! j) as [z|]; [destruct Hca3 as [Hca3 _]; by destruct Hca3|].
      done. }
  destruct (br !! j) as [y|] eqn:Hy; [|destruct Hab3 as [Hab3 _]; by destruct Hab3].
  destruct (Hc3 _ _ eq_refl eq_refl) as (z & -> & [= <-]). done.
Qed.

(** The normalised stacks cell by cell: every cell of the above stack has
    its cell in both new stacks, and the new stacks have no other cells. *)
Lemma normalized_stacks_replaced cm_norm n_angles count_matrix
    stack stack_other stack' stack_other' :
  zero_where_empty count_matrix stack →
  elementwise3 Z.sub (repeat_axis2 count_matrix n_angles) stack = Ok stack_other →
  normalized_stacks cm_norm n_angles stack stack_other
    (repeat_axis2 count_matrix n_angles) = Ok (stack', stack_other') →
  (∀ g i j above,
     lookup3 stack g i j = Some above →
     ∃ norm total,
       lookup2 cm_norm g i = Some norm ∧ lookup2 count_matrix g i = Some total ∧
       lookup3 stack' g i j = Some (norm * safe_fraction above total)%Q ∧
       lookup3 stack_other' g i j
       = Some (norm * safe_fraction (total - above) total)%Q) ∧
  (∀ g i j,
     (is_Some (lookup3 stack' g i j) → is_Some (lookup3 stack g i j)) ∧
     (is_Some (lookup3 stack_other' g i j) → is_Some (lookup3 stack g i j))).
Proof.
  intros Hzero Hother Hnorm. unfold normalized_stacks in Hnorm.
  apply bind_Ok in Hnorm as (frac & Hfrac & Hnorm).
  apply bind_Ok in Hnorm as (st & Hst & Hnorm).
  apply bind_Ok in Hnorm as (frac_o & Hfrac_o & Hnorm).
  apply bind_Ok in Hnorm as (st_o & Hst_o & [= <- <-]).
  pose proof (elementwise3_lookup _ _ _ _ Hother) as Eother.
  pose proof (elementwise3_lookup _ _ _ _ Hfrac) as Efrac.
  pose proof (elementwise3_lookup _ _ _ _ Hst) as Est.
  pose proof (elementwise3_lookup _ _ _ _ Hfrac_o) as Efrac_o.
  pose proof (elementwise3_lookup _ _ _ _ Hst_o) as Est_o.
  split.
  - intros g i j above Ha.
    destruct (Efrac g i j) as [Hsh Hfr]. rewrite Ha in Hsh, Hfr.
    destruct (lookup3 (repeat_axis2 count_matrix n_angles) g i j) as [total|] eqn:Ht;
      [|destruct Hsh as [Hsh _]; by destruct Hsh].
    destruct (Est g i j) as [Hsh' Hs]. rewrite Hfr in Hsh', Hs.
    destruct (lookup3 (repeat_axis2 cm_norm n_angles) g i j) as [norm|] eqn:Hn;
      [|destruct Hsh' as [_ Hsh']; by destruct Hsh'].
    destruct (Eother g i j) as [_ Ho]. rewrite Ht, Ha in Ho.
    destruct (Efrac_o g i j) as [_ Hfo]. rewrite Ho, Ht in Hfo.
    destruct (Est_o g i j) as [_ Hso]. rewrite Hn, Hfo in Hso.
    apply repeat_axis2_lookup in Hn, Ht.
    exists norm, total. split; [done|]. split; [done|].
    assert (total = 0%Z → above = 0%Z) as Hz.
    { intros ->. by eapply zero_where_empty_lookup. }
    rewrite Hs, Hso. split.
    + by rewrite nan_to_num_true_divide.
    + rewrite nan_to_num_true_divide; [done|]. intros Ht0. rewrite (Hz Ht0). lia.
  - intros g i j. split; intros Hsome.
    + destruct (Est g i j) as [_ Hs]. rewrite Hs in Hsome.
      destruct (lookup3 (repeat_axis2 cm_norm n_angles) g i j);
        [|by destruct Hsome].
      destruct (lookup3 frac g i j) eqn:Hf; [|by destruct Hsome].
      destruct (Efrac g i j) as [_ Hfr]. rewrite Hf in Hfr.
      destruct (lookup3 stack g i j); [by eexists|done].
    + destruct (Est_o g i j) as [_ Hs]. rewrite Hs in Hsome.
      destruct (lookup3 (repeat_axis2 cm_norm n_angles) g i j);
        [|by destruct Hsome].
      destruct (lookup3 frac_o g i j) eqn:Hf; [|by destruct Hsome].
      destruct (Efrac_o g i j) as [_ Hfr]. rewrite Hf in Hfr.
      destruct (lookup3 stack_other g i j) eqn:Hso; [|done].
      destruct (Eother g i j) as [_ Ho]. rewrite Hso in Ho.
      destruct (lookup3 (repeat_axis2 count_matrix n_angles) g i j); [|done].
      destruct (lookup3 stack g i j); [by eexists|done].
Qed.

(** The steps of a successful run of [boundaries_make]. *)
Lemma boundaries_make_steps `{FloatLib} `{Dataset} bin_size radius n_angles
    normalize_counts normalization_mode gene_selection b :
  boundaries_make bin_size radius n_angles normalize_counts normalization_mode
                  gene_selection = Ok b →
  ∃ angs points res count_matrix stack stack_other st st_o results2,
    angles n_angles = Ok angs ∧
    mapM get_gene (selected_genes gene_selection) = Ok points ∧
    mapM (λ p, _worker_bisect p (grid b) radius
                 ((λ a, bisect radius a None) <$> angs) n_angles) points = Ok res ∧
    mapM (mask_select (ravel (filt_grid b))) (snd <$> res) = Ok count_matrix ∧
    mapM (mask_select (ravel (filt_grid b))) (fst <$> res) = Ok stack ∧
    stack ≠ [] ∧
    elementwise3 Z.sub (repeat_axis2 count_matrix n_angles) stack = Ok stack_other ∧
    (if normalize_counts then
       cm_norm ← normalize count_matrix normalization_mode;
       normalized_stacks cm_norm n_angles stack stack_other
                         (repeat_axis2 count_matrix n_angles)
     else Ok (as_float stack, as_float stack_other)) = Ok (st, st_o) ∧
    mapM (λ i, d1 ← slice_axis1 st i;
               d2 ← slice_axis1 st_o i;
               _worker_angle n_angles d1 d2)
         (seq 0 (ncols count_matrix)) = Ok results2 ∧
    fst <$> results b = fst <$> results2.
Proof.
  unfold boundaries_make. intros Hb.
  apply bind_Ok in Hb as ([[grid0 Xi] Yi] & _ & Hb).
  apply bind_Ok in Hb as (angs & Hangs & Hb).
  apply bind_Ok in Hb as (points & Hpoints & Hb).
  apply bind_Ok in Hb as (res & Hres & Hb).
  apply bind_Ok in Hb as (mask & _ & Hb).
  apply bind_Ok in Hb as (rac & Hrac & Hb).
  apply bind_Ok in Hb as (cm & Hcm & Hb).
  apply bind_Ok in Hb as (gf & _ & Hb).
  apply bind_Ok in Hb as (stack & Hstack & Hb).
  apply bind_Ok in Hb as (stack_other & Hother & Hb).
  apply bind_Ok in Hb as ([st st_o] & Hnorm & Hb).
  apply bind_Ok in Hb as (results2 & Hr2 & Hb).
  apply bind_Ok in Hb as (angle_used & _ & Hb).
  apply bind_Ok in Hb as (results2' & Hr2' & Hb).
  apply bind_Ok in Hb as (img & _ & [= <-]). simpl.
  assert (stack = rac ∧ rac ≠ []) as [-> Hne].
  { unfold np_stack in Hstack. destruct rac as [|r0 rac]; [discriminate|].
    injection Hstack as <-. done. }
  exists angs, points, res, cm, rac, stack_other, st, st_o, results2.
  split_and!; try done.
  destruct results2 as [|x results2]; [done|].
  eapply mapM_fmap_Ok; [exact Hr2'|].
  intros [d k] [d' a] Hdk. simpl in *.
  destruct (angle_used !! k); [|done]. by injection Hdk as <- _.
Qed.

(** ** [boundaries_make]: the sign of the parameters *)

Lemma Qdiv_nonpos_r (a b : Q) : (0 <= a)%Q → (b <= 0)%Q → (a / b <= 0)%Q.
Proof.
  intros Ha Hb. unfold Qdiv.
  destruct a as [an ad], b as [bn bd]. unfold Qle, Qmult, Qinv in *. simpl in *.
  destruct bn; simpl; nia.
Qed.

Lemma Qdiv_nonpos_l (a b : Q) : (a <= 0)%Q → (0 <= b)%Q → (a / b <= 0)%Q.
Proof.
  intros Ha Hb. unfold Qdiv.
  destruct a as [an ad], b as [bn bd]. unfold Qle, Qmult, Qinv in *. simpl in *.
  destruct bn; simpl; nia.
Qed.

Lemma math_ceil_nonpos (x : Q) : (x <= 0)%Q → (math_ceil x ≤ 0)%Z.
Proof.
  intros Hx. unfold math_ceil. change 0%Z with (Qceiling 0).
  by apply Qceiling_resp_le.
Qed.

Lemma column_total_negative_radius points grid radius k :
  (radius < 0)%Q → column_total (counts_in_radius points grid radius) k = 0%Z.
Proof.
  intros Hr. unfold counts_in_radius.
  induction points as [|p points IH]; [done|].
  rewrite fmap_cons, column_total_cons, IH, list_lookup_fmap.
  destruct (grid !! k) as [g|]; [|done]. simpl.
  by rewrite in_radius_negative.
Qed.

(** A run that returns had a radius that is not negative: within a
    negative radius there is no point, and no grid point is valid. *)
Lemma boundaries_make_Ok_radius `{FloatLib} `{Dataset} bin_size radius
    n_angles normalize_counts normalization_mode gene_selection b :
  boundaries_make bin_size radius n_angles normalize_counts normalization_mode
                  gene_selection = Ok b →
  (0 <= radius)%Q.
Proof.
  intros Hb. destruct (Qlt_le_dec radius 0) as [Hneg|]; [exfalso|done].
  pose proof (boundaries_make_Ok_ceil _ _ _ _ _ _ _ Hb) as Hn.
  destruct (boundaries_make_inv _ _ _ _ _ _ _ Hb)
    as (Xi & Yi & points & Hgrid & Hshape & _ & Hmask & _).
  apply square_grid_length in Hgrid. rewrite <- Hshape in Hgrid.
  destruct (boundaries_make_results _ _ _ _ _ _ _ Hb) as (Hne & _ & _).
  destruct (boundaries_make_raster _ _ _ _ _ _ _ Hb) as [_ Hlen].
  destruct (count_true_pos (filt_grid b)) as (r & c & Hrc).
  { rewrite <- Hlen. destruct (results b); [done|simpl; lia]. }
  destruct (shape b) as [rows cols] eqn:Hs. simpl in *.
  pose proof (validity_mask_eroded_cells _ _ _ _ _ _
                (counts_in_radius_wf points _ radius _ Hgrid) Hn Hmask) as Hcells.
  rewrite get2_getZ in Hrc.
  destruct (proj1 (Hcells _ _) Hrc 0%Z 0%Z ltac:(lia)) as (_ & _ & Hcount).
  by rewrite column_total_negative_radius in Hcount.
Qed.

(** * The claims *)

(** C1, what the code does instead.  With [nx = ceil(x_extent / bin_size)]
    columns, [linspace] divides the stretched extent [nx * bin_size] into
    [nx - 1] intervals, so neighbouring grid coordinates are
    [nx * bin_size / (nx - 1)] apart, which is more than [bin_size]; the
    same holds along the other axis.  The spacing promised by the
    docstring ("bin_size: Distance between grid points") is never
    produced when an axis has two or more coordinates. *)
Theorem square_grid_spacing bin_size x_extent y_extent x_min x_max y_min y_max
    grid Xi Yi :
  (0 < bin_size)%Q →
  (x_extent == x_max - x_min)%Q →
  (y_extent == y_max - y_min)%Q →
  square_grid bin_size x_extent y_extent x_min x_max y_min y_max = Ok (grid, Xi, Yi) →
  let nx := math_ceil (x_extent / bin_size) in
  let ny := math_ceil (y_extent / bin_size) in
  (∀ r row c a b,
     Xi !! r = Some row → row !! c = Some a → row !! S c = Some b →
     (b - a == inject_Z nx * bin_size / inject_Z (nx - 1))%Q ∧ (bin_size < b - a)%Q) ∧
  (∀ r row row' c a b,
     Yi !! r = Some row → Yi !! S r = Some row' →
     row !! c = Some a → row' !! c = Some b →
     (b - a == inject_Z ny * bin_size / inject_Z (ny - 1))%Q ∧ (bin_size < b - a)%Q).
Proof.
  intros Hbin Hx Hy Hgrid nx ny.
  destruct (square_grid_inv _ _ _ _ _ _ _ _ _ _ Hgrid)
    as (_ & xi & yi & Hxi & Hyi & -> & -> & _).
  fold nx in Hxi. fold ny in Hyi. split.
  - intros r row c a b Hrow Ha Hb.
    rewrite list_lookup_fmap in Hrow.
    destruct (yi !! r); [|discriminate]. injection Hrow as <-.
    destruct (linspace_step _ _ _ _ _ _ _ Hxi Ha Hb) as [Hstep Hnx].
    destruct (stretched_step nx bin_size x_min x_max x_extent Hnx Hbin Hx)
      as [Heq Hlt].
    rewrite Hstep. split; [exact Heq|exact Hlt].
  - intros r row row' c a b Hrow Hrow' Ha Hb.
    rewrite list_lookup_fmap in Hrow, Hrow'.
    destruct (yi !! r) as [ya|] eqn:Hya; [|discriminate].
    destruct (yi !! S r) as [yb|] eqn:Hyb; [|discriminate].
    injection Hrow as <-. injection Hrow' as <-.
    rewrite list_lookup_fmap in Ha, Hb.
    destruct (xi !! c); [|discriminate].
    injection Ha as <-. injection Hb as <-.
    destruct (linspace_step _ _ _ _ _ _ _ Hyi Hya Hyb) as [Hstep Hny].
    destruct (stretched_step ny bin_size y_min y_max y_extent Hny Hbin Hy)
      as [Heq Hlt].
    rewrite Hstep. split; [exact Heq|exact Hlt].
Qed.



(** C3, counterexample: a negative [bin_size] whose magnitude exceeds the
    extent is accepted by [square_grid], which returns an empty grid; and
    with [radius = 0] a run of [boundaries_make] builds its grid and
    fails only at the end, with the [IndexError] of the column index on
    the empty result array. *)
Lemma square_grid_negative_bin_size_accepted :
  (-100 <= 0)%Q ∧ square_grid (-100) 10 10 0 10 0 10 = Ok ([], [], []) ∧
  (0 <= 0)%Q ∧
  is_Ok (square_grid 1 (@x_extent example_dataset) (@y_extent example_dataset)
                     (@x_min example_dataset) (@x_max example_dataset)
                     (@y_min example_dataset) (@y_max example_dataset)) ∧
  @boundaries_make approx_float example_dataset 1 0 2 false tt None
  = Raise IndexError.
Proof.
  split; [done|]. split; [vm_compute; reflexivity|]. split; [done|].
  split; [eexists; vm_compute; reflexivity|]. vm_compute. reflexivity.
Qed.

(** C3, as the code behaves.  No parameter is checked, yet a call of
    [boundaries_make] with a non-positive [bin_size] or a non-positive
    [radius] never returns a result: it raises, from the division by
    [bin_size], from [np.linspace], from the spatial query or, after all
    the counting, from the column index on the empty result array.
    [square_grid] on its own raises for [bin_size = 0]. *)
Theorem boundaries_make_nonpositive_raises `{FloatLib} `{Dataset} bin_size radius
    n_angles normalize_counts normalization_mode gene_selection
    xe ye xmin xmax ymin ymax :
  (bin_size <= 0 ∨ radius <= 0)%Q →
  raises (boundaries_make bin_size radius n_angles normalize_counts
                          normalization_mode gene_selection) ∧
  ((bin_size == 0)%Q → raises (square_grid bin_size xe ye xmin xmax ymin ymax)).
Proof.
  intros Hnonpos. split.
  - apply not_Ok_raises. intros b Hb.
    pose proof (boundaries_make_Ok_ceil _ _ _ _ _ _ _ Hb) as Hn.
    pose proof (boundaries_make_Ok_radius _ _ _ _ _ _ _ Hb) as Hr.
    assert (radius / bin_size <= 0)%Q as Hq.
    { destruct Hnonpos as [Hbin|Hrad].
      - by apply Qdiv_nonpos_r.
      - destruct (Qlt_le_dec bin_size 0) as [Hbin|Hbin].
        + apply Qdiv_nonpos_r; [done|lra].
        + by apply Qdiv_nonpos_l. }
    apply math_ceil_nonpos in Hq. lia.
  - intros Hzero. unfold square_grid.
    destruct (proj2 (py_div_raises xe bin_size) Hzero) as [e ->]. by eexists.
Qed.

(** C4, counterexample: on an empty point set the worker raises instead of
    returning zeros. *)
Lemma worker_bisect_empty_points_example :
  _worker_bisect [] [(0, 0)%Q] 1 [((1, 0), (-1, 0))%Q] 1 = Raise ValueError ∧
  _worker_bisect [] [(0, 0)%Q] 1 [((1, 0), (-1, 0))%Q] 1 ≠ Ok ([[0%Z]], [0%Z]).
Proof. split; [reflexivity|discriminate]. Qed.

(** C4, as the code behaves: whatever the grid, the radius and the lines,
    an empty point set makes the worker raise the [ValueError] of the
    spatial index, and the exception reaches the caller of
    [boundaries_make] when a selected gene has no molecules. *)
Theorem worker_bisect_empty_points_raise `{FloatLib} `{Dataset} :
  (∀ grid radius lines n_angles,
     _worker_bisect [] grid radius lines n_angles = Raise ValueError) ∧
  (∀ bin_size radius n_angles normalize_counts normalization_mode gene_selection g,
     g ∈ selected_genes gene_selection →
     get_gene g = Ok [] →
     raises (boundaries_make bin_size radius n_angles normalize_counts
                             normalization_mode gene_selection)).
Proof.
  split; [done|].
  intros bin_size radius n_angles nc mode gs g Hg Hempty.
  unfold boundaries_make. fold (selected_genes gs).
  destruct (square_grid _ _ _ _ _ _ _) as [[[grid0 Xi] Yi]|]; [|by eexists].
  rewrite Ok_bind.
  destruct (angles n_angles) as [angs|]; [|by eexists]. rewrite Ok_bind.
  destruct (mapM get_gene (selected_genes gs)) as [points|] eqn:Hpoints;
    [|by eexists].
  rewrite Ok_bind.
  assert ([] ∈ points) as Hin.
  { apply list_elem_of_lookup in Hg as [i Hi].
    destruct (mapM_Ok_lookup _ _ _ Hpoints) as [Hlen Hlook].
    destruct (lookup_lt_is_Some_2 points i) as [p Hp].
    { rewrite Hlen. by eapply lookup_lt_Some. }
    destruct (Hlook _ _ Hp) as (g' & Hg' & Hgp).
    assert (g' = g) as -> by congruence.
    assert (p = []) as -> by congruence.
    by eapply list_elem_of_lookup_2. }
  destruct (mapM_raises (λ p, _worker_bisect p grid0 radius
              ((λ a, bisect radius a None) <$> angs) n_angles) points [] Hin)
    as [e ->]; [by eexists|].
  by eexists.
Qed.

(** C5.  Scattering the first column of the returned results into a zero
    image of the returned shape, at the set cells of the returned mask,
    gives the returned image.  The image and the mask have the returned
    shape and there is one result row per set cell; every cell of the
    shape holds, where the mask is set, the distance of its result row (in
    row-major order) and 0 everywhere else. *)
Theorem boundaries_make_image_roundtrip `{FloatLib} `{Dataset} bin_size radius
    n_angles normalize_counts normalization_mode gene_selection b :
  boundaries_make bin_size radius n_angles normalize_counts normalization_mode
                  gene_selection = Ok b →
  mask_assign2 (replicate (shape b).1 (replicate (shape b).2 0%Q)) (filt_grid b)
               (fst <$> results b) = Ok (image b) ∧
  length (results b) = count_true (filt_grid b) ∧
  has_shape (filt_grid b) (shape b).1 (shape b).2 ∧
  has_shape (image b) (shape b).1 (shape b).2 ∧
  ∀ r c,
    (r < (shape b).1)%nat → (c < (shape b).2)%nat →
    ∃ v,
      lookup2 (image b) r c = Some v ∧
      ((get2 (filt_grid b) r c = true ∧
        (fst <$> results b) !! rank (filt_grid b) r c = Some v) ∨
       (get2 (filt_grid b) r c = false ∧ v = 0%Q)).
Proof.
  intros Hb.
  destruct (boundaries_make_raster _ _ _ _ _ _ _ Hb) as [Himg Hlen].
  destruct (boundaries_make_has_shape _ _ _ _ _ _ _ Hb) as [Hmask Himage].
  split; [done|]. split; [done|]. split; [done|]. split; [done|].
  intros r c Hr Hc.
  destruct (has_shape_lookup2 _ _ _ r c Himage Hr Hc) as [v Hv].
  exists v. split; [done|].
  by eapply boundaries_make_image_cells.
Qed.

(** C6.  For above and below matrices of one (genes x angles) shape with
    at least one angle, [_worker_angle] returns [(m, k)] where [m] is the
    Euclidean distance at angle [k], no angle has a larger distance, and
    every angle before [k] has a strictly smaller one (first occurrence
    of the maximum). *)
Theorem worker_angle_max_argmax `{FloatLib} (n_angles : Z) (d1 d2 : list (list Q)) :
  (0 < n_angles)%Z →
  length d1 = length d2 →
  Forall (λ row, length row = Z.to_nat n_angles) d1 →
  Forall (λ row, length row = Z.to_nat n_angles) d2 →
  ∃ m k,
    _worker_angle n_angles d1 d2 = Ok (m, k) ∧
    (k < Z.to_nat n_angles)%nat ∧
    m = angle_distance d1 d2 k ∧
    (∀ j, (j < Z.to_nat n_angles)%nat → (angle_distance d1 d2 j <= m)%Q) ∧
    (∀ j, (j < k)%nat → (angle_distance d1 d2 j < m)%Q).
Proof.
  intros Hn Hlen H1 H2. unfold _worker_angle, np_zeros1.
  destruct (Z.ltb_spec n_angles 0); [lia|]. rewrite !Ok_bind.
  set (n := Z.to_nat n_angles).
  rewrite (foldM_ext _
    (λ dist j, d ← (column d1 j ≫= λ u, column d2 j ≫= λ v, euclidean u v);
               setitem1 dist j d)).
  2:{ intros s j _. destruct (column d1 j); [|done]. simpl.
      destruct (column d2 j); [|done]. done. }
  destruct (foldM_fill
    (λ j, column d1 j ≫= λ u, column d2 j ≫= λ v, euclidean u v)
    (angle_distance d1 d2) n n 0%nat (replicate n 0%Q))
    as (dist & -> & Hdlen & Hdist).
  { apply length_replicate. }
  { lia. }
  { intros j Hj. apply worker_angle_column_distance; [done| |].
    - eapply Forall_impl; [exact H1|]. simpl. intros row ->. fold n. lia.
    - eapply Forall_impl; [exact H2|]. simpl. intros row ->. fold n. lia. }
  rewrite Ok_bind.
  destruct (np_max_argmax dist) as (m & k & -> & -> & Hk & Hle & Hlt).
  { intros ->. simpl in Hdlen. lia. }
  rewrite !Ok_bind. exists m, k.
  assert (∀ j, (j < n)%nat → dist !! j = Some (angle_distance d1 d2 j)) as Hd.
  { intros j Hj. rewrite Hdist. rewrite decide_True; [done|lia]. }
  apply lookup_lt_Some in Hk as Hkn. rewrite Hdlen in Hkn.
  split_and!; [done|done| | |].
  - rewrite Hd in Hk by done. congruence.
  - intros j Hj. eapply Hle, Hd, Hj.
  - intros j Hj. eapply Hlt; [exact Hj|]. apply Hd. lia.
Qed.

(** C7.  A run of [boundaries_make] with normalisation that returns has
    normalised the filtered totals and replaced the two stacks: every cell
    of the above stack has its cell in the new above stack, which is the
    normalised count of its gene and grid point times [above / total],
    and in the new below stack, which is that count times
    [(total - above) / total]; where the total is 0 the fraction is 0.
    The new stacks have no other cells, and they are what the angle
    worker is run on to give the returned distances. *)
Theorem normalized_stacks_formula `{FloatLib} `{Dataset} bin_size radius n_angles
    normalization_mode gene_selection b :
  boundaries_make bin_size radius n_angles true normalization_mode gene_selection
    = Ok b →
  ∃ angs points res count_matrix stack cm_norm stack' stack_other' results2,
    angles n_angles = Ok angs ∧
    mapM get_gene (selected_genes gene_selection) = Ok points ∧
    mapM (λ p, _worker_bisect p (grid b) radius
                 ((λ a, bisect radius a None) <$> angs) n_angles) points = Ok res ∧
    mapM (mask_select (ravel (filt_grid b))) (snd <$> res) = Ok count_matrix ∧
    mapM (mask_select (ravel (filt_grid b))) (fst <$> res) = Ok stack ∧
    stack ≠ [] ∧
    normalize count_matrix normalization_mode = Ok cm_norm ∧
    (∀ g i j above,
       lookup3 stack g i j = Some above →
       ∃ norm total,
         lookup2 cm_norm g i = Some norm ∧ lookup2 count_matrix g i = Some total ∧
         lookup3 stack' g i j = Some (norm * safe_fraction above total)%Q ∧
         lookup3 stack_other' g i j
         = Some (norm * safe_fraction (total - above) total)%Q) ∧
    (∀ g i j,
       (is_Some (lookup3 stack' g i j) → is_Some (lookup3 stack g i j)) ∧
       (is_Some (lookup3 stack_other' g i j) → is_Some (lookup3 stack g i j))) ∧
    mapM (λ i, d1 ← slice_axis1 stack' i;
               d2 ← slice_axis1 stack_other' i;
               _worker_angle n_angles d1 d2)
         (seq 0 (ncols count_matrix)) = Ok results2 ∧
    fst <$> results b = fst <$> results2.
Proof.
  intros Hb.
  destruct (boundaries_make_steps _ _ _ _ _ _ _ Hb)
    as (angs & points & res & cm & stack & stack_other & st & st_o & results2 &
        Hangs & Hpoints & Hres & Hcm & Hstack & Hne & Hother & Hnorm & Hr2 & Hfst).
  apply bind_Ok in Hnorm as (cm_norm & Hcm_norm & Hnorm).
  assert (zero_where_empty cm stack) as Hzero.
  { eapply filtered_counts_zero_where_empty; [exact Hres|exact Hstack|exact Hcm|].
    unfold np_stack. by destruct stack. }
  destruct (normalized_stacks_replaced _ _ _ _ _ _ _ Hzero Hother Hnorm)
    as [Hcells Honly].
  exists angs, points, res, cm, stack, cm_norm, st, st_o, results2.
  split_and!; done.
Qed.

(** C8.  On a non-empty point set and a non-empty grid, with at most one
    line per angle, the radius query and the worker return; a grid point
    whose radius query finds no point has an all-zero row in the
    above-count matrix and the total count 0. *)
Theorem worker_bisect_zero_row points grid radius lines n_angles :
  points ≠ [] →
  grid ≠ [] →
  (0 ≤ n_angles)%Z →
  (length lines ≤ Z.to_nat n_angles)%nat →
  ∃ index angle_counts count,
    query_radius points grid radius = Ok index ∧
    length index = length grid ∧
    _worker_bisect points grid radius lines n_angles = Ok (angle_counts, count) ∧
    ∀ i, index !! i = Some [] →
         angle_counts !! i = Some (replicate (Z.to_nat n_angles) 0%Z) ∧
         count !! i = Some 0%Z.
Proof.
  intros Hne Hgrid Hn Hlines.
  destruct (query_radius_is_Ok points grid radius Hgrid) as [index Hindex].
  rewrite worker_bisect_unfold by done.
  destruct (Z.ltb_spec n_angles 0); [lia|].
  destruct (mapM_is_Ok (angle_counts_row points radius lines n_angles) grid)
    as [rows Hrows].
  { intros g _. unfold angle_counts_row.
    destruct (decide _); [|by eexists].
    rewrite decide_True by lia. by eexists. }
  rewrite Hrows, Ok_bind. exists index. eexists _, _.
  split; [done|]. split.
  { apply query_radius_Ok in Hindex as [_ ->]. by rewrite length_fmap. }
  split; [done|].
  intros i Hi. destruct (query_radius_lookup _ _ _ _ _ _ Hindex Hi) as (g & Hg & Hlen).
  destruct (mapM_Ok_lookup _ _ _ Hrows) as [Hlenrows Hlook].
  simpl in Hlen. symmetry in Hlen. apply length_zero_iff_nil in Hlen.
  split.
  - destruct (lookup_lt_is_Some_2 rows i) as [row Hrow].
    { rewrite Hlenrows. by eapply lookup_lt_Some. }
    destruct (Hlook _ _ Hrow) as (g' & Hg' & Hrowg).
    rewrite Hg in Hg'. injection Hg' as <-.
    unfold angle_counts_row in Hrowg. rewrite Hlen in Hrowg.
    simpl in Hrowg. by injection Hrowg as <-.
  - rewrite list_lookup_fmap, Hg. simpl. by rewrite Hlen.
Qed.

(** C9.  When the mask has the shape of the image, the scikit-image
    routines keep that shape, and the texture descriptor yields finite
    values or not-a-number, the worker returns an image of the same shape
    in which every pixel outside the mask is not-a-number and every pixel
    inside the mask is a finite number. *)
Theorem LBP_worker_mask `{TextureLib} img mask h_factor patch_size patch_distance
    n_points radius :
  let denoise := denoise_nl_means img (inject_Z h_factor * estimate_sigma img)%Q
                   (estimate_sigma img) patch_size patch_distance in
  let denoise0 := zip_with (zip_with (λ x (b : bool), if b then 0%Q else x))
                           denoise (invert mask) in
  let lbp := local_binary_pattern denoise0 n_points radius in
  same_shape img mask →
  same_shape denoise img →
  same_shape lbp denoise0 →
  Forall (Forall (λ x, x ≠ PInf ∧ x ≠ NInf)) lbp →
  ∃ out,
    _LBP_worker img mask h_factor patch_size patch_distance n_points radius = Ok out ∧
    same_shape out mask ∧
    ∀ r c (b : bool),
      lookup2 mask r c = Some b →
      ∃ x, lookup2 out r c = Some x ∧
           if b then ∃ q, x = Fin q else x = NaN.
Proof.
  intros denoise denoise0 lbp Hmask Hden Hlbp Hfin.
  assert (same_shape denoise (invert mask)) as Hs1.
  { apply same_shape_alt. apply same_shape_alt in Hden, Hmask.
    pose proof (same_shape_invert mask) as Hi. apply same_shape_alt in Hi.
    congruence. }
  assert (same_shape denoise0 (invert mask)) as Hs2 by by apply mask_fill2_shape.
  assert (same_shape lbp (invert mask)) as Hs3.
  { apply same_shape_alt. apply same_shape_alt in Hlbp, Hs2. congruence. }
  assert (same_shape lbp (np_isnan lbp)) as Hs4.
  { apply same_shape_alt. pose proof (same_shape_isnan lbp) as Hn.
    by apply same_shape_alt in Hn. }
  set (lbp1 := zip_with (zip_with (λ x (b : bool), if b then Fin 0 else x))
                        lbp (np_isnan lbp)).
  assert (same_shape lbp1 (invert mask)) as Hs5.
  { apply same_shape_alt. pose proof (mask_fill2_shape lbp _ (Fin 0) Hs4) as Hn.
    pose proof (same_shape_isnan lbp) as Hn'.
    apply same_shape_alt in Hn, Hn', Hs3. fold lbp1 in Hn. congruence. }
  eexists. split.
  { unfold _LBP_worker. fold denoise.
    rewrite (mask_fill2_Ok denoise) by done. rewrite Ok_bind. fold denoise0 lbp.
    rewrite (mask_fill2_Ok lbp) by done. rewrite Ok_bind. fold lbp1.
    rewrite (mask_fill2_Ok lbp1) by done. rewrite Ok_bind. done. }
  split.
  { apply same_shape_alt.
    pose proof (mask_fill2_shape lbp1 _ NaN Hs5) as Hn.
    pose proof (same_shape_invert mask) as Hi.
    apply same_shape_alt in Hn, Hi. congruence. }
  intros r c b Hb.
  rewrite lookup2_zip_with, lookup2_invert, Hb. simpl.
  assert (∃ x, lookup2 lbp r c = Some x) as [x Hx].
  { apply (same_shape_lookup2 lbp (invert mask) r c (negb b)); [done|].
    by rewrite lookup2_invert, Hb. }
  unfold lbp1. rewrite lookup2_zip_with, lookup2_isnan, Hx. simpl.
  eexists. split; [done|].
  destruct b; simpl; [|done].
  assert (x ≠ PInf ∧ x ≠ NInf) as [Hp Hn].
  { unfold lookup2 in Hx. destruct (lbp !! r) as [row|] eqn:Hrow; [|done].
    simpl in Hx. rewrite Forall_forall in Hfin.
    pose proof (Hfin row (list_elem_of_lookup_2 _ _ _ Hrow)) as Hrowfin.
    rewrite Forall_forall in Hrowfin.
    exact (Hrowfin x (list_elem_of_lookup_2 _ _ _ Hx)). }
  destruct x; simpl; eauto; done.
Qed.

(** C10, counterexample: [2^31] points above the line.  The total count
    is [2^31], but the count stored in the [int32] matrix has wrapped
    around to [-2^31]. *)
Lemma worker_bisect_int32_wrap :
  ∃ angle_counts count,
    _worker_bisect (replicate (Z.to_nat (2 ^ 31)) (0, -1)%Q) [(0, 0)%Q] 1
                   [((1, 0), (-1, 0))%Q] 1 = Ok (angle_counts, count) ∧
    angle_counts !! 0%nat = Some [(-2147483648)%Z] ∧
    count !! 0%nat = Some 2147483648%Z ∧
    ¬ (0 ≤ -2147483648 ≤ 2147483648)%Z.
Proof.
  eexists _, _. split_and!.
  - apply worker_bisect_replicate; [lia|reflexivity|reflexivity].
  - rewrite Z2Nat.id by lia. reflexivity.
  - rewrite Z2Nat.id by lia. reflexivity.
  - lia.
Qed.

(** C10, as the code behaves: for a point set of fewer than [2^31] points
    (so that no count wraps around in the [int32] matrix) every returned
    above count lies between 0 and the total count of its grid point. *)
Theorem worker_bisect_counts_bounded points grid radius lines n_angles
    angle_counts count :
  (Z.of_nat (length points) < 2 ^ 31)%Z →
  _worker_bisect points grid radius lines n_angles = Ok (angle_counts, count) →
  ∀ i j row a c,
    angle_counts !! i = Some row → row !! j = Some a → count !! i = Some c →
    (0 ≤ a ≤ c)%Z.
Proof.
  intros Hsize Hw.
  apply worker_bisect_Ok in Hw as (_ & _ & _ & Hrows & ->).
  destruct (mapM_Ok_lookup _ _ _ Hrows) as [_ Hlook].
  intros i j row a c Hrow Ha Hc.
  destruct (Hlook _ _ Hrow) as (g & Hg & Hrowg).
  rewrite list_lookup_fmap, Hg in Hc. injection Hc as <-.
  unfold angle_counts_row in Hrowg.
  destruct (decide (0 < _)%nat) as [Hpos|Hzero].
  - destruct (decide (length lines ≤ _)%nat); [|done].
    injection Hrowg as <-.
    apply lookup_app_Some in Ha as [Ha|[_ Ha]].
    + rewrite list_lookup_fmap in Ha.
      destruct (lines !! j) as [ln|]; [|done]. injection Ha as <-.
      destruct (count_above_bounds points g radius ln) as [Hb Hle].
      rewrite to_int32_small; lia.
    + apply lookup_replicate in Ha as [-> _]. lia.
  - injection Hrowg as <-. apply lookup_replicate in Ha as [-> _]. lia.
Qed.

(** * Further properties of the code *)

(** X1.  The grid of [square_grid] is the row-major product of two
    coordinate vectors [xi] and [yi]: it has [len xi * len yi] points,
    [Xi] and [Yi] have [len yi] rows of [len xi] cells, and point
    [r * len xi + c] is [(xi[c], yi[r])], which is also cell [(r, c)] of
    [Xi] and of [Yi]. *)
Theorem square_grid_layout bin_size x_extent y_extent x_min x_max y_min y_max
    grid Xi Yi :
  square_grid bin_size x_extent y_extent x_min x_max y_min y_max = Ok (grid, Xi, Yi) →
  ∃ xi yi,
    length grid = (length xi * length yi)%nat ∧
    has_shape Xi (length yi) (length xi) ∧
    has_shape Yi (length yi) (length xi) ∧
    ∀ r c x y,
      xi !! c = Some x → yi !! r = Some y →
      grid !! (r * length xi + c)%nat = Some (x, y) ∧
      lookup2 Xi r c = Some x ∧ lookup2 Yi r c = Some y.
Proof.
  intros Hg.
  destruct (square_grid_inv _ _ _ _ _ _ _ _ _ _ Hg)
    as (_ & xi & yi & _ & _ & -> & -> & ->).
  assert (Forall (λ row : list Q, length row = length xi) ((λ _, xi) <$> yi)) as HX.
  { apply Forall_fmap, Forall_true. intros y. simpl. done. }
  assert (Forall (λ row : list Q, length row = length xi)
            ((λ y, (λ _, y) <$> xi) <$> yi)) as HY.
  { apply Forall_fmap, Forall_true. intros y. simpl. by rewrite length_fmap. }
  exists xi, yi. split_and!.
  - unfold column_stack, ravel. rewrite length_zip_with.
    rewrite length_concat_const, (length_concat_rows (λ y, y)). lia.
  - split; [by rewrite length_fmap|done].
  - split; [by rewrite length_fmap|done].
  - intros r c x y Hx Hy.
    apply lookup_lt_Some in Hx as Hc.
    assert (lookup2 ((λ _, xi) <$> yi) r c = Some x) as HXi.
    { unfold lookup2. rewrite list_lookup_fmap, Hy. simpl. done. }
    assert (lookup2 ((λ y, (λ _, y) <$> xi) <$> yi) r c = Some y) as HYi.
    { unfold lookup2. rewrite list_lookup_fmap, Hy. simpl.
      by rewrite list_lookup_fmap, Hx. }
    split; [|done].
    unfold column_stack, ravel. rewrite lookup_zip_with.
    rewrite (concat_lookup_uniform _ _ HX r c Hc).
    rewrite (concat_lookup_uniform _ _ HY r c Hc).
    unfold lookup2 in HXi, HYi. rewrite HXi, HYi. done.
Qed.


(** X3.  The tested angles exist exactly for a positive number of angles
    (zero divides by zero, a negative number is refused by [linspace]);
    there are [n_angles] of them, angle [k] is [k * 180 / n_angles], and
    all lie in the half turn from 0 (inclusive) to 180 (exclusive). *)
Theorem angles_evenly_spaced (n_angles : Z) :
  (is_Ok (angles n_angles) ↔ (1 ≤ n_angles)%Z) ∧
  ∀ l, angles n_angles = Ok l →
       length l = Z.to_nat n_angles ∧
       ∀ (k : nat) a, l !! k = Some a →
         (a == inject_Z (Z.of_nat k) * 180 / inject_Z n_angles)%Q ∧
         (0 <= a)%Q ∧ (a < 180)%Q.
Proof.
  split.
  - split; [|apply angles_is_Ok].
    intros [l Hl]. by apply angles_lookup in Hl as [? _].
  - intros l Hl. destruct (angles_lookup _ _ Hl) as (Hn & Hlen & Hlook).
    split; [done|]. intros k a Ha.
    apply lookup_lt_Some in Ha as Hk. pose proof (Hlook k a Ha) as Heq.
    split; [done|]. rewrite Heq.
    assert (0 < inject_Z n_angles)%Q as Hpos by (apply inject_Z_pos; lia).
    assert (0 <= inject_Z (Z.of_nat k))%Q as Hk0.
    { change 0%Q with (inject_Z 0). rewrite <- Zle_Qle. lia. }
    assert (inject_Z (Z.of_nat k) < inject_Z n_angles)%Q as Hkn.
    { rewrite <- Zlt_Qlt. lia. }
    split.
    + apply Qle_shift_div_l; [done|]. lra.
    + apply Qlt_shift_div_r; [done|]. lra.
Qed.

(** X5.  When the counting worker returns, both outputs have one entry per
    grid point and every row of the above counts has [n_angles] cells; the
    total of a grid point is the number of points within the radius
    (boundary included), cell [j] of its row is the number of those points
    above line [j], as stored in 32 bits, and the cells of a row beyond
    the last line are 0. *)
Theorem worker_bisect_cells points grid radius lines n_angles angle_counts count :
  _worker_bisect points grid radius lines n_angles = Ok (angle_counts, count) →
  length count = length grid ∧
  length angle_counts = length grid ∧
  ∀ i g,
    grid !! i = Some g →
    count !! i = Some (Z.of_nat (length (in_radius points g radius))) ∧
    ∃ row,
      angle_counts !! i = Some row ∧
      length row = Z.to_nat n_angles ∧
      ∀ j, (j < Z.to_nat n_angles)%nat →
           row !! j = Some match lines !! j with
                           | Some l => to_int32 (count_above points g radius l)
                           | None => 0%Z
                           end.
Proof.
  intros Hw. apply worker_bisect_Ok in Hw as (_ & _ & _ & Hrows & ->).
  destruct (mapM_Ok_lookup _ _ _ Hrows) as [Hlen Hlook].
  split; [by rewrite length_fmap|]. split; [done|].
  intros i g Hg. split; [by rewrite list_lookup_fmap, Hg|].
  destruct (lookup_lt_is_Some_2 angle_counts i) as [row Hrow].
  { rewrite Hlen. by eapply lookup_lt_Some. }
  exists row. split; [done|].
  destruct (Hlook _ _ Hrow) as (g' & Hg' & Hrowg).
  rewrite Hg in Hg'. injection Hg' as <-.
  unfold angle_counts_row in Hrowg.
  destruct (decide (0 < _)%nat) as [Hpos|Hzero].
  - destruct (decide (length lines ≤ _)%nat) as [Hle|]; [|done].
    injection Hrowg as <-. split.
    { rewrite length_app, length_fmap, length_replicate. lia. }
    intros j Hj. destruct (lines !! j) as [l|] eqn:Hl.
    + rewrite lookup_app_l by (rewrite length_fmap; by eapply lookup_lt_Some).
      by rewrite list_lookup_fmap, Hl.
    + apply lookup_ge_None in Hl.
      rewrite lookup_app_r by (by rewrite length_fmap).
      rewrite length_fmap. apply lookup_replicate_2. lia.
  - injection Hrowg as <-. split; [by rewrite length_replicate|].
    intros j Hj. rewrite lookup_replicate_2 by done.
    assert (in_radius points g radius = []) as Hempty.
    { apply length_zero_iff_nil. lia. }
    destruct (lines !! j); [|done].
    by rewrite to_int32_count_above_empty.
Qed.

(** X6.  The counting worker raises in exactly four cases: the point set
    is empty (the index cannot be built), the grid is empty (the query is
    rejected), [n_angles] is negative, or there are more lines than
    [n_angles] and some grid point has a point within the radius (the
    write into the row then runs past its end; without any point in reach
    the surplus lines are never looked at). *)
Theorem worker_bisect_raises_iff points grid radius lines n_angles :
  raises (_worker_bisect points grid radius lines n_angles) ↔
  points = [] ∨
  grid = [] ∨
  (n_angles < 0)%Z ∨
  ((Z.to_nat n_angles < length lines)%nat ∧
   ∃ g, g ∈ grid ∧ in_radius points g radius ≠ []).
Proof.
  destruct (decide (points = [])) as [->|Hne].
  { split; [by left|]. intros _. by eexists. }
  destruct (decide (grid = [])) as [->|Hgrid].
  { split; [by right; left|]. intros _.
    rewrite worker_bisect_empty by by right. by eexists. }
  rewrite worker_bisect_unfold by done.
  destruct (Z.ltb_spec n_angles 0) as [Hneg|Hnn].
  { split; [by right; right; left|]. intros _. by eexists. }
  assert (raises (mapM (angle_counts_row points radius lines n_angles) grid ≫=
                  λ rows, Ok (rows, (λ g, Z.of_nat (length (in_radius points g radius)))
                                      <$> grid))
          ↔ raises (mapM (angle_counts_row points radius lines n_angles) grid)) as ->.
  { destruct (mapM _ grid) as [rows|err].
    - split; intros [err' Herr]; discriminate Herr.
    - split; intros _; by eexists. }
  rewrite mapM_raises_iff. split.
  - intros (g & Hg & Hr). right; right; right.
    unfold angle_counts_row in Hr.
    destruct (decide (0 < _)%nat) as [Hpos|]; [|by destruct Hr].
    destruct (decide (length lines ≤ _)%nat); [by destruct Hr|].
    split; [lia|]. exists g. split; [done|]. intros Hempty.
    rewrite Hempty in Hpos. simpl in Hpos. lia.
  - intros [?|[?|[?|(Hlines & g & Hg & Hnonempty)]]]; [done|done|lia|].
    exists g. split; [done|]. unfold angle_counts_row.
    rewrite decide_True.
    2:{ destruct (in_radius points g radius); [done|simpl; lia]. }
    rewrite decide_False by lia. by eexists.
Qed.

(** X7.  With a negative radius no point is in reach of any grid point:
    on a non-empty point set and a non-empty grid the worker returns
    all-zero totals and all-zero above counts, whatever the lines. *)
Theorem worker_bisect_negative_radius points grid radius lines n_angles :
  (radius < 0)%Q → points ≠ [] → grid ≠ [] → (0 ≤ n_angles)%Z →
  _worker_bisect points grid radius lines n_angles
  = Ok (replicate (length grid) (replicate (Z.to_nat n_angles) 0%Z),
        replicate (length grid) 0%Z).
Proof.
  intros Hr Hne Hgrid Hn. rewrite worker_bisect_unfold by done.
  destruct (Z.ltb_spec n_angles 0); [lia|].
  rewrite (mapM_Ok_fmap _ (λ _, replicate (Z.to_nat n_angles) 0%Z)).
  2:{ intros g _. unfold angle_counts_row. by rewrite in_radius_negative. }
  rewrite Ok_bind, fmap_const_replicate. do 2 f_equal.
  rewrite <- fmap_const_replicate. apply list_fmap_ext.
  intros _ g _. by rewrite in_radius_negative.
Qed.

(** X8.  Without angles there is no maximum: for [n_angles <= 0] the
    angle worker raises a [ValueError], whatever the matrices. *)
Theorem worker_angle_no_angles `{FloatLib} (n_angles : Z) (d1 d2 : list (list Q)) :
  (n_angles ≤ 0)%Z → _worker_angle n_angles d1 d2 = Raise ValueError.
Proof.
  intros Hn. unfold _worker_angle, np_zeros1.
  destruct (Z.ltb_spec n_angles 0); [done|].
  assert (n_angles = 0%Z) as -> by lia. reflexivity.
Qed.

(** X9.  When the two halves are identical at every angle the worker
    reports no signal: the distance is the square root of zero and the
    selected angle is the first one.  (The library square root has to give
    equal results on equal numbers.) *)
Theorem worker_angle_identical_halves `{FloatLib} (n_angles : Z) (d : list (list Q)) :
  (∀ x y, (x == y)%Q → (np_sqrt x == np_sqrt y)%Q) →
  (0 < n_angles)%Z →
  Forall (λ row, length row = Z.to_nat n_angles) d →
  ∃ m, _worker_angle n_angles d d = Ok (m, 0%nat) ∧ (m == np_sqrt 0)%Q.
Proof.
  intros Hsqrt Hn Hd.
  destruct (worker_angle_first_max n_angles d d Hn eq_refl Hd Hd)
    as (m & k & Hw & Hk & Hle & Hlt).
  assert (∀ j, (angle_distance d d j == np_sqrt 0)%Q) as Hdist.
  { intros j. unfold angle_distance. apply Hsqrt, sum_squares_zero. }
  rewrite list_lookup_fmap in Hk.
  destruct (seq 0 (Z.to_nat n_angles) !! k) as [k'|] eqn:Hk'; [|done].
  injection Hk as <-.
  assert (k = 0%nat) as ->.
  { destruct k as [|k]; [done|]. exfalso.
    assert (angle_distance d d 0 < angle_distance d d k')%Q as Hcontra.
    { apply (Hlt 0%nat); [lia|].
      rewrite list_lookup_fmap, lookup_seq_lt by lia. done. }
    rewrite !Hdist in Hcontra. lra. }
  eexists. split; [exact Hw|]. apply Hdist.
Qed.

(** X10.  A run of [boundaries_make] never returns an empty result: when
    it returns there is at least one valid grid point, and the result
    rows, the valid grid points and the set cells of the mask are equally
    many. *)
Theorem boundaries_make_never_empty `{FloatLib} `{Dataset} bin_size radius n_angles
    normalize_counts normalization_mode gene_selection b :
  boundaries_make bin_size radius n_angles normalize_counts normalization_mode
                  gene_selection = Ok b →
  (0 < length (results b))%nat ∧
  length (grid_filt b) = length (results b) ∧
  count_true (filt_grid b) = length (results b) ∧
  ∃ r c, get2 (filt_grid b) r c = true.
Proof.
  intros Hb.
  destruct (boundaries_make_results _ _ _ _ _ _ _ Hb) as (Hne & Hgf & _).
  destruct (boundaries_make_raster _ _ _ _ _ _ _ Hb) as [_ Hlen].
  assert (0 < length (results b))%nat as Hpos.
  { destruct (results b); [done|simpl; lia]. }
  split; [done|]. split; [lia|]. split; [done|].
  apply count_true_pos. lia.
Qed.

(** X11.  Every angle that [boundaries_make] returns is one of the tested
    angles: the second component of a result row is [j * 180 / n_angles]
    for some [j] below [n_angles]. *)
Theorem boundaries_make_angles_tested `{FloatLib} `{Dataset} bin_size radius n_angles
    normalize_counts normalization_mode gene_selection b :
  boundaries_make bin_size radius n_angles normalize_counts normalization_mode
                  gene_selection = Ok b →
  ∀ k d a,
    results b !! k = Some (d, a) →
    ∃ j : nat, (Z.of_nat j < n_angles)%Z ∧
               (a == inject_Z (Z.of_nat j) * 180 / inject_Z n_angles)%Q.
Proof.
  intros Hb k d a Hk.
  destruct (boundaries_make_results _ _ _ _ _ _ _ Hb)
    as (_ & _ & angle_used & Hangles & Hlook).
  destruct (Hlook _ _ Hk) as [j Hj]. simpl in Hj.
  destruct (angles_lookup _ _ Hangles) as (Hn & Hlen & Hformula).
  exists j. split; [|by apply Hformula].
  apply lookup_lt_Some in Hj. lia.
Qed.

(** X12.  Without a positive number of angles, or without genes to work
    on, [boundaries_make] raises: it never returns a result. *)
Theorem boundaries_make_degenerate_raises `{FloatLib} `{Dataset} bin_size radius
    n_angles normalize_counts normalization_mode gene_selection :
  (n_angles ≤ 0)%Z ∨ selected_genes gene_selection = [] →
  raises (boundaries_make bin_size radius n_angles normalize_counts
                          normalization_mode gene_selection).
Proof.
  intros Hdeg. apply not_Ok_raises. intros b Hb.
  destruct Hdeg as [Hn|Hgenes].
  - destruct (boundaries_make_results _ _ _ _ _ _ _ Hb)
      as (_ & _ & angle_used & Hangles & _).
    apply angles_lookup in Hangles as [Hpos _]. lia.
  - destruct (boundaries_make_inv _ _ _ _ _ _ _ Hb)
      as (Xi & Yi & points & _ & _ & Hpoints & Hmask & _).
    rewrite Hgenes in Hpoints. injection Hpoints as <-.
    by apply validity_mask_Ok_nonempty in Hmask.
Qed.

(** X13.  When [ceil(radius / bin_size)] is below one (a radius of zero
    or of the opposite sign of the bin size), the erosion of the mask is
    repeated until nothing changes, which clears every cell, and
    [boundaries_make] raises: it never returns a result. *)
Theorem boundaries_make_small_radius_raises `{FloatLib} `{Dataset} bin_size radius
    n_angles normalize_counts normalization_mode gene_selection :
  (math_ceil (radius / bin_size) < 1)%Z →
  raises (boundaries_make bin_size radius n_angles normalize_counts
                          normalization_mode gene_selection).
Proof.
  intros Hit. apply not_Ok_raises. intros b Hb.
  apply boundaries_make_Ok_ceil in Hb. lia.
Qed.

(** X14.  When [boundaries_make] returns, with [n = ceil(radius /
    bin_size)] at least one, every valid cell of the mask lies at least
    [n] cells away from each border of the grid, and the grid has at
    least [2 n + 1] rows and columns: on a smaller grid the function
    raises. *)
Theorem boundaries_make_valid_cells_interior `{FloatLib} `{Dataset} bin_size radius
    n_angles normalize_counts normalization_mode gene_selection b :
  (1 ≤ math_ceil (radius / bin_size))%Z →
  boundaries_make bin_size radius n_angles normalize_counts normalization_mode
                  gene_selection = Ok b →
  let n := math_ceil (radius / bin_size) in
  (2 * n + 1 ≤ Z.of_nat (shape b).1)%Z ∧
  (2 * n + 1 ≤ Z.of_nat (shape b).2)%Z ∧
  ∀ r c : nat,
    get2 (filt_grid b) r c = true →
    (n ≤ Z.of_nat r)%Z ∧ (Z.of_nat r + n < Z.of_nat (shape b).1)%Z ∧
    (n ≤ Z.of_nat c)%Z ∧ (Z.of_nat c + n < Z.of_nat (shape b).2)%Z.
Proof.
  intros Hn Hb n.
  destruct (boundaries_make_inv _ _ _ _ _ _ _ Hb)
    as (Xi & Yi & points & Hgrid & Hshape & _ & Hmask & _).
  apply square_grid_length in Hgrid. rewrite <- Hshape in Hgrid.
  destruct (shape b) as [rows cols] eqn:Hs. simpl in *.
  pose proof (validity_mask_eroded_cells _ _ _ _ _ _
                (counts_in_radius_wf points _ radius _ Hgrid) Hn Hmask) as Hcells.
  assert (∀ r c : nat, get2 (filt_grid b) r c = true →
            (n ≤ Z.of_nat r)%Z ∧ (Z.of_nat r + n < Z.of_nat rows)%Z ∧
            (n ≤ Z.of_nat c)%Z ∧ (Z.of_nat c + n < Z.of_nat cols)%Z) as Hin.
  { intros r c Hrc. rewrite get2_getZ in Hrc.
    pose proof (proj1 (Hcells _ _) Hrc) as Hall. fold n in Hall.
    destruct (Hall (- n)%Z 0%Z ltac:(lia)) as (? & ? & _).
    destruct (Hall n 0%Z ltac:(lia)) as (? & ? & _).
    destruct (Hall 0%Z (- n)%Z ltac:(lia)) as (? & ? & _).
    destruct (Hall 0%Z n ltac:(lia)) as (? & ? & _).
    lia. }
  destruct (boundaries_make_results _ _ _ _ _ _ _ Hb) as (Hne & _ & _).
  destruct (boundaries_make_raster _ _ _ _ _ _ _ Hb) as [_ Hlen].
  destruct (count_true_pos (filt_grid b)) as (r & c & Hrc).
  { rewrite <- Hlen. destruct (results b); [done|simpl; lia]. }
  destruct (Hin r c Hrc) as (? & ? & ? & ?).
  split; [lia|]. split; [lia|]. done.
Qed.

(** X15.  The values that [boundaries_make] returns fit together: the
    grid has one point per cell of the returned shape, and the mask and
    the image are rectangular arrays of that shape. *)
Theorem boundaries_make_shapes `{FloatLib} `{Dataset} bin_size radius n_angles
    normalize_counts normalization_mode gene_selection b :
  boundaries_make bin_size radius n_angles normalize_counts normalization_mode
                  gene_selection = Ok b →
  length (grid b) = ((shape b).1 * (shape b).2)%nat ∧
  has_shape (filt_grid b) (shape b).1 (shape b).2 ∧
  has_shape (image b) (shape b).1 (shape b).2.
Proof.
  intros Hb.
  destruct (boundaries_make_inv _ _ _ _ _ _ _ Hb)
    as (Xi & Yi & points & Hgrid & Hshape & _).
  apply square_grid_length in Hgrid. rewrite <- Hshape in Hgrid.
  split; [done|]. by eapply boundaries_make_has_shape.
Qed.

(** X16.  Whatever the texture library computes, an image that the
    worker returns has the shape of the mask and is not-a-number exactly
    at the pixels outside the mask: the not-a-numbers of the descriptor
    inside the mask are replaced before the outside is blanked. *)
Theorem LBP_worker_nan_exactly_outside `{TextureLib} img mask h_factor patch_size
    patch_distance n_points radius out :
  _LBP_worker img mask h_factor patch_size patch_distance n_points radius = Ok out →
  same_shape out mask ∧
  ∀ r c : nat,
    (lookup2 mask r c = Some false → lookup2 out r c = Some NaN) ∧
    (lookup2 mask r c = Some true →
     ∃ x, lookup2 out r c = Some x ∧ x ≠ NaN).
Proof.
  intros Hw. destruct (LBP_worker_inv _ _ _ _ _ _ _ _ Hw) as [Hs Hcells].
  split; [done|]. intros r c. split; intros Hb.
  - destruct (Hcells _ _ _ Hb) as (x & Hx & Hnan). by destruct x.
  - destruct (Hcells _ _ _ Hb) as (x & Hx & Hnan). exists x. split; [done|].
    by intros ->.
Qed.

(** X18.  In an array that [boundaries_LBP_make] returns, every pixel of
    the mask holds one value per channel of the input; at a pixel outside
    the mask all of them are not-a-number and at a pixel inside the mask
    none is. *)
Theorem boundaries_LBP_make_pixels `{TextureLib} squarebin mask h_factor patch_size
    patch_distance n_points radius out :
  boundaries_LBP_make squarebin mask h_factor patch_size patch_distance n_points
                      radius = Ok out →
  ∀ r c (b : bool),
    lookup2 mask r c = Some b →
    ∃ cell,
      lookup2 out r c = Some cell ∧
      length cell = n_channels squarebin ∧
      Forall (λ x, is_nan x = negb b) cell.
Proof.
  intros Hout r c b Hb.
  destruct (boundaries_LBP_make_inv _ _ _ _ _ _ _ _ Hout)
    as (first & rest & Hlen & Hworkers & ->).
  assert (Forall (λ a, ∃ y, lookup2 a r c = Some y ∧ is_nan y = negb b)
                 (first :: rest)) as Hall.
  { apply Forall_lookup. intros g a Ha.
    destruct (Hworkers _ _ Ha) as (img & _ & Hw).
    destruct (LBP_worker_inv _ _ _ _ _ _ _ _ Hw) as [_ Hcells].
    by apply Hcells. }
  destruct (omap_total _ _ _ Hall) as (Hl & HP & _).
  apply Forall_cons in Hall as [(y & Hy & _) _].
  rewrite lookup2_imap, Hy. simpl.
  eexists. split; [done|]. split; [|done].
  rewrite <- Hlen. exact Hl.
Qed.

(** X19.  The channels of the result are in the order of the channels of
    the input: channel [g] of an array that [boundaries_LBP_make] returns
    is what the worker returns on channel [g] of the input. *)
Theorem boundaries_LBP_make_channels `{TextureLib} squarebin mask h_factor patch_size
    patch_distance n_points radius out :
  boundaries_LBP_make squarebin mask h_factor patch_size patch_distance n_points
                      radius = Ok out →
  (0 < n_channels squarebin)%nat ∧
  ∀ g, (g < n_channels squarebin)%nat →
    ∃ img lbp,
      channel squarebin g = Ok img ∧
      _LBP_worker img mask h_factor patch_size patch_distance n_points radius
      = Ok lbp ∧
      channel out g = Ok lbp.
Proof.
  intros Hout.
  destruct (boundaries_LBP_make_inv _ _ _ _ _ _ _ _ Hout)
    as (first & rest & Hlen & Hworkers & ->).
  split; [rewrite <- Hlen; simpl; lia|].
  intros g Hg. rewrite <- Hlen in Hg.
  destruct (lookup_lt_is_Some_2 _ _ Hg) as [lbp Hlbp].
  destruct (Hworkers _ _ Hlbp) as (img & Himg & Hw).
  exists img, lbp. split; [done|]. split; [done|].
  assert (∀ a, a ∈ first :: rest → same_shape a mask) as Hshape.
  { intros a Ha. apply list_elem_of_lookup in Ha as [i Hi].
    destruct (Hworkers _ _ Hi) as (img' & _ & Hw').
    by destruct (LBP_worker_inv _ _ _ _ _ _ _ _ Hw'). }
  assert (same_shape first lbp) as Hfl.
  { eapply same_shape_trans; [apply Hshape; by left|].
    apply same_shape_sym, Hshape. by eapply list_elem_of_lookup_2. }
  unfold channel. apply mapM_Forall2.
  apply Forall2_same_length_lookup_2.
  { rewrite length_imap. exact (Forall2_length _ _ _ Hfl). }
  intros r orow lrow Horow Hlrow.
  rewrite list_lookup_imap in Horow.
  destruct (first !! r) as [frow|] eqn:Hfrow; [|done].
  injection Horow as <-.
  pose proof (Forall2_lookup_lr _ _ _ _ _ _ Hfl Hfrow Hlrow) as Hrowlen.
  apply mapM_Forall2, Forall2_same_length_lookup_2.
  { by rewrite length_imap. }
  intros c cell x Hcell Hx.
  rewrite list_lookup_imap in Hcell.
  destruct (frow !! c) as [y|] eqn:Hy; [|done].
  assert (cell = omap (λ a, lookup2 a r c) (first :: rest)) as ->
    by by injection Hcell.
  assert (Forall (λ a, ∃ z, lookup2 a r c = Some z ∧ True) (first :: rest)) as Hall.
  { apply Forall_forall. intros a Ha.
    destruct (same_shape_lookup2 a first r c y) as [z Hz].
    - eapply same_shape_trans; [by apply Hshape|].
      apply same_shape_sym, Hshape. by left.
    - unfold lookup2. by rewrite Hfrow.
    - by exists z. }
  destruct (omap_total _ _ _ Hall) as (_ & _ & Hlook).
  rewrite (Hlook _ _ Hlbp). unfold lookup2. rewrite Hlrow. simpl. by rewrite Hx.
Qed.

(** X20.  [boundaries_LBP_make] returns exactly when the input has a
    channel and the worker returns on every channel: the worker results
    all have the shape of the mask, so that stacking them cannot fail.
    On an input without channels no worker runs, there is nothing to
    stack, and the call raises [ValueError]. *)
Theorem boundaries_LBP_make_returns_iff `{TextureLib} squarebin mask h_factor
    patch_size patch_distance n_points radius :
  let run := boundaries_LBP_make squarebin mask h_factor patch_size patch_distance
                                 n_points radius in
  (is_Ok run ↔
   (0 < n_channels squarebin)%nat ∧
   ∀ g, (g < n_channels squarebin)%nat →
     ∃ img, channel squarebin g = Ok img ∧
            is_Ok (_LBP_worker img mask h_factor patch_size patch_distance n_points
                               radius)) ∧
  (n_channels squarebin = 0%nat → run = Raise ValueError).
Proof.
  intros run. unfold run. split.
  2:{ intros Hz. unfold boundaries_LBP_make. by rewrite Hz. }
  split.
  - intros [out Hout].
    destruct (boundaries_LBP_make_inv _ _ _ _ _ _ _ _ Hout)
      as (first & rest & Hlen & Hworkers & _).
    split; [rewrite <- Hlen; simpl; lia|].
    intros g Hg. rewrite <- Hlen in Hg.
    destruct (lookup_lt_is_Some_2 _ _ Hg) as [lbp Hlbp].
    destruct (Hworkers _ _ Hlbp) as (img & Himg & Hw).
    exists img. split; [done|]. by exists lbp.
  - intros [Hpos Hall]. unfold boundaries_LBP_make.
    destruct (mapM_is_Ok
                (λ i, img ← channel squarebin i;
                      _LBP_worker img mask h_factor patch_size patch_distance
                                  n_points radius)
                (seq 0 (n_channels squarebin))) as [arrays Harrays].
    { intros i Hi. apply elem_of_seq in Hi.
      destruct (Hall i) as (img & -> & Hw); [lia|]. by rewrite Ok_bind. }
    rewrite Harrays, Ok_bind.
    destruct (mapM_Ok_lookup _ _ _ Harrays) as [Hlen Hlook].
    rewrite length_seq in Hlen.
    assert (∀ a, a ∈ arrays → same_shape a mask) as Hshape.
    { intros a Ha. apply list_elem_of_lookup in Ha as [i Hi].
      destruct (Hlook _ _ Hi) as (j & _ & Hw). simpl in Hw.
      apply bind_Ok in Hw as (img & _ & Hw).
      by destruct (LBP_worker_inv _ _ _ _ _ _ _ _ Hw). }
    unfold stack_axis2. destruct arrays as [|first rest]; [simpl in Hlen; lia|].
    rewrite decide_True; [by eexists|].
    apply Forall_forall. intros a Ha.
    eapply same_shape_trans; [apply Hshape; by right|].
    apply same_shape_sym, Hshape. by left.
Qed.

(** X21.  The dictionary that [boundaries_make_multi] returns has exactly
    the names of the datasets as keys, and under a name the result of the
    dataset of that name; when several datasets share a name, the last
    one of them is kept. *)
Theorem boundaries_make_multi_entries {G M} (datasets : list (dataset_object G M))
    bin_size radius n_angles normalize_counts normalization_mode gene_selection
    results :
  boundaries_make_multi datasets bin_size radius n_angles normalize_counts
                        normalization_mode gene_selection = Ok results →
  (∀ name, is_Some (results !! name) ↔
           ∃ d, d ∈ datasets ∧ dataset_name d = name) ∧
  (∀ i d, datasets !! i = Some d →
          (∀ j d', (i < j)%nat → datasets !! j = Some d' →
                   dataset_name d' ≠ dataset_name d) →
          ∃ r, d_boundaries_make d bin_size radius n_angles normalize_counts
                                 normalization_mode gene_selection = Ok r ∧
               results !! dataset_name d = Some r).
Proof.
  unfold boundaries_make_multi. intros Hrun.
  destruct (boundaries_make_multi_loop _ _ _ _ _ _ _ _ _ Hrun)
    as (_ & Hnamed & Hkeys & Hlast).
  split; [|done]. intros name. split.
  - intros Hsome. destruct (Hkeys name Hsome) as [Hempty|Hd]; [|done].
    rewrite lookup_empty in Hempty. by destruct Hempty.
  - intros (d & Hd & <-). by apply Hnamed.
Qed.

(** X22.  [boundaries_make_multi] raises exactly when [boundaries_make]
    raises on one of the datasets, and then with the exception of the
    first such dataset: no partial dictionary is returned. *)
Theorem boundaries_make_multi_raises_iff {G M} (datasets : list (dataset_object G M))
    bin_size radius n_angles normalize_counts normalization_mode gene_selection e :
  let call := λ d : dataset_object G M,
                d_boundaries_make d bin_size radius n_angles normalize_counts
                                  normalization_mode gene_selection in
  boundaries_make_multi datasets bin_size radius n_angles normalize_counts
                        normalization_mode gene_selection = Raise e ↔
  ∃ i d, datasets !! i = Some d ∧ call d = Raise e ∧
         ∀ j d', (j < i)%nat → datasets !! j = Some d' → is_Ok (call d').
Proof.
  intros call. unfold boundaries_make_multi.
  generalize (∅ : gmap string borders).
  induction datasets as [|d0 datasets IH]; intros acc.
  { split; [done|]. by intros (i & d & Hd & _). }
  rewrite (foldM_insert_cons dataset_name call).
  destruct (call d0) as [r0|e0] eqn:Hd0.
  - rewrite Ok_bind. split.
    + intros Hrun. apply (proj1 (IH _)) in Hrun as (i & d & Hd & He & Hbefore).
      exists (S i), d.
      split; [done|]. split; [done|].
      intros [|j] d' Hj Hd'.
      * injection Hd' as <-. rewrite Hd0. by eexists.
      * apply (Hbefore j); [lia|done].
    + intros ([|i] & d & Hd & He & Hbefore).
      * injection Hd as <-. rewrite Hd0 in He. done.
      * apply (proj2 (IH _)). exists i, d. split; [done|]. split; [done|].
        intros j d' Hj Hd'. apply (Hbefore (S j)); [lia|done].
  - split.
    + intros [= <-]. exists 0%nat, d0. split; [done|]. split; [done|].
      intros j d' Hj. lia.
    + intros ([|i] & d & Hd & He & Hbefore).
      * injection Hd as <-. rewrite Hd0 in He. by injection He as <-.
      * destruct (Hbefore 0%nat d0) as [r Hr]; [lia|done|].
        rewrite Hd0 in Hr. done.
Qed.

(** X23.  [boundaries_LBP_make_multi] works on the datasets, images and
    masks in step: result [i] is what dataset [i] returns on image [i] and
    mask [i].  The three lists are not required to be equally long: the
    result has the length of the shortest, and what is beyond that in the
    longer ones is ignored. *)
Theorem boundaries_LBP_make_multi_in_step {G M} (datasets : list (dataset_object G M))
    squarebin masks h_factor patch_size patch_distance n_points radius results :
  boundaries_LBP_make_multi datasets squarebin masks h_factor patch_size
                            patch_distance n_points radius = Ok results →
  length results
  = ((length datasets `min` length squarebin) `min` length masks)%nat ∧
  ∀ i r, results !! i = Some r →
    ∃ dd img mask,
      datasets !! i = Some dd ∧ squarebin !! i = Some img ∧
      masks !! i = Some mask ∧
      d_boundaries_LBP_make dd img mask h_factor patch_size patch_distance
                            n_points radius = Ok r.
Proof.
  unfold boundaries_LBP_make_multi. intros Hrun.
  destruct (mapM_Ok_lookup _ _ _ Hrun) as [Hlen Hlook].
  split; [by rewrite Hlen, length_zip3|].
  intros i r Hr. destruct (Hlook _ _ Hr) as ([[dd img] mask] & Hi & Hcall).
  apply lookup_zip3 in Hi as (Hdd & Himg & Hmask).
  by exists dd, img, mask.
Qed.

(** X24.  For datasets whose method is [boundaries_LBP_make], every
    array that [boundaries_LBP_make_multi] returns is not-a-number in
    every channel at the pixels outside the mask of its own dataset, and
    in no channel at the pixels inside it. *)
Theorem boundaries_LBP_make_multi_masks `{TextureLib} {G M}
    (datasets : list (dataset_object G M)) squarebin masks h_factor patch_size
    patch_distance n_points radius results :
  Forall (λ dd, d_boundaries_LBP_make dd = boundaries_LBP_make) datasets →
  boundaries_LBP_make_multi datasets squarebin masks h_factor patch_size
                            patch_distance n_points radius = Ok results →
  ∀ i out mask r c (b : bool),
    results !! i = Some out → masks !! i = Some mask →
    lookup2 mask r c = Some b →
    ∃ cell, lookup2 out r c = Some cell ∧ Forall (λ x, is_nan x = negb b) cell.
Proof.
  unfold boundaries_LBP_make_multi. intros Hmeth Hrun i out mask r c b Hout Hmask Hb.
  destruct (mapM_Ok_lookup _ _ _ Hrun) as [_ Hlook].
  destruct (Hlook _ _ Hout) as ([[dd img] mask'] & Hi & Hcall).
  apply lookup_zip3 in Hi as (Hdd & Himg & Hmask').
  rewrite Hmask in Hmask'. injection Hmask' as <-.
  rewrite Forall_lookup in Hmeth. rewrite (Hmeth _ _ Hdd) in Hcall.
  destruct (boundaries_LBP_make_inv _ _ _ _ _ _ _ _ Hcall)
    as (first & rest & Hlen & Hworkers & ->).
  assert (Forall (λ a, ∃ y, lookup2 a r c = Some y ∧ is_nan y = negb b)
                 (first :: rest)) as Hall.
  { apply Forall_lookup. intros g a Ha.
    destruct (Hworkers _ _ Ha) as (img' & _ & Hw).
    destruct (LBP_worker_inv _ _ _ _ _ _ _ _ Hw) as [_ Hcells].
    by apply Hcells. }
  destruct (omap_total _ _ _ Hall) as (_ & HP & _).
  apply Forall_cons in Hall as [(y & Hy & _) _].
  rewrite lookup2_imap, Hy. simpl. by eexists.
Qed.

(** * The statements on concrete inputs *)

(** The failing input of C1: a 10 x 10 extent with [bin_size = 1] gets ten
    coordinates per axis that are 10/9 apart. *)
Lemma square_grid_spacing_witness :
  ∃ grid Xi Yi,
    square_grid 1 10 10 0 10 0 10 = Ok (grid, Xi, Yi) ∧
    (Qred <$> default [] (Xi !! 0%nat)) =
      [0; 10 # 9; 20 # 9; 10 # 3; 40 # 9; 50 # 9; 20 # 3; 70 # 9; 80 # 9; 10]%Q ∧
    (∀ r row c a b,
       Xi !! r = Some row → row !! c = Some a → row !! S c = Some b →
       (b - a == 10 # 9)%Q ∧ (1 < b - a)%Q).
Proof.
  destruct (square_grid 1 10 10 0 10 0 10) as [[[grid Xi] Yi]|] eqn:E;
    [|vm_compute in E; discriminate].
  exists grid, Xi, Yi. split; [done|]. split.
  - vm_compute in E. injection E as <- <- <-. vm_compute. reflexivity.
  - intros r row c a b Hrow Ha Hb.
    assert (0 < 1)%Q as H1 by done.
    assert (10 == 10 - 0)%Q as H2 by done.
    destruct (square_grid_spacing 1 10 10 0 10 0 10 grid Xi Yi H1 H2 H2 E)
      as [HX _].
    destruct (HX r row c a b Hrow Ha Hb) as [Heq Hlt].
    split; [|exact Hlt]. rewrite Heq. vm_compute. reflexivity.
Defined.


(** C3 on the nine-point dataset, with [bin_size = 0]. *)
Lemma boundaries_make_nonpositive_raises_witness :
  raises (@boundaries_make approx_float example_dataset 0 1 2 false tt None) ∧
  raises (square_grid 0 3 3 0 3 0 3).
Proof.
  destruct (@boundaries_make_nonpositive_raises approx_float example_dataset
              0 1 2 false tt None 3 3 0 3 0 3) as [Hmake Hgrid].
  { left. apply Qle_refl. }
  split; [exact Hmake|]. apply Hgrid. reflexivity.
Defined.

(** C4: selecting the gene without molecules makes the run
    raise. *)
Lemma worker_bisect_empty_points_raise_witness :
  _worker_bisect [] [(0, 0)%Q] 1 [((1, 0), (-1, 0))%Q] 1 = Raise ValueError ∧
  raises (@boundaries_make approx_float example_dataset 1 1 2 false tt
            (Some [0; 1]%nat)).
Proof.
  destruct (@worker_bisect_empty_points_raise approx_float example_dataset)
    as [Hworker Hmake].
  split; [apply Hworker|].
  apply (Hmake 1%Q 1%Q 2%Z false tt (Some [0; 1]%nat) 1%nat).
  - apply list_elem_of_further, list_elem_of_here.
  - reflexivity.
Defined.

(** C5 on the nine-point dataset. *)
Lemma boundaries_make_image_roundtrip_witness :
  ∃ b,
    @boundaries_make approx_float example_dataset 1 1 2 false tt None = Ok b ∧
    filt_grid b = [[false; false; false]; [false; true; false]; [false; false; false]] ∧
    mask_assign2 (replicate (shape b).1 (replicate (shape b).2 0%Q)) (filt_grid b)
                 (fst <$> results b) = Ok (image b) ∧
    length (results b) = count_true (filt_grid b) ∧
    has_shape (filt_grid b) (shape b).1 (shape b).2 ∧
    has_shape (image b) (shape b).1 (shape b).2 ∧
    ∀ r c,
      (r < (shape b).1)%nat → (c < (shape b).2)%nat →
      ∃ v,
        lookup2 (image b) r c = Some v ∧
        ((get2 (filt_grid b) r c = true ∧
          (fst <$> results b) !! rank (filt_grid b) r c = Some v) ∨
         (get2 (filt_grid b) r c = false ∧ v = 0%Q)).
Proof.
  destruct (@boundaries_make approx_float example_dataset 1 1 2 false tt None)
    as [b|e] eqn:E; [|vm_compute in E; discriminate].
  exists b. split; [reflexivity|]. split.
  - vm_compute in E. injection E as <-. reflexivity.
  - exact (@boundaries_make_image_roundtrip approx_float example_dataset
             1 1 2 false tt None b E).
Defined.

(** C6 on two genes and two angles: the distances are about 5 and 0. *)
Lemma worker_angle_max_argmax_witness :
  ∃ m k,
    @_worker_angle approx_float 2 [[3; 0]; [0; 0]]%Q [[0; 0]; [4; 0]]%Q = Ok (m, k) ∧
    (k < 2)%nat ∧
    m = @angle_distance approx_float [[3; 0]; [0; 0]]%Q [[0; 0]; [4; 0]]%Q k ∧
    (∀ j, (j < 2)%nat →
       (@angle_distance approx_float [[3; 0]; [0; 0]]%Q [[0; 0]; [4; 0]]%Q j <= m)%Q) ∧
    (∀ j, (j < k)%nat →
       (@angle_distance approx_float [[3; 0]; [0; 0]]%Q [[0; 0]; [4; 0]]%Q j < m)%Q).
Proof.
  apply (@worker_angle_max_argmax approx_float 2
           [[3; 0]; [0; 0]]%Q [[0; 0]; [4; 0]]%Q).
  - lia.
  - reflexivity.
  - repeat constructor.
  - repeat constructor.
Defined.

(** C7 on the nine-point dataset, with the normalisation flag set. *)
Lemma normalized_stacks_formula_witness :
  ∃ b,
    @boundaries_make approx_float example_dataset 1 1 2 true tt None = Ok b ∧
    ∃ angs points res count_matrix stack cm_norm stack' stack_other' results2,
      angles 2 = Ok angs ∧
      mapM (@get_gene example_dataset) (@selected_genes example_dataset None)
        = Ok points ∧
      mapM (λ p, _worker_bisect p (grid b) 1
                   ((λ a, @bisect approx_float 1 a None) <$> angs) 2) points
        = Ok res ∧
      mapM (mask_select (ravel (filt_grid b))) (snd <$> res) = Ok count_matrix ∧
      mapM (mask_select (ravel (filt_grid b))) (fst <$> res) = Ok stack ∧
      stack ≠ [] ∧
      @normalize example_dataset count_matrix tt = Ok cm_norm ∧
      (∀ g i j above,
         lookup3 stack g i j = Some above →
         ∃ norm total,
           lookup2 cm_norm g i = Some norm ∧ lookup2 count_matrix g i = Some total ∧
           lookup3 stack' g i j = Some (norm * safe_fraction above total)%Q ∧
           lookup3 stack_other' g i j
           = Some (norm * safe_fraction (total - above) total)%Q) ∧
      (∀ g i j,
         (is_Some (lookup3 stack' g i j) → is_Some (lookup3 stack g i j)) ∧
         (is_Some (lookup3 stack_other' g i j) → is_Some (lookup3 stack g i j))) ∧
      mapM (λ i, d1 ← slice_axis1 stack' i;
                 d2 ← slice_axis1 stack_other' i;
                 @_worker_angle approx_float 2 d1 d2)
           (seq 0 (ncols count_matrix)) = Ok results2 ∧
      fst <$> results b = fst <$> results2.
Proof.
  destruct (@boundaries_make approx_float example_dataset 1 1 2 true tt None)
    as [b|e] eqn:E; [|vm_compute in E; discriminate].
  exists b. split; [reflexivity|].
  exact (@normalized_stacks_formula approx_float example_dataset
           1 1 2 tt None b E).
Defined.

(** C8 on one point and two grid points, the second out of reach. *)
Lemma worker_bisect_zero_row_witness :
  ∃ index angle_counts count,
    query_radius [(0, 1)%Q] [(0, 0); (5, 5)]%Q 2 = Ok index ∧
    length index = 2%nat ∧
    _worker_bisect [(0, 1)%Q] [(0, 0); (5, 5)]%Q 2 [((1, 0), (-1, 0))%Q] 1
      = Ok (angle_counts, count) ∧
    ∀ i, index !! i = Some [] →
         angle_counts !! i = Some (replicate (Z.to_nat 1) 0%Z) ∧
         count !! i = Some 0%Z.
Proof.
  apply (worker_bisect_zero_row [(0, 1)%Q] [(0, 0); (5, 5)]%Q 2
           [((1, 0), (-1, 0))%Q] 1).
  - discriminate.
  - discriminate.
  - lia.
  - simpl. lia.
Defined.

(** C9 on a 2 x 2 image with one pixel outside the mask and one zero pixel
    inside it. *)
Lemma LBP_worker_mask_witness :
  ∃ out,
    @_LBP_worker example_texture [[1; 0]; [2; 3]]%Q [[true; true]; [false; true]]
                 5 5 6 10 2 = Ok out ∧
    same_shape out [[true; true]; [false; true]] ∧
    ∀ r c (b : bool),
      lookup2 [[true; true]; [false; true]] r c = Some b →
      ∃ x, lookup2 out r c = Some x ∧
           if b then ∃ q, x = Fin q else x = NaN.
Proof.
  apply (@LBP_worker_mask example_texture [[1; 0]; [2; 3]]%Q
           [[true; true]; [false; true]] 5 5 6 10 2).
  - repeat constructor.
  - repeat constructor.
  - repeat constructor.
  - repeat constructor; discriminate.
Defined.

(** C10 on two points, two grid points and two lines. *)
Lemma worker_bisect_counts_bounded_witness :
  _worker_bisect [(0, 1); (0, -1)]%Q [(0, 0); (5, 5)]%Q 2
                 [((1, 0), (-1, 0)); ((0, 1), (0, -1))]%Q 2
    = Ok ([[1; 0]; [0; 0]]%Z, [2; 0]%Z) ∧
  ∀ i j row a c,
    [[1; 0]; [0; 0]]%Z !! i = Some row → row !! j = Some a →
    [2; 0]%Z !! i = Some c → (0 ≤ a ≤ c)%Z.
Proof.
  assert (_worker_bisect [(0, 1); (0, -1)]%Q [(0, 0); (5, 5)]%Q 2
                         [((1, 0), (-1, 0)); ((0, 1), (0, -1))]%Q 2
          = Ok ([[1; 0]; [0; 0]]%Z, [2; 0]%Z)) as Hrun
    by (vm_compute; reflexivity).
  split; [exact Hrun|].
  apply (worker_bisect_counts_bounded [(0, 1); (0, -1)]%Q [(0, 0); (5, 5)]%Q 2
           [((1, 0), (-1, 0)); ((0, 1), (0, -1))]%Q 2).
  - simpl. lia.
  - exact Hrun.
Defined.

(** X1 on a 3 x 2 extent with bin size 1. *)
Lemma square_grid_layout_witness :
  ∃ grid Xi Yi,
    square_grid 1 3 2 0 3 0 2 = Ok (grid, Xi, Yi) ∧
    length grid = 6%nat ∧
    ∃ xi yi,
      length grid = (length xi * length yi)%nat ∧
      has_shape Xi (length yi) (length xi) ∧
      has_shape Yi (length yi) (length xi) ∧
      ∀ r c x y,
        xi !! c = Some x → yi !! r = Some y →
        grid !! (r * length xi + c)%nat = Some (x, y) ∧
        lookup2 Xi r c = Some x ∧ lookup2 Yi r c = Some y.
Proof.
  destruct (square_grid 1 3 2 0 3 0 2) as [[[grid Xi] Yi]|e] eqn:E;
    [|vm_compute in E; discriminate].
  exists grid, Xi, Yi. split; [reflexivity|]. split.
  - vm_compute in E. injection E as <- _ _. reflexivity.
  - exact (square_grid_layout 1 3 2 0 3 0 2 grid Xi Yi E).
Defined.


(** X5 on two points, two grid points and two lines. *)
Lemma worker_bisect_cells_witness :
  ∃ angle_counts count,
    _worker_bisect [(0, 1); (0, -1)]%Q [(0, 0); (5, 5)]%Q 2
                   [((1, 0), (-1, 0)); ((0, 1), (0, -1))]%Q 2
      = Ok (angle_counts, count) ∧
    length count = 2%nat ∧
    length angle_counts = 2%nat ∧
    ∀ i g,
      [(0, 0); (5, 5)]%Q !! i = Some g →
      count !! i = Some (Z.of_nat (length (in_radius [(0, 1); (0, -1)]%Q g 2))) ∧
      ∃ row,
        angle_counts !! i = Some row ∧
        length row = 2%nat ∧
        ∀ j, (j < 2)%nat →
             row !! j
             = Some match [((1, 0), (-1, 0)); ((0, 1), (0, -1))]%Q !! j with
                    | Some l => to_int32 (count_above [(0, 1); (0, -1)]%Q g 2 l)
                    | None => 0%Z
                    end.
Proof.
  eexists _, _. split; [vm_compute; reflexivity|].
  apply (worker_bisect_cells [(0, 1); (0, -1)]%Q [(0, 0); (5, 5)]%Q 2
           [((1, 0), (-1, 0)); ((0, 1), (0, -1))]%Q 2).
  vm_compute. reflexivity.
Defined.

(** X7 on one point and a radius of -1. *)
Lemma worker_bisect_negative_radius_witness :
  _worker_bisect [(0, 1)%Q] [(0, 0); (5, 5)]%Q (-1) [((1, 0), (-1, 0))%Q] 1
  = Ok ([[0]; [0]]%Z, [0; 0]%Z).
Proof.
  apply (worker_bisect_negative_radius [(0, 1)%Q] [(0, 0); (5, 5)]%Q (-1)
           [((1, 0), (-1, 0))%Q] 1).
  - reflexivity.
  - discriminate.
  - discriminate.
  - lia.
Defined.

(** X8 with no angle. *)
Lemma worker_angle_no_angles_witness :
  @_worker_angle approx_float 0 [[]; []] [[]; []] = Raise ValueError.
Proof. apply (@worker_angle_no_angles approx_float 0 [[]; []] [[]; []]). lia. Defined.

(** X9 on two genes and two angles. *)
Lemma worker_angle_identical_halves_witness :
  ∃ m,
    @_worker_angle approx_float 2 [[3; 1]; [0; 2]]%Q [[3; 1]; [0; 2]]%Q
      = Ok (m, 0%nat) ∧
    (m == @np_sqrt approx_float 0)%Q.
Proof.
  apply (@worker_angle_identical_halves approx_float 2 [[3; 1]; [0; 2]]%Q).
  - exact approx_sqrt_proper.
  - lia.
  - repeat constructor.
Defined.

(** X10 on the nine-point dataset. *)
Lemma boundaries_make_never_empty_witness :
  ∃ b,
    @boundaries_make approx_float example_dataset 1 1 2 false tt None = Ok b ∧
    (0 < length (results b))%nat ∧
    length (grid_filt b) = length (results b) ∧
    count_true (filt_grid b) = length (results b) ∧
    ∃ r c, get2 (filt_grid b) r c = true.
Proof.
  destruct (@boundaries_make approx_float example_dataset 1 1 2 false tt None)
    as [b|e] eqn:E; [|vm_compute in E; discriminate].
  exists b. split; [reflexivity|].
  exact (@boundaries_make_never_empty approx_float example_dataset
           1 1 2 false tt None b E).
Defined.

(** X11 on the nine-point dataset, with two angles. *)
Lemma boundaries_make_angles_tested_witness :
  ∃ b,
    @boundaries_make approx_float example_dataset 1 1 2 false tt None = Ok b ∧
    ∀ k d a,
      results b !! k = Some (d, a) →
      ∃ j : nat, (Z.of_nat j < 2)%Z ∧
                 (a == inject_Z (Z.of_nat j) * 180 / inject_Z 2)%Q.
Proof.
  destruct (@boundaries_make approx_float example_dataset 1 1 2 false tt None)
    as [b|e] eqn:E; [|vm_compute in E; discriminate].
  exists b. split; [reflexivity|].
  exact (@boundaries_make_angles_tested approx_float example_dataset
           1 1 2 false tt None b E).
Defined.

(** X12 with no angle. *)
Lemma boundaries_make_degenerate_raises_witness :
  raises (@boundaries_make approx_float example_dataset 1 1 0 false tt None).
Proof.
  apply (@boundaries_make_degenerate_raises approx_float example_dataset
           1 1 0 false tt None).
  left. lia.
Defined.

(** X13 with a radius of zero. *)
Lemma boundaries_make_small_radius_raises_witness :
  raises (@boundaries_make approx_float example_dataset 1 0 2 false tt None).
Proof.
  apply (@boundaries_make_small_radius_raises approx_float example_dataset
           1 0 2 false tt None).
  vm_compute. reflexivity.
Defined.

(** X14 on the nine-point dataset: one erosion step on a 3 x 3 grid. *)
Lemma boundaries_make_valid_cells_interior_witness :
  ∃ b,
    @boundaries_make approx_float example_dataset 1 1 2 false tt None = Ok b ∧
    (2 * 1 + 1 ≤ Z.of_nat (shape b).1)%Z ∧
    (2 * 1 + 1 ≤ Z.of_nat (shape b).2)%Z ∧
    ∀ r c : nat,
      get2 (filt_grid b) r c = true →
      (1 ≤ Z.of_nat r)%Z ∧ (Z.of_nat r + 1 < Z.of_nat (shape b).1)%Z ∧
      (1 ≤ Z.of_nat c)%Z ∧ (Z.of_nat c + 1 < Z.of_nat (shape b).2)%Z.
Proof.
  destruct (@boundaries_make approx_float example_dataset 1 1 2 false tt None)
    as [b|e] eqn:E; [|vm_compute in E; discriminate].
  assert (1 ≤ math_ceil (1 / 1))%Z as Hn by (vm_compute; discriminate).
  exists b. split; [reflexivity|].
  exact (@boundaries_make_valid_cells_interior approx_float example_dataset
           1 1 2 false tt None b Hn E).
Defined.

(** X15 on the nine-point dataset. *)
Lemma boundaries_make_shapes_witness :
  ∃ b,
    @boundaries_make approx_float example_dataset 1 1 2 false tt None = Ok b ∧
    length (grid b) = ((shape b).1 * (shape b).2)%nat ∧
    has_shape (filt_grid b) (shape b).1 (shape b).2 ∧
    has_shape (image b) (shape b).1 (shape b).2.
Proof.
  destruct (@boundaries_make approx_float example_dataset 1 1 2 false tt None)
    as [b|e] eqn:E; [|vm_compute in E; discriminate].
  exists b. split; [reflexivity|].
  exact (@boundaries_make_shapes approx_float example_dataset
           1 1 2 false tt None b E).
Defined.

(** X16 on a 2 x 2 image with one pixel outside the mask and one zero
    pixel inside it. *)
Lemma LBP_worker_nan_exactly_outside_witness :
  ∃ out,
    @_LBP_worker example_texture [[1; 0]; [2; 3]]%Q example_mask 5 5 6 10 2 = Ok out ∧
    same_shape out example_mask ∧
    ∀ r c : nat,
      (lookup2 example_mask r c = Some false → lookup2 out r c = Some NaN) ∧
      (lookup2 example_mask r c = Some true →
       ∃ x, lookup2 out r c = Some x ∧ x ≠ NaN).
Proof.
  eexists. split; [vm_compute; reflexivity|].
  apply (@LBP_worker_nan_exactly_outside example_texture [[1; 0]; [2; 3]]%Q
           example_mask 5 5 6 10 2).
  vm_compute. reflexivity.
Defined.

(** X18 on a 2 x 2 image with two channels. *)
Lemma boundaries_LBP_make_pixels_witness :
  ∃ out,
    @boundaries_LBP_make example_texture example_image3 example_mask 5 5 6 12 (3 # 2)
      = Ok out ∧
    ∀ r c (b : bool),
      lookup2 example_mask r c = Some b →
      ∃ cell,
        lookup2 out r c = Some cell ∧
        length cell = n_channels example_image3 ∧
        Forall (λ x, is_nan x = negb b) cell.
Proof.
  eexists. split; [vm_compute; reflexivity|].
  apply (@boundaries_LBP_make_pixels example_texture example_image3 example_mask
           5 5 6 12 (3 # 2)).
  vm_compute. reflexivity.
Defined.

(** X19 on the same image. *)
Lemma boundaries_LBP_make_channels_witness :
  ∃ out,
    @boundaries_LBP_make example_texture example_image3 example_mask 5 5 6 12 (3 # 2)
      = Ok out ∧
    (0 < n_channels example_image3)%nat ∧
    ∀ g, (g < n_channels example_image3)%nat →
      ∃ img lbp,
        channel example_image3 g = Ok img ∧
        @_LBP_worker example_texture img example_mask 5 5 6 12 (3 # 2) = Ok lbp ∧
        channel out g = Ok lbp.
Proof.
  eexists. split; [vm_compute; reflexivity|].
  apply (@boundaries_LBP_make_channels example_texture example_image3 example_mask
           5 5 6 12 (3 # 2)).
  vm_compute. reflexivity.
Defined.

(** X21 on two datasets. *)
Lemma boundaries_make_multi_entries_witness :
  ∃ results,
    boundaries_make_multi example_datasets 1 1 2 false tt None = Ok results ∧
    (∀ name, is_Some (results !! name) ↔
             ∃ d, d ∈ example_datasets ∧ dataset_name d = name) ∧
    (∀ i d, example_datasets !! i = Some d →
            (∀ j d', (i < j)%nat → example_datasets !! j = Some d' →
                     dataset_name d' ≠ dataset_name d) →
            ∃ r, d_boundaries_make d 1 1 2 false tt None = Ok r ∧
                 results !! dataset_name d = Some r).
Proof.
  destruct (boundaries_make_multi example_datasets 1 1 2 false tt None)
    as [results|e] eqn:E; [|vm_compute in E; discriminate].
  exists results. split; [reflexivity|].
  exact (boundaries_make_multi_entries example_datasets 1 1 2 false tt None results E).
Defined.

(** X23 on two datasets, one image and two masks: one result. *)
Lemma boundaries_LBP_make_multi_in_step_witness :
  ∃ results,
    boundaries_LBP_make_multi example_datasets [example_image3]
                              [example_mask; example_mask] 5 5 6 12 (3 # 2)
      = Ok results ∧
    length results = 1%nat ∧
    ∀ i r, results !! i = Some r →
      ∃ dd img mask,
        example_datasets !! i = Some dd ∧ [example_image3] !! i = Some img ∧
        [example_mask; example_mask] !! i = Some mask ∧
        d_boundaries_LBP_make dd img mask 5 5 6 12 (3 # 2) = Ok r.
Proof.
  eexists. split; [vm_compute; reflexivity|].
  apply (boundaries_LBP_make_multi_in_step example_datasets [example_image3]
           [example_mask; example_mask] 5 5 6 12 (3 # 2)).
  vm_compute. reflexivity.
Defined.

(** X24 on two datasets with an image and a mask each. *)
Lemma boundaries_LBP_make_multi_masks_witness :
  ∃ results,
    boundaries_LBP_make_multi example_datasets [example_image3; example_image3]
                              [example_mask; example_mask] 5 5 6 12 (3 # 2)
      = Ok results ∧
    ∀ i out mask r c (b : bool),
      results !! i = Some out → [example_mask; example_mask] !! i = Some mask →
      lookup2 mask r c = Some b →
      ∃ cell, lookup2 out r c = Some cell ∧ Forall (λ x, is_nan x = negb b) cell.
Proof.
  eexists. split; [vm_compute; reflexivity|].
  apply (@boundaries_LBP_make_multi_masks example_texture _ _ example_datasets
           [example_image3; example_image3] [example_mask; example_mask]
           5 5 6 12 (3 # 2)).
  - repeat constructor.
  - vm_compute. reflexivity.
Defined.
